(** * Buddy-XTR: session bootstrap, connection lifecycle, retention cache,
      delete recovery and group reconciliation

    A shallow embedding of [src/module.js].  JavaScript strings are Rocq
    [string]s holding their UTF-8 bytes, Node [Buffer]s are [list byte],
    numbers that the code only compares or counts are [Z] or [nat].  The
    module-level variables of the script ([messageStore], [useQR],
    [initialConnection], the credential file, the registered interval
    timers) form one [world] record that every function threads; calls to
    the collaborators (the protocol engine, the file system, the remote
    archive, the clock) are answered by an [env] and recorded in the
    world's trace. *)

From Stdlib Require Import String Ascii List ZArith NArith Lia Bool Arith DecimalString.
From Stdlib.Strings Require Import Byte.
Import ListNotations.
Open Scope string_scope.

Set Implicit Arguments.

(* ================================================================== *)
(** * JavaScript string primitives used by the script *)
(* ================================================================== *)

Module JsString.

(** [s.startsWith(p)] *)
Definition startsWith (s p : string) : bool := String.prefix p s.

(** [s.includes(p)] *)
Fixpoint includes (s p : string) : bool :=
  String.prefix p s ||
  match s with
  | EmptyString => false
  | String _ r => includes r p
  end.

(** [s.substring(k)] *)
Definition substring_from (k : nat) (s : string) : string :=
  String.substring k (String.length s - k) s.

(** [s.endsWith(p)] *)
Definition endsWith (s p : string) : bool :=
  (String.length p <=? String.length s)%nat &&
  String.eqb (substring_from (String.length s - String.length p) s) p.

(** [s.split(sep)] for a non-empty separator.  [skip] counts the
    characters of a separator occurrence still to be dropped, [cur] is the
    piece being collected. *)
Fixpoint split_go (sep : string) (skip : nat) (cur s : string) : list string :=
  match s with
  | EmptyString => [cur]
  | String c r =>
      match skip with
      | S k => split_go sep k cur r
      | O =>
          if String.prefix sep s
          then cur :: split_go sep (String.length sep - 1) EmptyString r
          else split_go sep 0 (cur ++ String c EmptyString) r
      end
  end.

Definition split (s sep : string) : list string := split_go sep 0 EmptyString s.

(** JavaScript truthiness of a string: the empty string is falsy. *)
Definition truthy (s : string) : bool := negb (String.eqb s "").

(** [a || b] on strings that may be [undefined]. *)
Definition or_else (a : option string) (b : string) : string :=
  match a with
  | Some s => if truthy s then s else b
  | None => b
  end.

(** [a || b] when both sides may be [undefined]. *)
Definition or_opt (a b : option string) : option string :=
  match a with
  | Some s => if truthy s then Some s else b
  | None => b
  end.

Definition truthy_opt (a : option string) : bool :=
  match a with
  | Some s => truthy s
  | None => false
  end.

End JsString.

(* ================================================================== *)
(** * Base64, as [Buffer.from(text, 'base64')] reads it *)
(* ================================================================== *)

Module Base64.

Local Open Scope N_scope.

Definition byte_of_N (n : N) : byte :=
  match Byte.of_N (n mod 256) with
  | Some b => b
  | None => x00
  end.

(** The character of a 6-bit value in the standard alphabet. *)
Definition base64_char (n : N) : ascii :=
  if n <? 26 then ascii_of_N (65 + n)
  else if n <? 52 then ascii_of_N (71 + n)
  else if n <? 62 then ascii_of_N (n - 4)
  else if n =? 62 then "+"%char
  else "/"%char.

(** Node's decoding table: the standard alphabet and the URL-safe
    variants of its last two characters. *)
Definition unbase64 (c : ascii) : option N :=
  let n := N_of_ascii c in
  if (65 <=? n) && (n <=? 90) then Some (n - 65)
  else if (97 <=? n) && (n <=? 122) then Some (n - 71)
  else if (48 <=? n) && (n <=? 57) then Some (n + 4)
  else if (n =? 43) || (n =? 45) then Some 62
  else if (n =? 47) || (n =? 95) then Some 63
  else None.

(** The encoder of RFC 4648, with padding. *)
Fixpoint encode (bs : list byte) : string :=
  match bs with
  | [] => EmptyString
  | [b1] =>
      let n1 := Byte.to_N b1 in
      String (base64_char (n1 / 4))
        (String (base64_char ((n1 mod 4) * 16)) "==")
  | [b1; b2] =>
      let n1 := Byte.to_N b1 in
      let n2 := Byte.to_N b2 in
      String (base64_char (n1 / 4))
        (String (base64_char ((n1 mod 4) * 16 + n2 / 16))
           (String (base64_char ((n2 mod 16) * 4)) "="))
  | b1 :: b2 :: b3 :: r =>
      let n1 := Byte.to_N b1 in
      let n2 := Byte.to_N b2 in
      let n3 := Byte.to_N b3 in
      String (base64_char (n1 / 4))
        (String (base64_char ((n1 mod 4) * 16 + n2 / 16))
           (String (base64_char ((n2 mod 16) * 4 + n3 / 64))
              (String (base64_char (n3 mod 64)) (encode r))))
  end.

(** The decoder is lenient: a character outside the table is skipped and
    the first [=] ends the input. *)
Fixpoint sextets (s : string) : list N :=
  match s with
  | EmptyString => []
  | String c r =>
      if Ascii.eqb c "="%char then []
      else match unbase64 c with
           | Some v => v :: sextets r
           | None => sextets r
           end
  end.

Fixpoint decode_groups (l : list N) : list byte :=
  match l with
  | a :: b :: c :: d :: r =>
      byte_of_N (a * 4 + b / 16)
        :: byte_of_N ((b mod 16) * 16 + c / 4)
        :: byte_of_N ((c mod 4) * 64 + d)
        :: decode_groups r
  | [a; b; c] =>
      [byte_of_N (a * 4 + b / 16); byte_of_N ((b mod 16) * 16 + c / 4)]
  | [a; b] => [byte_of_N (a * 4 + b / 16)]
  | _ => []
  end.

(** A JavaScript string is a sequence of UTF-16 code units, held here as
    its UTF-8 bytes; the base64 reader looks at the low byte of each code
    unit, so a character beyond Latin-1 is read as the character of its
    low byte.  The low bytes of the code units of the code point [cp]: one
    unit up to U+FFFF, a surrogate pair beyond. *)
Definition low_bytes_of (cp : N) : string :=
  if cp <? 65536 then String (ascii_of_N (cp mod 256)) EmptyString
  else
    String (ascii_of_N ((55296 + (cp - 65536) / 1024) mod 256))
      (String (ascii_of_N ((56320 + (cp - 65536) mod 1024) mod 256)) EmptyString).

(** What a byte starts in UTF-8: the low bytes it completes, the number
    of continuation bytes it waits for, and the bits read so far.  A byte
    that can start nothing is read as U+FFFD. *)
Definition lead (b : N) : string * nat * N :=
  if b <? 128 then (low_bytes_of b, 0%nat, 0)
  else if (192 <=? b) && (b <? 224) then (EmptyString, 1%nat, b - 192)
  else if (224 <=? b) && (b <? 240) then (EmptyString, 2%nat, b - 224)
  else if (240 <=? b) && (b <? 248) then (EmptyString, 3%nat, b - 240)
  else (low_bytes_of 65533, 0%nat, 0).

(** The low bytes of the code units of a text.  Bytes that are not
    well-formed UTF-8 are the text of no JavaScript string; they are read
    as U+FFFD, as a UTF-8 decoder reads them. *)
Fixpoint low_bytes_go (pending : nat) (acc : N) (s : string) : string :=
  match s with
  | EmptyString =>
      match pending with
      | O => EmptyString
      | S _ => low_bytes_of 65533
      end
  | String c r =>
      let b := N_of_ascii c in
      match pending with
      | S k =>
          if (128 <=? b) && (b <? 192) then
            match k with
            | O => (low_bytes_of (acc * 64 + (b - 128)) ++ low_bytes_go 0 0 r)%string
            | S _ => low_bytes_go k (acc * 64 + (b - 128)) r
            end
          else
            let '(out, p, a) := lead b in
            (low_bytes_of 65533 ++ out ++ low_bytes_go p a r)%string
      | O =>
          let '(out, p, a) := lead b in
          (out ++ low_bytes_go p a r)%string
      end
  end.

Definition low_bytes (s : string) : string := low_bytes_go 0 0 s.

Definition decode (s : string) : list byte := decode_groups (sextets (low_bytes s)).

End Base64.


(* ================================================================== *)
(** * Data model *)
(* ================================================================== *)

(** A thrown value, taken to be an object: [exn_message] is [None] when it
    has no string [message] property.  The values [null] and [undefined],
    of which not even [message] can be read, are not represented. *)
Record exn := { exn_message : option string }.

(** The key of a message.  [msgId] is the field [id] of the source. *)
Record MessageKey := {
  msgId : option string;
  remoteJid : option string;
  participant : option string;
  fromMe : bool
}.

(** [protocolMessage]: [protoType] is its [type], [protoKey] its [key]. *)
Record ProtocolMessage := {
  protoType : option Z;
  protoKey : option MessageKey
}.

(** The payload of a message: at most a few of the variants are populated.
    For a variant with one field the script reads, the inner option is that
    field ([text], [caption], [fileName]). *)
Record Message := {
  conversation : option string;
  extendedTextMessage : option (option string);
  imageMessage : option (option string);
  videoMessage : option (option string);
  audioMessage : bool;
  documentMessage : option (option string);
  stickerMessage : bool;
  protocolMessage : option ProtocolMessage;
  ephemeralMessage : bool;
  reactionMessage : bool
}.

Record WebMessage := {
  key : option MessageKey;
  message : option Message;
  pushName : option string
}.

(** An entry of [messageStore]: [{ ...mek, timestamp: Date.now() }]. *)
Record StoredMessage := {
  stored : WebMessage;
  timestamp : Z
}.

(** What is handed to [Matrix.sendMessage]. *)
Inductive content :=
| Text (text : string)
| Forward (m : Message)
| React (text : string) (k : MessageKey)
| Image (url caption : string).

(** The calls the script makes to its collaborators. *)
Inductive call :=
| ExistsSync
| WriteFile (data : string)
| MegaDownload (url : string)
| UseMultiFileAuthState
| FetchLatestBaileysVersion
| MakeWASocket (printQRInTerminal : bool)
| SetInterval (sock : nat) (ms : Z)
| ProcessExit (code : Z)
| SendMessage (sock : nat) (jid : string) (c : content) (quoted : option WebMessage)
| ReadMessages (sock : nat) (keys : list MessageKey)
| GroupAcceptInvite (sock : nat) (code : string)
| SetTimeout (ms : Z)
| DateNow
| MathRandom.

(** How a call to a collaborator ends: its promise resolves, its promise
    rejects, or the call itself throws before a promise exists. *)
Inductive outcome :=
| Resolves
| Rejects (e : exn)
| ThrowsSync (e : exn).

Inductive attempt (A : Type) :=
| Done (a : A)
| Failed (e : exn).
Arguments Done {A} a.
Arguments Failed {A} e.

(** The collaborators.  Every answer may depend on the calls made so far. *)
Record env := {
  answer : list call -> call -> outcome;
  downloaded : list call -> string;
  clock : list call -> Z;
  random_below : list call -> Z -> Z;
  gunzip : list byte -> attempt (list byte);
  toString_utf8 : list byte -> string;
  format : Z -> string;
  userId : nat -> option string
}.

(** [config.cjs] is not part of the sources: the options the script reads
    are the fields of this record. *)
Record config := {
  SESSION_ID : option string;
  ANTI_DELETE : bool;
  AUTO_VIEW_STATUS : bool;
  AUTO_LIKE_STATUS : bool;
  AUTO_STATUS_SEEN : bool;
  AUTO_STATUS_REPLY : bool;
  STATUS_READ_MSG : option string;
  AUTO_REACT : bool;
  BOT_OWNER : string;
  SEND_CONNECT_MESSAGE : bool;
  AUTO_JOIN_GROUP_LINKS : list string;
  PREFIX : string
}.

(** The module-level state of the script. *)
Record world := {
  credsFile : option string;
  useQR : bool;
  initialConnection : bool;
  messageStore : list (string * StoredMessage);
  sockets : nat;
  intervals : list nat;
  trace : list call;
  exited : bool
}.

Definition set_credsFile (v : option string) (w : world) : world :=
  {| credsFile := v; useQR := useQR w; initialConnection := initialConnection w;
     messageStore := messageStore w; sockets := sockets w;
     intervals := intervals w; trace := trace w; exited := exited w |}.

Definition set_useQR (v : bool) (w : world) : world :=
  {| credsFile := credsFile w; useQR := v; initialConnection := initialConnection w;
     messageStore := messageStore w; sockets := sockets w;
     intervals := intervals w; trace := trace w; exited := exited w |}.

Definition set_initialConnection (v : bool) (w : world) : world :=
  {| credsFile := credsFile w; useQR := useQR w; initialConnection := v;
     messageStore := messageStore w; sockets := sockets w;
     intervals := intervals w; trace := trace w; exited := exited w |}.

Definition set_messageStore (v : list (string * StoredMessage)) (w : world) : world :=
  {| credsFile := credsFile w; useQR := useQR w; initialConnection := initialConnection w;
     messageStore := v; sockets := sockets w;
     intervals := intervals w; trace := trace w; exited := exited w |}.

Definition set_sockets (v : nat) (w : world) : world :=
  {| credsFile := credsFile w; useQR := useQR w; initialConnection := initialConnection w;
     messageStore := messageStore w; sockets := v;
     intervals := intervals w; trace := trace w; exited := exited w |}.

Definition set_intervals (v : list nat) (w : world) : world :=
  {| credsFile := credsFile w; useQR := useQR w; initialConnection := initialConnection w;
     messageStore := messageStore w; sockets := sockets w;
     intervals := v; trace := trace w; exited := exited w |}.

Definition set_trace (v : list call) (w : world) : world :=
  {| credsFile := credsFile w; useQR := useQR w; initialConnection := initialConnection w;
     messageStore := messageStore w; sockets := sockets w;
     intervals := intervals w; trace := v; exited := exited w |}.

Definition set_exited (v : bool) (w : world) : world :=
  {| credsFile := credsFile w; useQR := useQR w; initialConnection := initialConnection w;
     messageStore := messageStore w; sockets := sockets w;
     intervals := intervals w; trace := trace w; exited := v |}.

(** The state of the script when it is loaded (lines 32-39): no socket, no
    timer, an empty store; the credential file is whatever the disk holds. *)
Definition initial_world (file : option string) : world :=
  {| credsFile := file; useQR := false; initialConnection := true;
     messageStore := []; sockets := 0; intervals := [];
     trace := []; exited := false |}.

(* ================================================================== *)
(** * Effects: state, collaborators, exceptions *)
(* ================================================================== *)

Inductive res (A : Type) :=
| Ret (a : A)
| Throw (e : exn).
Arguments Ret {A} a.
Arguments Throw {A} e.

Definition M (A : Type) : Type := env -> world -> res A * world.

Definition ret {A} (a : A) : M A := fun _ w => (Ret a, w).

Definition throw {A} (e : exn) : M A := fun _ w => (Throw e, w).

Definition bind {A B} (m : M A) (k : A -> M B) : M B :=
  fun E w =>
    match m E w with
    | (Ret a, w') => k a E w'
    | (Throw e, w') => (Throw e, w')
    end.

Declare Scope js_scope.
Delimit Scope js_scope with js.
Notation "x <- m ;; k" := (bind m (fun x => k))
  (at level 61, m at next level, right associativity) : js_scope.
Notation "m ;; k" := (bind m (fun _ => k))
  (at level 61, right associativity) : js_scope.
Open Scope js_scope.

(** [try { body } catch (e) { handler e }] *)
Definition try_catch {A} (body : M A) (handler : exn -> M A) : M A :=
  fun E w =>
    match body E w with
    | (Ret a, w') => (Ret a, w')
    | (Throw e, w') => handler e E w'
    end.

Definition gets {A} (f : world -> A) : M A := fun _ w => (Ret (f w), w).

Definition modify (f : world -> world) : M unit := fun _ w => (Ret tt, f w).

Definition asks {A} (f : env -> A) : M A := fun E w => (Ret (f E), w).

(** Make a call: it is appended to the trace and the collaborator answers
    from the calls made before it. *)
Definition perform (c : call) : M outcome :=
  fun E w => (Ret (answer E (trace w) c), set_trace (trace w ++ [c]) w).

(** [await f(...)]: a rejection and a synchronous throw both surface as an
    exception at the [await]. *)
Definition await (c : call) : M unit :=
  o <- perform c ;;
  match o with
  | Resolves => ret tt
  | Rejects e => throw e
  | ThrowsSync e => throw e
  end.

(** [await f(...).catch(() => { log })]: the rejection is absorbed; a call
    that throws before returning its promise is not. *)
Definition await_catch (c : call) : M unit :=
  o <- perform c ;;
  match o with
  | Resolves => ret tt
  | Rejects _ => ret tt
  | ThrowsSync e => throw e
  end.

(** [Date.now()] *)
Definition dateNow : M Z :=
  fun E w => (Ret (clock E (trace w)), set_trace (trace w ++ [DateNow]) w).

(** [Math.floor(Math.random() * n)], a value in [0, n). *)
Definition randomBelow (n : Z) : M Z :=
  fun E w => (Ret (random_below E (trace w) n mod n)%Z,
              set_trace (trace w ++ [MathRandom]) w).

(** [moment().format('YYYY-MM-DD HH:mm:ss')] *)
Definition momentNow : M string :=
  t <- dateNow ;; f <- asks format ;; ret (f t).

(** [await new Promise(resolve => setTimeout(resolve, ms))] never fails. *)
Definition sleep (ms : Z) : M unit :=
  modify (fun w => set_trace (trace w ++ [SetTimeout ms]) w).

(** The [TypeError] the runtime raises when a property of [undefined] is
    read or a method is called on it. *)
Definition typeError (what : string) : exn :=
  {| exn_message := Some ("Cannot read properties of undefined (reading '" ++ what ++ "')") |}.
(* ================================================================== *)
(** * The texts the script sends *)
(* ================================================================== *)

Module Templates.

(** A number inside a template literal. *)
Definition show_nat (n : nat) : string := NilZero.string_of_uint (Nat.to_uint n).

(** A possibly undefined string inside a template literal. *)
Definition show_opt (o : option string) : string :=
match o with
| Some s => s
| None => "undefined"
end.

Definition flag (b : bool) : string := if b then "✅" else "❌".

Definition reportMessage (timestamp deleteTimestamp senderName senderJid targetJid chatType messageType : string)
  (deletedByMe : bool) (messageContent : string) : string :=
  "🚨 *ANTI-DELETE: DELETED MESSAGE RECOVERED* 🚨

📅 *Original Time:* "
  ++ timestamp
  ++ "
🗑️ *Deleted At:* "
  ++ deleteTimestamp
  ++ "
👤 *Sender:* "
  ++ senderName
  ++ "
📞 *Sender JID:* "
  ++ senderJid
  ++ "
💬 *Chat JID/LID:* "
  ++ targetJid
  ++ "
📊 *Chat Type:* "
  ++ chatType
  ++ "
📝 *Message Type:* "
  ++ messageType
  ++ "
👁️ *Deleted by:* "
  ++ (if deletedByMe then "You (Bot)" else "Other User")
  ++ "

🗒️ *Original Message:*
"
  ++ messageContent
  ++ "

✅ *Message has been automatically recovered and resent to the chat.*".

Definition recoveryInfo (senderName timestamp : string) : string :=
  "🗑️ *Message Recovery*
📝 This message was deleted and automatically recovered by the anti-delete system.
👤 Original sender: "
  ++ senderName
  ++ "
⏰ Original time: "
  ++ timestamp.

Definition fallbackMessage (senderName timestamp messageType messageContent : string) : string :=
  "🗑️ *Recovered Deleted Message*

From: "
  ++ senderName
  ++ "
Time: "
  ++ timestamp
  ++ "
Type: "
  ++ messageType
  ++ "

Content: "
  ++ messageContent.

Definition recoveredCaption (originalCaption : string) : string :=
  "🗑️ [Recovered Deleted Message]
"
  ++ originalCaption.

Definition recoveredFileName (originalFileName : string) : string :=
  "[Recovered] "
  ++ originalFileName.

Definition documentContent (fileName : string) : string :=
  "[Document] "
  ++ fileName.

Definition summaryMessage (joinedCount alreadyInCount failedCount total : nat) (time : string) : string :=
  "📊 *Auto-Join Groups Summary*

✅ Successfully joined: "
  ++ show_nat joinedCount
  ++ " groups
ℹ️ Already in: "
  ++ show_nat alreadyInCount
  ++ " groups
❌ Failed: "
  ++ show_nat failedCount
  ++ " groups
📋 Total: "
  ++ show_nat total
  ++ " groups

🔄 Process completed at: "
  ++ time.

Definition errorMessage (message : option string) (time : string) : string :=
  "❌ *Auto-Join Groups Error*

Error: "
  ++ show_opt message
  ++ "
Time: "
  ++ time
  ++ "

Please check the bot logs for details.".

Definition simpleMessage (time : string) (total : nat) : string :=
  "🚀 Buddy-XTR Online!
📅 "
  ++ time
  ++ "
✅ Bot is now connected and running.
📋 Will auto-join "
  ++ show_nat total
  ++ " groups.".

(** [names.map((g, i) => `   ${i + 1}. ${g.name}`).join('\n')] *)
Fixpoint groupList (i : nat) (names : list string) : string :=
match names with
| [] => ""
| [n] => "   " ++ show_nat (i + 1) ++ ". " ++ n
| n :: rest => "   " ++ show_nat (i + 1) ++ ". " ++ n ++ "
" ++ groupList (S i) rest
end.

Definition connectCaption (prefix botNumber connectTime : string) (antiDelete autoView autoLike autoReact : bool)
  (groupNames : list string) : string :=
  "
╭──────────━⊷ ⁠⁠⁠⁠
║ 𝕭𝖀𝕯𝕯𝖄-𝖃𝕿𝕽
╰──────────━⊷
╭──────────━⊷
║ 𝕯𝖊𝖛𝖊𝖑𝖔𝖕𝖊𝖗: 𝕮𝖆𝖗𝖑𝖙𝖊𝖈𝖍
║ 𝕷𝖎𝖇𝖗𝖆𝖗𝖞: 𝕭𝖆𝖎𝖑𝖊𝖞𝖘
║ 𝕴𝖌𝖓𝖎𝖙𝖎𝖔𝖓: *"
  ++ prefix
  ++ "*
║ 𝕭𝖔𝖙 𝕹𝖚𝖒𝖇𝖊𝖗: "
  ++ botNumber
  ++ "
║ 𝕮𝖔𝖓𝖓𝖊𝖈𝖙 𝕿𝖎𝖒𝖊: "
  ++ connectTime
  ++ "
╰──────────━⊷
https://tinyurl.com/yx2b6u3n

🚀 *Buddy-XTR Online!*
📅 "
  ++ connectTime
  ++ "
🔗 Status: Online & Operational
✅ Features Active:
   • Anti-Delete: "
  ++ flag antiDelete
  ++ "
   • Auto-View Status: "
  ++ flag autoView
  ++ "
   • Auto-Like Status: "
  ++ flag autoLike
  ++ "
   • Auto-Join Groups: ✅ (Mandatory - "
  ++ show_nat (List.length groupNames)
  ++ " groups)
   • Auto-React: "
  ++ flag autoReact
  ++ "

📋 Groups to auto-join:
"
  ++ groupList 0 groupNames
  ++ "

🤖 Ready to serve!
".

Definition LIKE_EMOJIS : list string :=
  ["👍"; "❤️"; "🔥"; "👏"; "🎉"; "🤩"; "😍"; "⚡"; "💯"; "✨"].

End Templates.

(* ================================================================== *)
(** * The script *)
(* ================================================================== *)

Section Script.

Variable cfg : config.

(** [BOT_OWNER && BOT_OWNER.includes('@')] *)
Definition ownerConfigured : bool :=
  JsString.truthy (BOT_OWNER cfg) && JsString.includes (BOT_OWNER cfg) "@".

(** ** Credential bootstrap (lines 117-213) *)

(** [fs.existsSync(credsPath)] *)
Definition existsSync : M bool :=
  fun _ w =>
    (Ret (match credsFile w with Some _ => true | None => false end),
     set_trace (trace w ++ [ExistsSync]) w).

(** [await fs.promises.writeFile(credsPath, data)] *)
Definition writeFile (data : string) : M unit :=
  await (WriteFile data) ;;
  modify (set_credsFile (Some data)).

(** The [JSON.parse] probe of lines 151-157 only logs and is left out. *)
Definition loadGiftedSession : M bool :=
  match SESSION_ID cfg with
  | None => ret false
  | Some sid =>
      if negb (JsString.truthy sid) then ret false
      else if JsString.startsWith sid "Buddy~" then
        let compressedBase64 := JsString.substring_from (String.length "Buddy~") sid in
        try_catch
          (let compressedBuffer := Base64.decode compressedBase64 in
           match compressedBuffer with
           | x1f :: x8b :: _ =>
               unzip <- asks gunzip ;;
               match unzip compressedBuffer with
               | Failed e => throw e
               | Done decompressedBuffer =>
                   decode <- asks toString_utf8 ;;
                   let sessionData := decode decompressedBuffer in
                   writeFile sessionData ;;
                   ret true
               end
           | _ => ret false
           end)
          (fun _ => ret false)
      else ret false
  end.

Definition downloadLegacySession : M bool :=
  match SESSION_ID cfg with
  | None => ret false
  | Some sid =>
      if negb (JsString.truthy sid) then ret false
      else
        match nth_error (JsString.split sid "Buddy~") 1 with
        | None => ret false
        | Some sessdata =>
            if negb (JsString.truthy sessdata) || negb (JsString.includes sessdata "#")
            then ret false
            else
              let parts := JsString.split sessdata "#" in
              let fileID := nth 0 parts "" in
              let decryptKey := nth 1 parts "" in
              try_catch
                (await (MegaDownload ("https://mega.nz/file/" ++ fileID ++ "#" ++ decryptKey)) ;;
                 data <- (fun E w => (Ret (downloaded E (trace w)), w)) ;;
                 writeFile data ;;
                 ret true)
                (fun _ => ret false)
        end
  end.

(** ** Connecting (lines 660-811) *)

(** [process.exit(1)] *)
Definition processExit (code : Z) : M unit :=
  modify (fun w => set_exited true (set_trace (trace w ++ [ProcessExit code]) w)).

(** [makeWASocket({...})] followed by the [Matrix.ev.on] registrations: the
    new socket gets the next index and the handlers defined below. *)
Definition makeWASocket : M nat :=
  qr <- gets useQR ;;
  await (MakeWASocket qr) ;;
  n <- gets sockets ;;
  modify (set_sockets (S n)) ;;
  ret n.

(** [setInterval(() => { handleAutoJoinGroups(Matrix) }, 10 * 60 * 1000)] *)
Definition setInterval (Matrix : nat) : M unit :=
  modify (fun w =>
            set_intervals (intervals w ++ [Matrix])
              (set_trace (trace w ++ [SetInterval Matrix (10 * 60 * 1000)]) w)).

Definition start : M unit :=
  try_catch
    (await UseMultiFileAuthState ;;
     await FetchLatestBaileysVersion ;;
     Matrix <- makeWASocket ;;
     setInterval Matrix)
    (fun _ => processExit 1).

Definition init : M unit :=
  found <- existsSync ;;
  if found then start
  else
    if JsString.truthy_opt (SESSION_ID cfg)
       && JsString.startsWith (JsString.or_else (SESSION_ID cfg) "") "Buddy~"
    then
      sessionLoaded <- loadGiftedSession ;;
      if sessionLoaded then start
      else modify (set_useQR true) ;; start
    else if JsString.truthy_opt (SESSION_ID cfg)
            && JsString.includes (JsString.or_else (SESSION_ID cfg) "") "Buddy~"
    then
      sessionDownloaded <- downloadLegacySession ;;
      if sessionDownloaded then start
      else modify (set_useQR true) ;; start
    else modify (set_useQR true) ;; start.

(** ** Membership targets (lines 62-97) *)

Record Group := {
  name : string;
  inviteLink : string;
  inviteCode : string
}.

Definition builtin_groups : list Group :=
  [ {| name := "Group 1";
       inviteLink := "https://chat.whatsapp.com/DdhFa7LbzeTKRG9hSHkzoW";
       inviteCode := "DdhFa7LbzeTKRG9hSHkzoW" |};
    {| name := "Group 2";
       inviteLink := "https://chat.whatsapp.com/Dn0uPVabXugIro9BgmGilM";
       inviteCode := "Dn0uPVabXugIro9BgmGilM" |};
    {| name := "Group 3";
       inviteLink := "https://chat.whatsapp.com/F4wbivBj6Qg1ZPDAi9GAag";
       inviteCode := "F4wbivBj6Qg1ZPDAi9GAag" |} ].

Fixpoint configGroups (index : nat) (additionalLinks : list string) : list Group :=
  match additionalLinks with
  | [] => []
  | link :: rest =>
      (if JsString.includes link "chat.whatsapp.com/"
       then [ {| name := "Config Group " ++ Templates.show_nat (index + 1);
                 inviteLink := link;
                 inviteCode := nth 1 (JsString.split link "chat.whatsapp.com/") "" |} ]
       else [])
      ++ configGroups (S index) rest
  end.

Definition MANDATORY_GROUPS : list Group :=
  builtin_groups ++ configGroups 0 (AUTO_JOIN_GROUP_LINKS cfg).

(** ** Group reconciliation (lines 385-566) *)

Record JoinResult := {
  success : bool;
  alreadyInGroup : bool;
  error : option string;
  groupName : string
}.

(** The [catch] block of [joinGroupByInviteCode]: the thrown value's
    [message] is searched for keywords; without a string [message] the
    search itself raises a [TypeError].  Its text is the one the runtime
    gives for a missing [message]; for a [message] of another type the
    runtime words it differently. *)
Definition classifyJoinError (e : exn) (groupName : string) : M JoinResult :=
  match exn_message e with
  | None => throw (typeError "includes")
  | Some message =>
      if JsString.includes message "already" then
        ret {| success := true; alreadyInGroup := true; error := None;
               groupName := groupName |}
      else if JsString.includes message "invite" || JsString.includes message "invalid" then
        ret {| success := false; alreadyInGroup := false;
               error := Some "Invalid or expired invite link"; groupName := groupName |}
      else if JsString.includes message "rate" || JsString.includes message "limit" then
        ret {| success := false; alreadyInGroup := false;
               error := Some "Rate limit"; groupName := groupName |}
      else
        ret {| success := false; alreadyInGroup := false;
               error := Some message; groupName := groupName |}
  end.

Definition joinGroupByInviteCode (Matrix : nat) (inviteCode : string) (groupName : string)
  : M JoinResult :=
  try_catch
    (let code :=
       if JsString.includes inviteCode "chat.whatsapp.com/"
       then nth 1 (JsString.split inviteCode "chat.whatsapp.com/") ""
       else inviteCode in
     await (GroupAcceptInvite Matrix code) ;;
     sleep 2000 ;;
     ret {| success := true; alreadyInGroup := false; error := None;
            groupName := groupName |})
    (fun e => classifyJoinError e groupName).

(** An entry of [results].  The entry pushed by the [catch] of the loop has
    no [alreadyInGroup] field. *)
Record Outcome := {
  group : string;
  o_success : bool;
  o_error : option string;
  o_alreadyInGroup : option bool
}.

(** The counters and the list the loop of [handleAutoJoinGroups] updates. *)
Record Counters := {
  joinedCount : nat;
  alreadyInCount : nat;
  failedCount : nat;
  c_results : list Outcome
}.

Record Summary := {
  total : nat;
  joined : nat;
  alreadyIn : nat;
  failed : nat;
  results : list Outcome
}.

(** One turn of the [for] loop (lines 459-517) for the target at index [i]
    of [n].  Nothing before the call of [joinGroupByInviteCode] changes a
    counter and nothing after it can throw, so the [catch] sees the
    counters as they were when the turn started. *)
Definition joinTurn (Matrix : nat) (n i : nat) (g : Group) (c : Counters) : M Counters :=
  try_catch
    (result <- joinGroupByInviteCode Matrix (inviteCode g) (name g) ;;
     c1 <- (if success result then
              if alreadyInGroup result then
                ret {| joinedCount := joinedCount c;
                       alreadyInCount := S (alreadyInCount c);
                       failedCount := failedCount c; c_results := c_results c |}
              else
                sleep 3000 ;;
                ret {| joinedCount := S (joinedCount c);
                       alreadyInCount := alreadyInCount c;
                       failedCount := failedCount c; c_results := c_results c |}
            else
              ret {| joinedCount := joinedCount c;
                     alreadyInCount := alreadyInCount c;
                     failedCount := S (failedCount c); c_results := c_results c |}) ;;
     let c2 :=
       {| joinedCount := joinedCount c1; alreadyInCount := alreadyInCount c1;
          failedCount := failedCount c1;
          c_results := c_results c1 ++
            [ {| group := name g; o_success := success result;
                 o_error := error result;
                 o_alreadyInGroup := Some (alreadyInGroup result) |} ] |} in
     (if (i <? n - 1)%nat then sleep 3000 else ret tt) ;;
     ret c2)
    (fun e =>
       ret {| joinedCount := joinedCount c; alreadyInCount := alreadyInCount c;
              failedCount := S (failedCount c);
              c_results := c_results c ++
                [ {| group := name g; o_success := false;
                     o_error := exn_message e; o_alreadyInGroup := None |} ] |}).

Fixpoint joinLoop (Matrix : nat) (n i : nat) (gs : list Group) (c : Counters) : M Counters :=
  match gs with
  | [] => ret c
  | g :: rest =>
      c' <- joinTurn Matrix n i g c ;;
      joinLoop Matrix n (S i) rest c'
  end.

(** [handleAutoJoinGroups(Matrix)]; the list it walks is the module-level
    [MANDATORY_GROUPS], passed here as [groups]. *)
Definition handleAutoJoinGroups (groups : list Group) (Matrix : nat) : M Summary :=
  try_catch
    (let n := List.length groups in
     c <- joinLoop Matrix n 0 groups
            {| joinedCount := 0; alreadyInCount := 0; failedCount := 0; c_results := [] |} ;;
     (if ownerConfigured then
        time <- momentNow ;;
        await_catch
          (SendMessage Matrix (BOT_OWNER cfg)
             (Text (Templates.summaryMessage (joinedCount c) (alreadyInCount c)
                      (failedCount c) n time))
             None)
      else ret tt) ;;
     ret {| total := n; joined := joinedCount c; alreadyIn := alreadyInCount c;
            failed := failedCount c; results := c_results c |})
    (fun e =>
       (if ownerConfigured then
          time <- momentNow ;;
          await_catch
            (SendMessage Matrix (BOT_OWNER cfg)
               (Text (Templates.errorMessage (exn_message e) time)) None)
        else ret tt) ;;
       throw e).

(** ** The connect notice (lines 569-658) *)

(** Both [catch] blocks read [message] off the thrown value for the log
    only (lines 644 and 655); the log is not modelled, so the handlers
    take no argument here. *)

Definition sendConnectMessage (groups : list Group) (Matrix : nat) : M unit :=
  try_catch
    (if negb (SEND_CONNECT_MESSAGE cfg) then ret tt
     else
       sleep 2000 ;;
       botJid <- asks (fun E => userId E Matrix) ;;
       let targetJid :=
         if ownerConfigured then Some (BOT_OWNER cfg)
         else if JsString.truthy_opt botJid then botJid
         else None in
       match targetJid with
       | Some jid =>
           connectTime <- momentNow ;;
           let botNumber :=
             match botJid with
             | Some j => if JsString.truthy j then nth 0 (JsString.split j "@") "" else "Unknown"
             | None => "Unknown"
             end in
           await
             (SendMessage Matrix jid
                (Image "https://files.catbox.moe/qtvynm.jpg"
                   (Templates.connectCaption (PREFIX cfg) botNumber connectTime
                      (ANTI_DELETE cfg) (AUTO_VIEW_STATUS cfg) (AUTO_LIKE_STATUS cfg)
                      (AUTO_REACT cfg) (map name groups)))
                None)
       | None => ret tt
       end)
    (fun _ =>
       try_catch
         (if ownerConfigured then
            time <- momentNow ;;
            await
              (SendMessage Matrix (BOT_OWNER cfg)
                 (Text (Templates.simpleMessage time (List.length groups))) None)
          else ret tt)
         (fun _ => ret tt)).

End Script.

(* ================================================================== *)
(** * The retention cache: [messageStore], a JavaScript [Map] *)
(* ================================================================== *)

(** A [Map] keeps its entries in the order their keys were first set;
    [set] on a present key replaces the value in place. *)
Module JsMap.

Definition t : Type := list (string * StoredMessage).

Fixpoint get (k : string) (m : t) : option StoredMessage :=
  match m with
  | [] => None
  | (k', v) :: r => if String.eqb k' k then Some v else get k r
  end.

Fixpoint set (k : string) (v : StoredMessage) (m : t) : t :=
  match m with
  | [] => [(k, v)]
  | (k', v') :: r => if String.eqb k' k then (k', v) :: r else (k', v') :: set k v r
  end.

Fixpoint delete (k : string) (m : t) : t :=
  match m with
  | [] => []
  | (k', v) :: r => if String.eqb k' k then r else (k', v) :: delete k r
  end.

Definition size (m : t) : nat := List.length m.

Definition keys (m : t) : list string := map fst m.

(** [entries.sort((a, b) => a[1].timestamp - b[1].timestamp)]: the sort
    of an array is stable, so entries with equal timestamps keep the order
    of the map. *)
Fixpoint insert (e : string * StoredMessage) (l : t) : t :=
  match l with
  | [] => [e]
  | x :: r =>
      if (timestamp (snd e) - timestamp (snd x) <=? 0)%Z then e :: x :: r
      else x :: insert e r
  end.

Fixpoint sort (l : t) : t :=
  match l with
  | [] => []
  | e :: r => insert e (sort r)
  end.

End JsMap.

(** Lines 733-740: set the entry, then drop the oldest one when the map
    holds more than 1000. *)
Definition messageStore_put (id : string) (mek : WebMessage) (now : Z) (m : JsMap.t) : JsMap.t :=
  let m1 := JsMap.set id {| stored := mek; timestamp := now |} m in
  if (1000 <? JsMap.size m1)%nat then
    match JsMap.sort m1 with
    | (oldestKey, _) :: _ => JsMap.delete oldestKey m1
    | [] => m1
    end
  else m1.

(* ================================================================== *)
(** * Message handlers *)
(* ================================================================== *)

Section Handlers.

Variable cfg : config.

(** ** Delete recovery (lines 216-339) *)

(** The chat type read off the suffix of the chat identifier. *)
Definition chatTypeOf (targetJid : string) : string :=
  if JsString.endsWith targetJid "@g.us" then "Group"
  else if JsString.endsWith targetJid "@s.whatsapp.net" then "Private"
  else if JsString.endsWith targetJid "@broadcast" then "Broadcast"
  else "Unknown".

(** [o?.field] for a variant whose one field is read. *)
Definition field (o : option (option string)) : option string :=
  match o with
  | Some f => f
  | None => None
  end.

(** Lines 244-269: the content and the kind of a stored payload. *)
Definition describe (m : option Message) : string * string :=
  match m with
  | None => ("Unknown content", "Text")
  | Some msg =>
      if JsString.truthy_opt (conversation msg) then
        (JsString.or_else (conversation msg) "", "Text")
      else if JsString.truthy_opt (field (extendedTextMessage msg)) then
        (JsString.or_else (field (extendedTextMessage msg)) "", "Extended Text")
      else
        match imageMessage msg with
        | Some caption => (JsString.or_else caption "[Image Message]", "Image")
        | None =>
        match videoMessage msg with
        | Some caption => (JsString.or_else caption "[Video Message]", "Video")
        | None =>
        if audioMessage msg then ("[Audio Message]", "Audio")
        else
        match documentMessage msg with
        | Some fileName =>
            (Templates.documentContent (JsString.or_else fileName "File"), "Document")
        | None =>
        if stickerMessage msg then ("[Sticker]", "Sticker")
        else ("Unknown content", "Text")
        end end end
  end.

(** Lines 292-304: the copy that is resent, media captions and file names
    tagged as recovered. *)
Definition tagRecovered (msg : Message) : Message :=
  match imageMessage msg with
  | Some caption =>
      {| conversation := conversation msg;
         extendedTextMessage := extendedTextMessage msg;
         imageMessage := Some (Some (Templates.recoveredCaption (JsString.or_else caption "")));
         videoMessage := videoMessage msg; audioMessage := audioMessage msg;
         documentMessage := documentMessage msg; stickerMessage := stickerMessage msg;
         protocolMessage := protocolMessage msg;
         ephemeralMessage := ephemeralMessage msg;
         reactionMessage := reactionMessage msg |}
  | None =>
  match videoMessage msg with
  | Some caption =>
      {| conversation := conversation msg;
         extendedTextMessage := extendedTextMessage msg;
         imageMessage := imageMessage msg;
         videoMessage := Some (Some (Templates.recoveredCaption (JsString.or_else caption "")));
         audioMessage := audioMessage msg;
         documentMessage := documentMessage msg; stickerMessage := stickerMessage msg;
         protocolMessage := protocolMessage msg;
         ephemeralMessage := ephemeralMessage msg;
         reactionMessage := reactionMessage msg |}
  | None =>
  match documentMessage msg with
  | Some fileName =>
      {| conversation := conversation msg;
         extendedTextMessage := extendedTextMessage msg;
         imageMessage := imageMessage msg; videoMessage := videoMessage msg;
         audioMessage := audioMessage msg;
         documentMessage :=
           Some (Some (Templates.recoveredFileName (JsString.or_else fileName "file")));
         stickerMessage := stickerMessage msg;
         protocolMessage := protocolMessage msg;
         ephemeralMessage := ephemeralMessage msg;
         reactionMessage := reactionMessage msg |}
  | None => msg
  end end end.

(** [storedMessage.key?.f] *)
Definition keyField (f : MessageKey -> option string) (m : WebMessage) : option string :=
  match key m with
  | Some k => f k
  | None => None
  end.

(** Lines 224-333, for the entry [storedMessage] found under [id].  The
    copy [{ ...storedMessage.message }] shares its media objects with the
    stored entry, so the tag written at lines 297-303 is written to the
    entry as well. *)
Definition recover (Matrix : nat) (deletedMsgKey : MessageKey) (id : string)
    (storedMessage : StoredMessage) : M unit :=
  let sm := stored storedMessage in
  let senderJid :=
    JsString.or_else (JsString.or_opt (keyField participant sm) (keyField remoteJid sm))
      "Unknown" in
  let chatJid := JsString.or_else (keyField remoteJid sm) "Unknown" in
  let senderName := JsString.or_else (pushName sm) "Unknown" in
  fmt <- asks format ;;
  let time := fmt (timestamp storedMessage) in
  deleteTimestamp <- momentNow ;;
  let targetJid := JsString.or_else (remoteJid deletedMsgKey) chatJid in
  let chatType := chatTypeOf targetJid in
  let messageContent := fst (describe (message sm)) in
  let messageType := snd (describe (message sm)) in
  let reportMessage :=
    Templates.reportMessage time deleteTimestamp senderName senderJid targetJid
      chatType messageType (fromMe deletedMsgKey) messageContent in
  (if ownerConfigured cfg
   then await (SendMessage Matrix (BOT_OWNER cfg) (Text reportMessage) None)
   else ret tt) ;;
  try_catch
    (match message sm with
     | Some msg =>
         let resendMessage := tagRecovered msg in
         modify (fun w =>
                   set_messageStore
                     (JsMap.set id
                        {| stored := {| key := key sm; message := Some resendMessage;
                                        pushName := pushName sm |};
                           timestamp := timestamp storedMessage |}
                        (messageStore w)) w) ;;
         await (SendMessage Matrix targetJid (Forward resendMessage) None) ;;
         (if String.eqb messageType "Text" || String.eqb messageType "Extended Text"
          then await (SendMessage Matrix targetJid
                        (Text (Templates.recoveryInfo senderName time)) None)
          else ret tt)
     | None => ret tt
     end)
    (fun _ =>
       await (SendMessage Matrix targetJid
                (Text (Templates.fallbackMessage senderName time messageType
                         messageContent)) None)) ;;
  modify (fun w => set_messageStore (JsMap.delete id (messageStore w)) w).

Definition handleAntiDelete (mek : WebMessage) (Matrix : nat) : M unit :=
  try_catch
    (if negb (ANTI_DELETE cfg) then ret tt
     else
       match message mek with
       | None => ret tt
       | Some msg =>
           match protocolMessage msg with
           | None => ret tt
           | Some pm =>
               match protoType pm with
               | Some 0%Z =>
                   match protoKey pm with
                   | None => throw (typeError "id")
                   | Some deletedMsgKey =>
                       match msgId deletedMsgKey with
                       | None => ret tt
                       | Some id =>
                           found <- gets (fun w => JsMap.get id (messageStore w)) ;;
                           match found with
                           | Some storedMessage => recover Matrix deletedMsgKey id storedMessage
                           | None => ret tt
                           end
                       end
                   end
               | _ => ret tt
               end
           end
       end)
    (fun _ => ret tt).

(** ** Status engagement (lines 342-382) *)

(** [mek.key && mek.key.remoteJid === 'status@broadcast'] *)
Definition isStatus (mek : WebMessage) : bool :=
  match keyField remoteJid mek with
  | Some jid => String.eqb jid "status@broadcast"
  | None => false
  end.

Definition keysOf (mek : WebMessage) : list MessageKey :=
  match key mek with
  | Some k => [k]
  | None => []
  end.

Definition handleAutoViewStatus (mek : WebMessage) (Matrix : nat) : M unit :=
  try_catch
    (if negb (AUTO_VIEW_STATUS cfg) then ret tt
     else if isStatus mek then await (ReadMessages Matrix (keysOf mek))
     else ret tt)
    (fun _ => ret tt).

Definition handleAutoLikeStatus (mek : WebMessage) (Matrix : nat) : M unit :=
  try_catch
    (if negb (AUTO_LIKE_STATUS cfg) then ret tt
     else
       match key mek with
       | Some k =>
           if isStatus mek then
             r <- randomBelow 3000 ;;
             let delay := (r + 1000)%Z in
             sleep delay ;;
             i <- randomBelow (Z.of_nat (List.length Templates.LIKE_EMOJIS)) ;;
             let randomEmoji := nth (Z.to_nat i) Templates.LIKE_EMOJIS "" in
             await (SendMessage Matrix "status@broadcast" (React randomEmoji k) None)
           else ret tt
       | None => ret tt
       end)
    (fun _ => ret tt).

(** ** The [messages.upsert] handlers (lines 729-745 and 770-799) *)

(** The first registered handler, lines 729-741: it stops before the
    hand-off [await Handler(...)] of line 744 to the command router, which
    is outside the sources and cannot reach [messageStore]. *)
Definition upsertStore (messages : list WebMessage) : M unit :=
  match nth_error messages 0 with
  | Some mek =>
      match keyField msgId mek, message mek, key mek with
      | Some id, Some _, Some k =>
          if JsString.truthy id && negb (fromMe k) && ANTI_DELETE cfg then
            now <- dateNow ;;
            modify (fun w => set_messageStore (messageStore_put id mek now (messageStore w)) w)
          else ret tt
      | _, _, _ => ret tt
      end
  | None => ret tt
  end.

(** The third registered handler. *)
Definition upsertFeatures (Matrix : nat) (messages : list WebMessage) : M unit :=
  try_catch
    (match nth_error messages 0 with
     | None => throw (typeError "key")
     | Some mek =>
         match key mek with
         | None => throw (typeError "participant")
         | Some k =>
             let fromJid := JsString.or_opt (participant k) (remoteJid k) in
             match message mek with
             | None => ret tt
             | Some msg =>
                 if fromMe k then ret tt
                 else
                   match protocolMessage msg with
                   | Some _ => ret tt
                   | None =>
                       if ephemeralMessage msg || reactionMessage msg then ret tt
                       else
                         handleAntiDelete mek Matrix ;;
                         handleAutoViewStatus mek Matrix ;;
                         handleAutoLikeStatus mek Matrix ;;
                         (if isStatus mek && AUTO_STATUS_SEEN cfg then
                            await (ReadMessages Matrix [k]) ;;
                            (if AUTO_STATUS_REPLY cfg then
                               let customMessage :=
                                 JsString.or_else (STATUS_READ_MSG cfg)
                                   "✅ Auto Status Seen Bot By JAWAD-MD" in
                               await (SendMessage Matrix (JsString.or_else fromJid "undefined")
                                        (Text customMessage) (Some mek))
                             else ret tt)
                          else ret tt)
                   end
             end
         end
     end)
    (fun _ => ret tt).

(** ** The [connection.update] handler (lines 681-725) *)

Inductive ConnectionState :=
| connClose
| connOpen
| connConnecting.

(** [statusCode] is [lastDisconnect.error?.output?.statusCode]: [None]
    when a link of the chain is missing. *)
Record LastDisconnect := { statusCode : option Z }.

Record ConnectionUpdate := {
  connection : option ConnectionState;
  lastDisconnect : option LastDisconnect
}.

(** [DisconnectReason.loggedOut] of the protocol engine. *)
Definition loggedOut : Z := 401.

Definition isLoggedOut (ld : LastDisconnect) : bool :=
  match statusCode ld with
  | Some c => (c =? loggedOut)%Z
  | None => false
  end.

Definition connectionUpdate (Matrix : nat) (update : ConnectionUpdate) : M unit :=
  match connection update with
  | Some connClose =>
      match lastDisconnect update with
      | None => throw (typeError "error")
      | Some ld => if negb (isLoggedOut ld) then start else ret tt
      end
  | Some connOpen =>
      first <- gets initialConnection ;;
      if first then
        sleep 3000 ;;
        handleAutoJoinGroups cfg (MANDATORY_GROUPS cfg) Matrix ;;
        sendConnectMessage cfg (MANDATORY_GROUPS cfg) Matrix ;;
        modify (set_initialConnection false)
      else
        handleAutoJoinGroups cfg (MANDATORY_GROUPS cfg) Matrix ;;
        sendConnectMessage cfg (MANDATORY_GROUPS cfg) Matrix
  | Some connConnecting => ret tt
  | None => ret tt
  end.

(** ** Events *)

(** What the runtime is left with when a handler's promise settles. *)
Inductive completion :=
| Settled
| UnhandledRejection (e : exn).

(** An event emitter and a timer both drop the promise an [async]
    callback returns: nothing handles its rejection. *)
Definition fireAndForget {A} (h : M A) (E : env) (w : world) : completion * world :=
  match h E w with
  | (Ret _, w') => (Settled, w')
  | (Throw e, w') => (UnhandledRejection e, w')
  end.

(** The events the script's own code reacts to.  The second
    [messages.upsert] handler (auto-react, lines 756-768) and the handlers
    for calls and group-participant updates only forward to imported
    functions ([doReact], [Callupdate], [GroupUpdate]), as does the end of
    the first [messages.upsert] handler ([Handler]); none of them can reach
    the module-level state, and they are left out. *)
Inductive event :=
| ConnectionUpdateEvent (Matrix : nat) (update : ConnectionUpdate)
| MessagesUpsertEvent (Matrix : nat) (messages : list WebMessage)
| IntervalElapsed (timer : nat).

(** The callback of line 802 for the socket the timer captured. *)
Definition intervalCallback (Matrix : nat) : env -> world -> completion * world :=
  fireAndForget (handleAutoJoinGroups cfg (MANDATORY_GROUPS cfg) Matrix).

Definition dispatch (ev : event) (E : env) (w : world) : list completion * world :=
  if exited w then ([], w)
  else
    match ev with
    | ConnectionUpdateEvent Matrix update =>
        let (c, w1) := fireAndForget (connectionUpdate Matrix update) E w in
        ([c], w1)
    | MessagesUpsertEvent Matrix messages =>
        let (c1, w1) := fireAndForget (upsertStore messages) E w in
        let (c2, w2) := fireAndForget (upsertFeatures Matrix messages) E w1 in
        ([c1; c2], w2)
    | IntervalElapsed timer =>
        match nth_error (intervals w) timer with
        | Some Matrix =>
            let (c, w1) := intervalCallback Matrix E w in
            ([c], w1)
        | None => ([], w)
        end
    end.

Fixpoint run (evs : list event) (E : env) (w : world) : list completion * world :=
  match evs with
  | [] => ([], w)
  | ev :: rest =>
      let (cs, w1) := dispatch ev E w in
      let (cs', w2) := run rest E w1 in
      ((cs ++ cs')%list, w2)
  end.

(** One period of ten minutes: every registered interval fires once, in
    the order the timers were registered. *)
Definition period (E : env) (w : world) : list completion * world :=
  run (map IntervalElapsed (seq 0 (List.length (intervals w)))) E w.

End Handlers.

(* ================================================================== *)
(** * Vocabulary of the properties, and sample inputs *)
(* ================================================================== *)

Open Scope list_scope.

(** ** Base64 *)

(** A 6-bit value survives the trip through the alphabet, and its
    character is not the padding character. *)
Definition sextet_ok (n : N) : bool :=
  match Base64.unbase64 (Base64.base64_char n) with
  | Some m => (m =? n)%N && negb (Ascii.eqb (Base64.base64_char n) "="%char)
  | None => false
  end.

(** Every character of the text is below 128. *)
Fixpoint is_ascii (s : string) : bool :=
  match s with
  | EmptyString => true
  | String c r => (N_of_ascii c <? 128)%N && is_ascii r
  end.

(** ** Bootstrap and connection *)

Definition engineTrace (w : world) : list call :=
  [UseMultiFileAuthState; FetchLatestBaileysVersion; MakeWASocket (useQR w);
   SetInterval (sockets w) (10 * 60 * 1000)].

(** What a credential producer writes for the text [s]: the marker, then
    the base64 text of the gzip stream of the UTF-8 bytes of [s]. *)
Definition giftedCredential (gzip : list byte -> list byte) (s : string) : string :=
  ("Buddy~" ++ Base64.encode (gzip (list_byte_of_string s)))%string.

(** ** Sample collaborators and configuration *)

(** A stand-in compressor for concrete runs: the magic bytes, then the
    data as it is. *)
Definition sampleGzip (b : list byte) : list byte := x1f :: x8b :: b.

(** Collaborators that always succeed; the clock counts the calls made. *)
Definition sampleEnv : env :=
  {| answer := fun _ _ => Resolves;
     downloaded := fun _ => "{}";
     clock := fun history => Z.of_nat (List.length history);
     random_below := fun _ _ => 0%Z;
     gunzip := fun b =>
       match b with
       | x1f :: x8b :: r => Done r
       | _ => Failed {| exn_message := Some "incorrect header check" |}
       end;
     toString_utf8 := string_of_list_byte;
     format := fun _ => "2024-01-01 00:00:00";
     userId := fun _ => Some "254700000000:1@s.whatsapp.net" |}.

Definition sampleConfig (sessionId : option string) (owner : string) : config :=
  {| SESSION_ID := sessionId;
     ANTI_DELETE := true;
     AUTO_VIEW_STATUS := true;
     AUTO_LIKE_STATUS := true;
     AUTO_STATUS_SEEN := false;
     AUTO_STATUS_REPLY := false;
     STATUS_READ_MSG := None;
     AUTO_REACT := false;
     BOT_OWNER := owner;
     SEND_CONNECT_MESSAGE := true;
     AUTO_JOIN_GROUP_LINKS := [];
     PREFIX := "." |}.

(** ** Puts of the retention cache *)

(** A [put] of the cache: the handler stores [mek] under [id] at the time
    [Date.now()] returned. *)
Record Put := {
  put_id : string;
  put_mek : WebMessage;
  put_now : Z
}.

Definition entryOf (p : Put) : StoredMessage :=
  {| stored := put_mek p; timestamp := put_now p |}.

Definition applyPut (m : JsMap.t) (p : Put) : JsMap.t :=
  messageStore_put (put_id p) (put_mek p) (put_now p) m.

(** The cache after a sequence of puts, starting empty. *)
Definition runPuts (ps : list Put) : JsMap.t := fold_left applyPut ps [].

(** The most recent put of the identifier [k]. *)
Fixpoint lastPut (k : string) (ps : list Put) : option Put :=
  match ps with
  | [] => None
  | p :: r =>
      match lastPut k r with
      | Some q => Some q
      | None => if String.eqb (put_id p) k then Some p else None
      end
  end.

Definition distinctIds (ps : list Put) : list string :=
  nodup string_dec (map put_id ps).

(** The clock never ran backwards between two puts. *)
Fixpoint nondecreasing (l : list Z) : bool :=
  match l with
  | [] => true
  | a :: r =>
      match r with
      | [] => true
      | b :: _ => (a <=? b)%Z && nondecreasing r
      end
  end.

(** What holds of the cache after any sequence of puts. *)
Record CacheInv (ps : list Put) (m : JsMap.t) : Prop := {
  inv_nodup : NoDup (JsMap.keys m);
  inv_bound : JsMap.size m <= 1000;
  inv_latest : forall k e, JsMap.get k m = Some e ->
                 exists q, lastPut k ps = Some q /\ e = entryOf q;
  inv_full : forall k, In k (map put_id ps) -> ~ In k (JsMap.keys m) -> JsMap.size m = 1000
}.

(** The reading of the specification: whatever the timestamps of the
    puts, an identifier that is no longer retained was last put no later
    than every retained entry. *)
Definition retainsMostRecent (ps : list Put) : Prop :=
  forall k q k' e',
    lastPut k ps = Some q -> JsMap.get k (runPuts ps) = None ->
    JsMap.get k' (runPuts ps) = Some e' ->
    (put_now q <= timestamp e')%Z.

(** ** Sample messages and puts *)

Definition textMessage (body : string) : Message :=
  {| conversation := Some body; extendedTextMessage := None; imageMessage := None;
     videoMessage := None; audioMessage := false; documentMessage := None;
     stickerMessage := false; protocolMessage := None; ephemeralMessage := false;
     reactionMessage := false |}.

Definition inbound (id chat body : string) : WebMessage :=
  {| key := Some {| msgId := Some id; remoteJid := Some chat; participant := None;
                    fromMe := false |};
     message := Some (textMessage body);
     pushName := Some "Alice" |}.

(** The [i]-th sample put: identifier [m<i>], stored at time [at_ i]. *)
Definition samplePut (at_ : nat -> Z) (i : nat) : Put :=
  {| put_id := "m" ++ Templates.show_nat i;
     put_mek := inbound ("m" ++ Templates.show_nat i) "254711111111@s.whatsapp.net" "hi";
     put_now := at_ i |}.

Definition samplePuts (at_ : nat -> Z) (n : nat) : list Put :=
  map (samplePut at_) (seq 0 n).

(** ** Frames: what a computation leaves alone *)

(** The calls by which [start] reaches the protocol engine. *)
Definition isConnectCall (c : call) : bool :=
  match c with
  | UseMultiFileAuthState => true
  | FetchLatestBaileysVersion => true
  | MakeWASocket _ => true
  | _ => false
  end.

Definition connects (t : list call) : list call := filter isConnectCall t.

(** The calls of the credential bootstrap. *)
Definition isBootstrapCall (c : call) : bool :=
  match c with
  | ExistsSync => true
  | WriteFile _ => true
  | MegaDownload _ => true
  | _ => false
  end.

Definition bootstrapCalls (t : list call) : list call := filter isBootstrapCall t.

(** [steady w w']: between [w] and [w'] nothing connected, no timer was
    registered, the process did not exit, and the bootstrap was not run
    (no probe of the credential file, no write, no download; the file and
    the pairing flag are as they were). *)
Definition steady (w w' : world) : Prop :=
  credsFile w' = credsFile w /\ useQR w' = useQR w /\ sockets w' = sockets w /\
  intervals w' = intervals w /\ exited w' = exited w /\
  connects (trace w') = connects (trace w) /\
  bootstrapCalls (trace w') = bootstrapCalls (trace w).

(** [calm w w']: no socket, no timer, no exit, no connect call; the
    bootstrap may have run. *)
Definition calm (w w' : world) : Prop :=
  sockets w' = sockets w /\ intervals w' = intervals w /\ exited w' = exited w /\
  messageStore w' = messageStore w /\ initialConnection w' = initialConnection w /\
  connects (trace w') = connects (trace w).

(** A relation between the world before and after that is kept along
    sequencing, and by the calls that [allowed] admits. *)
Class Frame (R : world -> world -> Prop) (allowed : call -> bool) : Prop := {
  frame_refl : forall w, R w w;
  frame_trans : forall a b c, R a b -> R b c -> R a c;
  frame_note : forall c w, allowed c = true -> R w (set_trace (trace w ++ [c]) w)
}.

Definition Keeps (R : world -> world -> Prop) {A} (m : M A) : Prop :=
  forall E w, R w (snd (m E w)).

(** ** Connection events *)

Definition closeUpdate (ld : LastDisconnect) : ConnectionUpdate :=
  {| connection := Some connClose; lastDisconnect := Some ld |}.

(** A closure whose cause is anything but the logged-out reason. *)
Definition isRecoverableClose (ev : event) : bool :=
  match ev with
  | ConnectionUpdateEvent _ u =>
      match connection u, lastDisconnect u with
      | Some connClose, Some ld => negb (isLoggedOut ld)
      | _, _ => false
      end
  | _ => false
  end.


Definition loggedOutClose : LastDisconnect := {| statusCode := Some 401%Z |}.

(** Status 428: the connection was closed by the server. *)
Definition connectionClosed : LastDisconnect := {| statusCode := Some 428%Z |}.


(** ** Restart after a closure *)

(** The reading of the specification: the restart is the whole bootstrap
    sequence, that is, the closure is answered as [init] would. *)
Definition restartRerunsBootstrap
  (cfg : config) (E : env) (Matrix : nat) (ld : LastDisconnect) (w : world) : Prop :=
  connectionUpdate cfg Matrix (closeUpdate ld) E w = init cfg E w.

(** The remote archive is out of reach for the first download and
    reachable afterwards; everything else succeeds. *)
Definition archiveDownOnce : env :=
  {| answer := fun history c =>
       match c with
       | MegaDownload _ =>
           if existsb (fun c' => match c' with MegaDownload _ => true | _ => false end) history
           then Resolves
           else Rejects {| exn_message := Some "ENOTFOUND g.api.mega.co.nz" |}
       | _ => Resolves
       end;
     downloaded := downloaded sampleEnv;
     clock := clock sampleEnv;
     random_below := random_below sampleEnv;
     gunzip := gunzip sampleEnv;
     toString_utf8 := toString_utf8 sampleEnv;
     format := format sampleEnv;
     userId := userId sampleEnv |}.

Definition legacyConfig : config := sampleConfig (Some "XTR;Buddy~AbCdEfGh#Key123") "".

(** Status 408: the pairing code timed out. *)
Definition timedOut : LastDisconnect := {| statusCode := Some 408%Z |}.

Definition afterFailedLegacyBootstrap : world :=
  snd (init legacyConfig archiveDownOnce (initial_world None)).

(** ** Delete recovery *)

(** The sends of a trace: recipient and content, in order. *)
Definition sends (t : list call) : list (string * content) :=
  flat_map (fun c => match c with
                     | SendMessage _ jid body _ => [(jid, body)]
                     | _ => []
                     end) t.

Definition chatJid : string := "254711111111@s.whatsapp.net".

Definition ownerJid : string := "254700000000@s.whatsapp.net".

Definition ownerConfig : config := sampleConfig None ownerJid.

(** The retained message and the notice that it was deleted. *)
Definition helloWorld : WebMessage := inbound "M1" chatJid "Hello world".

Definition deletionNotice : WebMessage :=
  {| key := Some {| msgId := Some "D1"; remoteJid := Some chatJid; participant := None;
                    fromMe := false |};
     message :=
       Some {| conversation := None; extendedTextMessage := None; imageMessage := None;
               videoMessage := None; audioMessage := false; documentMessage := None;
               stickerMessage := false;
               protocolMessage :=
                 Some {| protoType := Some 0%Z;
                         protoKey := Some {| msgId := Some "M1"; remoteJid := Some chatJid;
                                             participant := None; fromMe := false |} |};
               ephemeralMessage := false; reactionMessage := false |};
     pushName := Some "Alice" |}.

(** Connected, with "Hello world" retained under [M1]. *)
Definition retaining (E : env) : world :=
  snd (run ownerConfig [MessagesUpsertEvent 0 [helloWorld]] E
         (snd (init ownerConfig E (initial_world (Some "{}"))))).

(** The report recipient cannot be reached; every other send succeeds. *)
Definition ownerUnreachable : env :=
  {| answer := fun _ c =>
       match c with
       | SendMessage _ jid _ _ =>
           if String.eqb jid ownerJid
           then Rejects {| exn_message := Some "not-authorized" |}
           else Resolves
       | _ => Resolves
       end;
     downloaded := downloaded sampleEnv;
     clock := clock sampleEnv;
     random_below := random_below sampleEnv;
     gunzip := gunzip sampleEnv;
     toString_utf8 := toString_utf8 sampleEnv;
     format := format sampleEnv;
     userId := userId sampleEnv |}.

(** ** Callers of the reconciler *)

(** A socket whose [sendMessage] throws before it returns a promise. *)
Definition sendThrows : env :=
  {| answer := fun _ c =>
       match c with
       | SendMessage _ _ _ _ => ThrowsSync {| exn_message := Some "Connection Closed" |}
       | _ => Resolves
       end;
     downloaded := downloaded sampleEnv;
     clock := clock sampleEnv;
     random_below := random_below sampleEnv;
     gunzip := gunzip sampleEnv;
     toString_utf8 := toString_utf8 sampleEnv;
     format := format sampleEnv;
     userId := userId sampleEnv |}.

Definition openUpdate : ConnectionUpdate :=
  {| connection := Some connOpen; lastDisconnect := None |}.

(** ** Batches of inbound messages *)

(** [within ids w w']: the cache of [w'] holds no identifier beyond those
    of [w] and [ids]. *)
Definition within (ids : list string) (w w' : world) : Prop :=
  incl (JsMap.keys (messageStore w')) (ids ++ JsMap.keys (messageStore w)).

(** ** Group reconciliation *)

(** The code handed to [groupAcceptInvite] for a target (lines 390-393). *)
Definition acceptCode (g : Group) : string :=
  if JsString.includes (inviteCode g) "chat.whatsapp.com/"
  then nth 1 (JsString.split (inviteCode g) "chat.whatsapp.com/") ""
  else inviteCode g.

(** The invitations of a trace: socket and code, in order. *)
Definition invites (t : list call) : list (nat * string) :=
  flat_map (fun c => match c with
                     | GroupAcceptInvite sock code => [(sock, code)]
                     | _ => []
                     end) t.

Definition isAlready (o : Outcome) : bool :=
  match o_alreadyInGroup o with
  | Some true => true
  | _ => false
  end.

Definition countJoined (rs : list Outcome) : nat :=
  List.length (filter (fun o => o_success o && negb (isAlready o)) rs).

Definition countAlready (rs : list Outcome) : nat := List.length (filter isAlready rs).

Definition countFailed (rs : list Outcome) : nat :=
  List.length (filter (fun o => negb (o_success o)) rs).

(** The failure classes of the report: the two labels the classifier
    writes, and everything else. *)
Inductive failureClass :=
| invalidOrExpired
| rateLimited
| other.

Definition classOf (o : Outcome) : option failureClass :=
  if o_success o then None
  else
    match o_error o with
    | Some label =>
        if String.eqb label "Invalid or expired invite link" then Some invalidOrExpired
        else if String.eqb label "Rate limit" then Some rateLimited
        else Some other
    | None => Some other
    end.

(** The entry one turn of the loop appends, read off the way the
    invitation ended. *)
Definition turnOutcome (g : Group) (a : outcome) : Outcome :=
  let thrown (e : exn) :=
    match exn_message e with
    | None =>
        {| group := name g; o_success := false;
           o_error := exn_message (typeError "includes"); o_alreadyInGroup := None |}
    | Some message =>
        if JsString.includes message "already" then
          {| group := name g; o_success := true; o_error := None;
             o_alreadyInGroup := Some true |}
        else if JsString.includes message "invite" || JsString.includes message "invalid" then
          {| group := name g; o_success := false;
             o_error := Some "Invalid or expired invite link";
             o_alreadyInGroup := Some false |}
        else if JsString.includes message "rate" || JsString.includes message "limit" then
          {| group := name g; o_success := false; o_error := Some "Rate limit";
             o_alreadyInGroup := Some false |}
        else
          {| group := name g; o_success := false; o_error := Some message;
             o_alreadyInGroup := Some false |}
    end in
  match a with
  | Resolves =>
      {| group := name g; o_success := true; o_error := None; o_alreadyInGroup := Some false |}
  | Rejects e => thrown e
  | ThrowsSync e => thrown e
  end.

(** The counters after an entry is appended. *)
Definition addOutcome (c : Counters) (o : Outcome) : Counters :=
  {| joinedCount :=
       if o_success o && negb (isAlready o) then S (joinedCount c) else joinedCount c;
     alreadyInCount := if isAlready o then S (alreadyInCount c) else alreadyInCount c;
     failedCount := if o_success o then failedCount c else S (failedCount c);
     c_results := c_results c ++ [o] |}.

(** How the entries of a run relate to its targets: each entry is the
    outcome of the invitation for its target, at some point of the run. *)
Definition outcomeOf (Matrix : nat) (E : env) (g : Group) (o : Outcome) : Prop :=
  exists history, o = turnOutcome g (answer E history (GroupAcceptInvite Matrix (acceptCode g))).


(** ** Five targets *)

Definition fiveConfig : config :=
  {| SESSION_ID := None; ANTI_DELETE := true; AUTO_VIEW_STATUS := true;
     AUTO_LIKE_STATUS := true; AUTO_STATUS_SEEN := false; AUTO_STATUS_REPLY := false;
     STATUS_READ_MSG := None; AUTO_REACT := false; BOT_OWNER := ownerJid;
     SEND_CONNECT_MESSAGE := true;
     AUTO_JOIN_GROUP_LINKS :=
       ["https://chat.whatsapp.com/AAAAaaaa1111"; "https://chat.whatsapp.com/BBBBbbbb2222"];
     PREFIX := "." |}.


(** Invitations answered per code; everything else succeeds. *)
Definition invitesAnswered (f : string -> outcome) : env :=
  {| answer := fun _ c =>
       match c with
       | GroupAcceptInvite _ code => f code
       | _ => Resolves
       end;
     downloaded := downloaded sampleEnv;
     clock := clock sampleEnv;
     random_below := random_below sampleEnv;
     gunzip := gunzip sampleEnv;
     toString_utf8 := toString_utf8 sampleEnv;
     format := format sampleEnv;
     userId := userId sampleEnv |}.

(** The third invitation throws "already-exists". *)
Definition alreadyAtThree : env :=
  invitesAnswered (fun code =>
    if String.eqb code "F4wbivBj6Qg1ZPDAi9GAag"
    then Rejects {| exn_message := Some "already-exists" |}
    else Resolves).

(** The second target is already joined, the third throws an error the
    classifier does not know, the fourth is rate limited. *)
Definition mixedAnswers : env :=
  invitesAnswered (fun code =>
    if String.eqb code "Dn0uPVabXugIro9BgmGilM"
    then Rejects {| exn_message := Some "already-exists" |}
    else if String.eqb code "F4wbivBj6Qg1ZPDAi9GAag"
    then Rejects {| exn_message := Some "bad-request" |}
    else if String.eqb code "AAAAaaaa1111"
    then Rejects {| exn_message := Some "rate-overlimit" |}
    else Resolves).

(** The second target is already joined; what the third invitation
    throws carries no message text, so the join attempt itself throws. *)
Definition thirdThrows : env :=
  invitesAnswered (fun code =>
    if String.eqb code "Dn0uPVabXugIro9BgmGilM"
    then Rejects {| exn_message := Some "already-exists" |}
    else if String.eqb code "F4wbivBj6Qg1ZPDAi9GAag"
    then Rejects {| exn_message := None |}
    else Resolves).

Definition connected (cfg : config) (E : env) : world :=
  snd (init cfg E (initial_world (Some "{}"))).

(** ** The engine, as [start] finds it *)

(** The three steps by which [start] reaches the protocol engine all
    succeed, each asked after the one before it. *)
Definition engineUp (E : env) (w : world) : bool :=
  match answer E (trace w) UseMultiFileAuthState with
  | Resolves =>
      match answer E (trace w ++ [UseMultiFileAuthState]) FetchLatestBaileysVersion with
      | Resolves =>
          match answer E ((trace w ++ [UseMultiFileAuthState]) ++ [FetchLatestBaileysVersion])
                  (MakeWASocket (useQR w)) with
          | Resolves => true
          | _ => false
          end
      | _ => false
      end
  | _ => false
  end.

(** The bytes [loadGiftedSession] decodes from a session identifier. *)
Definition giftedBytes (sid : string) : list byte :=
  Base64.decode (JsString.substring_from (String.length "Buddy~") sid).

(** The address [downloadLegacySession] downloads for the part of the
    session identifier after the marker. *)
Definition legacyUrl (sessdata : string) : string :=
  ("https://mega.nz/file/" ++ nth 0 (JsString.split sessdata "#") "" ++ "#"
   ++ nth 1 (JsString.split sessdata "#") "")%string.

(** ** The cache across events *)

(** A well-formed cache: no identifier twice, at most 1000 entries. *)
Definition bounded (m : JsMap.t) : Prop :=
  NoDup (JsMap.keys m) /\ JsMap.size m <= 1000.

(** [sameStore w w']: the cache is as it was. *)
Definition sameStore (w w' : world) : Prop := messageStore w' = messageStore w.

(** [nodupKept w w']: if no identifier occurred twice, none does now. *)
Definition nodupKept (w w' : world) : Prop :=
  NoDup (JsMap.keys (messageStore w)) -> NoDup (JsMap.keys (messageStore w')).

(** The entry [messageStore_put] writes. *)
Definition entryAt (mek : WebMessage) (now : Z) : StoredMessage :=
  {| stored := mek; timestamp := now |}.

(** ** Delete recovery, as its callers see it *)

(** The identifier a deletion notice refers to (lines 220-222): the
    payload is a protocol message of type 0 whose key has an identifier. *)
Definition referencedId (mek : WebMessage) : option string :=
  match message mek with
  | Some msg =>
      match protocolMessage msg with
      | Some pm =>
          match protoType pm with
          | Some 0%Z =>
              match protoKey pm with
              | Some deletedMsgKey => msgId deletedMsgKey
              | None => None
              end
          | _ => None
          end
      | None => None
      end
  | None => None
  end.

(** The chat a recovered message is resent to (line 232). *)
Definition recoveryTarget (deletedMsgKey : MessageKey) (sm : StoredMessage) : string :=
  JsString.or_else (remoteJid deletedMsgKey)
    (JsString.or_else (keyField remoteJid (stored sm)) "Unknown").


(** The text sent to the chat when the resend fails (lines 324-328). *)
Definition fallbackText (E : env) (sm : StoredMessage) : string :=
  Templates.fallbackMessage (JsString.or_else (pushName (stored sm)) "Unknown")
    (format E (timestamp sm))
    (snd (describe (message (stored sm)))) (fst (describe (message (stored sm)))).

(** A retained picture with a caption, and a notice that it was deleted. *)
Definition picture : WebMessage :=
  {| key := Some {| msgId := Some "P1"; remoteJid := Some chatJid; participant := None;
                    fromMe := false |};
     message :=
       Some {| conversation := None; extendedTextMessage := None;
               imageMessage := Some (Some "holiday"); videoMessage := None;
               audioMessage := false; documentMessage := None; stickerMessage := false;
               protocolMessage := None; ephemeralMessage := false;
               reactionMessage := false |};
     pushName := Some "Alice" |}.

Definition pictureKey : MessageKey :=
  {| msgId := Some "P1"; remoteJid := Some chatJid; participant := None; fromMe := false |}.

(** The chat refuses forwarded payloads and accepts everything else. *)
Definition forwardRefused : env :=
  {| answer := fun _ c =>
       match c with
       | SendMessage _ _ (Forward _) _ => Rejects {| exn_message := Some "media expired" |}
       | _ => Resolves
       end;
     downloaded := downloaded sampleEnv;
     clock := clock sampleEnv;
     random_below := random_below sampleEnv;
     gunzip := gunzip sampleEnv;
     toString_utf8 := toString_utf8 sampleEnv;
     format := format sampleEnv;
     userId := userId sampleEnv |}.

(** A world whose cache holds [m]; nothing else has happened. *)
Definition holding (m : JsMap.t) : world := set_messageStore m (initial_world None).

(** ** Status updates *)

Definition statusUpdate : WebMessage :=
  {| key := Some {| msgId := Some "S1"; remoteJid := Some "status@broadcast";
                    participant := Some chatJid; fromMe := false |};
     message := Some (textMessage "my status"); pushName := Some "Bob" |}.

(** ** Reconciliation, as its callers see it *)

Definition isInviteCall (c : call) : bool :=
  match c with
  | GroupAcceptInvite _ _ => true
  | _ => false
  end.

(** [noInvite w w']: no invitation was accepted between [w] and [w']. *)
Definition noInvite (w w' : world) : Prop := invites (trace w') = invites (trace w).

(** [sameFlag w w']: the first-connection flag is as it was. *)
Definition sameFlag (w w' : world) : Prop := initialConnection w' = initialConnection w.

(** The code [joinGroupByInviteCode] hands to the engine for its argument
    (lines 390-393). *)
Definition codeOf (inviteCode : string) : string :=
  if JsString.includes inviteCode "chat.whatsapp.com/"
  then nth 1 (JsString.split inviteCode "chat.whatsapp.com/") ""
  else inviteCode.

(** Whoever the connect notice may be sent to (lines 584-595). *)
Definition noticeRecipient (cfg : config) (E : env) (Matrix : nat) (jid : string) : Prop :=
  (ownerConfigured cfg = true /\ jid = BOT_OWNER cfg) \/
  (ownerConfigured cfg = false /\ userId E Matrix = Some jid).

(** A message the agent sent itself. *)
Definition ownMessage : WebMessage :=
  {| key := Some {| msgId := Some "O1"; remoteJid := Some chatJid; participant := None;
                    fromMe := true |};
     message := Some (textMessage "on my way"); pushName := None |}.

(** The links of the configuration that name an invitation. *)
Definition inviteLinks (cfg : config) : list string :=
  filter (fun link => JsString.includes link "chat.whatsapp.com/") (AUTO_JOIN_GROUP_LINKS cfg).

(** The notice that follows a recovered text (lines 311-314). *)
Definition recoveryNotice (E : env) (sm : StoredMessage) : string :=
  Templates.recoveryInfo (JsString.or_else (pushName (stored sm)) "Unknown")
    (format E (timestamp sm)).

(** The kinds the notice is sent for (line 310). *)
Definition isTextKind (m : option Message) : bool :=
  String.eqb (snd (describe m)) "Text" || String.eqb (snd (describe m)) "Extended Text".

(** The configuration with delete recovery switched off. *)
Definition retentionOff : config :=
  {| SESSION_ID := None; ANTI_DELETE := false; AUTO_VIEW_STATUS := true;
     AUTO_LIKE_STATUS := true; AUTO_STATUS_SEEN := true; AUTO_STATUS_REPLY := true;
     STATUS_READ_MSG := None; AUTO_REACT := false; BOT_OWNER := ownerJid;
     SEND_CONNECT_MESSAGE := true; AUTO_JOIN_GROUP_LINKS := []; PREFIX := "." |}.

(* ================================================================== *)
(** * Properties *)
(* ================================================================== *)

(** ** Strings *)

Example split_invite_link :
  JsString.split "https://chat.whatsapp.com/DdhFa7LbzeTKRG9hSHkzoW" "chat.whatsapp.com/"
  = ["https://"; "DdhFa7LbzeTKRG9hSHkzoW"].
Proof. reflexivity. Qed.

Example split_legacy_session :
  JsString.split "Buddy~abc#key" "Buddy~" = [""; "abc#key"].
Proof. reflexivity. Qed.

Example endsWith_group : JsString.endsWith "12345-678@g.us" "@g.us" = true.
Proof. reflexivity. Qed.

Example split_runs :
  JsString.split "a,b,,c" "," = ["a"; "b"; ""; "c"] /\
  JsString.split "aaa" "aa" = [""; "a"] /\
  JsString.split "ab," "," = ["ab"; ""] /\
  JsString.split "no separator" "#" = ["no separator"].
Proof. repeat split. Qed.

Example includes_runs :
  JsString.includes "not-authorized: already-exists" "already" = true /\
  JsString.includes "bad-request" "rate" = false /\
  JsString.includes "owner@s.whatsapp.net" "@" = true /\
  JsString.includes "" "" = true.
Proof. repeat split. Qed.

Lemma prefix_append (p r : string) : String.prefix p (p ++ r)%string = true.
Proof.
  induction p as [|c p IH]; simpl.
  - now destruct r.
  - destruct (ascii_dec c c) as [_|Hne]; [exact IH | now elim Hne].
Qed.

Lemma substring_all (s : string) : String.substring 0 (String.length s) s = s.
Proof. induction s as [|c s IH]; simpl; [reflexivity | now rewrite IH]. Qed.

Lemma substring_from_append (p r : string) :
  JsString.substring_from (String.length p) (p ++ r)%string = r.
Proof.
  unfold JsString.substring_from.
  induction p as [|c p IH]; simpl.
  - rewrite Nat.sub_0_r. apply substring_all.
  - exact IH.
Qed.

(** ** Base64 *)

Module Base64Facts.
Import Base64.
Local Open Scope N_scope.

Lemma sextet_table : forallb sextet_ok (map N.of_nat (seq 0 64)) = true.
Proof. vm_compute. reflexivity. Qed.

Lemma sextet_ok_lt (n : N) : n < 64 -> sextet_ok n = true.
Proof.
  intros Hn.
  apply (proj1 (forallb_forall sextet_ok _) sextet_table).
  apply in_map_iff. exists (N.to_nat n). split.
  - apply N2Nat.id.
  - apply in_seq. lia.
Qed.

Lemma sextets_char (n : N) (r : string) :
  n < 64 -> sextets (String (base64_char n) r) = n :: sextets r.
Proof.
  intros Hn. pose proof (sextet_ok_lt Hn) as Hok. unfold sextet_ok in Hok.
  simpl. destruct (unbase64 (base64_char n)) as [m|]; [|discriminate].
  apply andb_true_iff in Hok. destruct Hok as [Hm Hne].
  apply N.eqb_eq in Hm. subst m.
  destruct (Ascii.eqb (base64_char n) "="); [discriminate|reflexivity].
Qed.

Lemma byte_of_to_N (b : byte) : byte_of_N (Byte.to_N b) = b.
Proof.
  unfold byte_of_N. pose proof (Byte.to_N_bounded b).
  rewrite N.mod_small by lia. now rewrite Byte.of_to_N.
Qed.

Ltac div_mod := zify; Z.to_euclidean_division_equations; lia.

Lemma sextet_bounds (n1 n2 : N) :
  n1 <= 255 -> n2 <= 255 ->
  n1 / 4 < 64 /\ (n1 mod 4) * 16 + n2 / 16 < 64 /\ (n1 mod 16) * 4 + n2 / 64 < 64
  /\ n1 mod 64 < 64 /\ (n1 mod 4) * 16 < 64 /\ (n1 mod 16) * 4 < 64.
Proof. intros; repeat split; div_mod. Qed.

Lemma regroup_first (n1 n2 : N) :
  n2 <= 255 -> (n1 / 4) * 4 + ((n1 mod 4) * 16 + n2 / 16) / 16 = n1.
Proof. intros. div_mod. Qed.

Lemma regroup_first_last (n1 : N) :
  (n1 / 4) * 4 + ((n1 mod 4) * 16) / 16 = n1.
Proof. div_mod. Qed.

Lemma regroup_second (n1 n2 n3 : N) :
  n2 <= 255 -> n3 <= 255 ->
  (((n1 mod 4) * 16 + n2 / 16) mod 16) * 16 + ((n2 mod 16) * 4 + n3 / 64) / 4 = n2.
Proof. intros. div_mod. Qed.

Lemma regroup_second_last (n1 n2 : N) :
  n2 <= 255 ->
  (((n1 mod 4) * 16 + n2 / 16) mod 16) * 16 + ((n2 mod 16) * 4) / 4 = n2.
Proof. intros. div_mod. Qed.

Lemma regroup_third (n2 n3 : N) :
  n3 <= 255 ->
  (((n2 mod 16) * 4 + n3 / 64) mod 4) * 64 + n3 mod 64 = n3.
Proof. intros. div_mod. Qed.

(** Lists are taken three bytes at a time. *)
Lemma list_ind3 (A : Type) (P : list A -> Prop) :
  P [] -> (forall a, P [a]) -> (forall a b, P [a; b]) ->
  (forall a b c l, P l -> P (a :: b :: c :: l)) ->
  forall l, P l.
Proof.
  intros H0 H1 H2 H3.
  fix IH 1.
  intros [|a [|b [|c l]]]; [exact H0 | apply H1 | apply H2 | apply H3, IH].
Qed.

(** Regrouping the sextets the encoder wrote gives the bytes back. *)
Lemma regroup_encode (bs : list byte) : decode_groups (sextets (encode bs)) = bs.
Proof.
  induction bs as [|b1|b1 b2|b1 b2 b3 r IH] using list_ind3.
  - reflexivity.
  - pose proof (Byte.to_N_bounded b1) as B1.
    destruct (sextet_bounds B1 B1) as (S1 & _ & _ & _ & S2 & _).
    cbn [encode]. rewrite !sextets_char by assumption.
    cbn [sextets Ascii.eqb Bool.eqb decode_groups]. 
    now rewrite regroup_first_last, byte_of_to_N.
  - pose proof (Byte.to_N_bounded b1) as B1.
    pose proof (Byte.to_N_bounded b2) as B2.
    destruct (sextet_bounds B1 B2) as (S1 & S2 & _).
    destruct (sextet_bounds B2 B2) as (_ & _ & _ & _ & _ & S3).
    cbn [encode]. rewrite !sextets_char by assumption.
    cbn [sextets Ascii.eqb Bool.eqb decode_groups].
    now rewrite regroup_first, regroup_second_last, !byte_of_to_N by assumption.
  - pose proof (Byte.to_N_bounded b1) as B1.
    pose proof (Byte.to_N_bounded b2) as B2.
    pose proof (Byte.to_N_bounded b3) as B3.
    destruct (sextet_bounds B1 B2) as (S1 & S2 & _).
    destruct (sextet_bounds B2 B3) as (_ & _ & S3 & _).
    destruct (sextet_bounds B3 B3) as (_ & _ & _ & S4 & _).
    cbn [encode]. rewrite !sextets_char by assumption.
    cbn [decode_groups]. rewrite IH.
    now rewrite regroup_first, regroup_second, regroup_third, !byte_of_to_N by assumption.
Qed.

(** A text of ASCII characters is its own sequence of low bytes. *)
Lemma low_bytes_ascii (s : string) : is_ascii s = true -> low_bytes s = s.
Proof.
  unfold low_bytes.
  induction s as [|c r IH]; simpl; [reflexivity|].
  intros H. apply andb_true_iff in H. destruct H as [Hc Hr].
  unfold lead. rewrite Hc. unfold low_bytes_of.
  apply N.ltb_lt in Hc.
  replace (N_of_ascii c <? 65536) with true by (symmetry; apply N.ltb_lt; lia).
  rewrite N.mod_small by lia. rewrite ascii_N_embedding. simpl. now rewrite IH.
Qed.

Lemma base64_char_ascii (n : N) : (N_of_ascii (base64_char n) <? 128) = true.
Proof.
  apply N.ltb_lt. unfold base64_char.
  destruct (N.ltb_spec n 26); [rewrite N_ascii_embedding; lia|].
  destruct (N.ltb_spec n 52); [rewrite N_ascii_embedding; lia|].
  destruct (N.ltb_spec n 62); [rewrite N_ascii_embedding; lia|].
  destruct (n =? 62); simpl; lia.
Qed.

(** The encoder writes ASCII only. *)
Lemma encode_ascii (bs : list byte) : is_ascii (encode bs) = true.
Proof.
  induction bs as [|b1|b1 b2|b1 b2 b3 r IH] using list_ind3;
    cbn [encode is_ascii]; rewrite ?base64_char_ascii, ?IH; reflexivity.
Qed.

(** Decoding what the encoder wrote gives the bytes back. *)
Lemma decode_encode (bs : list byte) : decode (encode bs) = bs.
Proof.
  unfold decode. rewrite low_bytes_ascii by apply encode_ascii. apply regroup_encode.
Qed.

End Base64Facts.

Example base64_encode_Man : Base64.encode [x4d; x61; x6e] = "TWFu".
Proof. reflexivity. Qed.

Example base64_decode_padded : Base64.decode "TWE=" = [x4d; x61].
Proof. reflexivity. Qed.

(** The credential of the specification's example, as [gzip -n] writes it:
    the decoder finds the two magic bytes. *)
Example base64_decode_gzip_magic :
  firstn 2 (Base64.decode "H4sIAAAAAAAAAwt2DQ729PdzcQxxBABL4EIQCwAAAA==") = [x1f; x8b].
Proof. reflexivity. Qed.

(** A character beyond Latin-1 is read by its low byte: U+0148 reads as
    "H" (0x48), so a text that starts with it decodes like the one that
    starts with "H"; U+00E9 reads as the byte 0xE9, outside the table; a
    character beyond U+FFFF reads as the low bytes of its two surrogates,
    here "=" (0x3D), which ends the input, and 0x00. *)
Example base64_decode_low_bytes :
  Base64.low_bytes "ň4sI" = "H4sI" /\
  Base64.decode "ň4sIAAAAAAAAAwt2DQ729PdzcQxxBABL4EIQCwAAAA=="
  = Base64.decode "H4sIAAAAAAAAAwt2DQ729PdzcQxxBABL4EIQCwAAAA==" /\
  Base64.low_bytes "é" = String (ascii_of_N 233) "" /\
  Base64.low_bytes "😀TWE" = String (ascii_of_N 61) (String (ascii_of_N 0) "TWE") /\
  Base64.decode "😀TWE" = [].
Proof. vm_compute. repeat split. Qed.

(** ** Connecting: what [start] changes *)

(** [start] either registers one more socket and one more interval, or
    ends the process; it never touches the credential file, the flags or
    the store. *)
Lemma start_cases (E : env) (w : world) :
  fst (start E w) = Ret tt /\
  credsFile (snd (start E w)) = credsFile w /\
  useQR (snd (start E w)) = useQR w /\
  initialConnection (snd (start E w)) = initialConnection w /\
  messageStore (snd (start E w)) = messageStore w /\
  ((exited (snd (start E w)) = exited w /\
    sockets (snd (start E w)) = S (sockets w) /\
    intervals (snd (start E w)) = intervals w ++ [sockets w] /\
    trace (snd (start E w)) = trace w ++ engineTrace w)
   \/
   (exited (snd (start E w)) = true /\
    sockets (snd (start E w)) = sockets w /\
    intervals (snd (start E w)) = intervals w /\
    exists calls, trace (snd (start E w)) = trace w ++ calls ++ [ProcessExit 1])).
Proof.
  unfold start, try_catch, bind, await, makeWASocket, setInterval, processExit,
    perform, gets, modify, ret, throw, bind.
  cbn.
  destruct (answer E (trace w) UseMultiFileAuthState); cbn;
    try (repeat split; right; repeat split;
         exists [UseMultiFileAuthState]; now rewrite <- app_assoc).
  destruct (answer E (trace w ++ [UseMultiFileAuthState]) FetchLatestBaileysVersion); cbn;
    try (repeat split; right; repeat split;
         exists [UseMultiFileAuthState; FetchLatestBaileysVersion];
         now rewrite <- !app_assoc).
  destruct (answer E ((trace w ++ [UseMultiFileAuthState]) ++ [FetchLatestBaileysVersion])
              (MakeWASocket (useQR w))); cbn;
    try (repeat split; right; repeat split;
         exists [UseMultiFileAuthState; FetchLatestBaileysVersion; MakeWASocket (useQR w)];
         now rewrite <- !app_assoc).
  repeat split. left. repeat split.
  unfold engineTrace. now rewrite <- !app_assoc.
Qed.

(** ** The compressed inline credential (step 2 of the bootstrap) *)

Section GiftedSession.

Variable gzip : list byte -> list byte.
Variable E : env.

(** zlib decompresses what gzip compressed, and a gzip stream starts with
    the magic bytes [1f 8b] (RFC 1952). *)
Hypothesis gunzip_gzip : forall b, gunzip E (gzip b) = Done b.
Hypothesis gzip_magic : forall b, exists r, gzip b = x1f :: x8b :: r.

Variable cfg : config.
Variable s : string.

Hypothesis session_id : SESSION_ID cfg = Some (giftedCredential gzip s).

(** [s] is text: decoding its UTF-8 bytes gives it back. *)
Hypothesis text : toString_utf8 E (list_byte_of_string s) = s.

Lemma loadGiftedSession_writes (w : world) :
  answer E (trace w) (WriteFile s) = Resolves ->
  loadGiftedSession cfg E w =
  (Ret true, set_credsFile (Some s) (set_trace (trace w ++ [WriteFile s]) w)).
Proof.
  intros Hwrite.
  unfold loadGiftedSession. rewrite session_id.
  unfold giftedCredential, JsString.startsWith.
  change (JsString.truthy ("Buddy~" ++ Base64.encode (gzip (list_byte_of_string s)))%string)
    with true.
  cbv beta iota. change (negb true) with false. cbv iota.
  rewrite prefix_append, substring_from_append, Base64Facts.decode_encode.
  pose proof (gunzip_gzip (list_byte_of_string s)) as Hunzip.
  destruct (gzip_magic (list_byte_of_string s)) as [r Hmagic].
  rewrite Hmagic in *.
  unfold try_catch, bind, asks, writeFile, await, perform, bind, modify, ret.
  cbn. rewrite Hunzip. cbn. rewrite text, Hwrite. reflexivity.
Qed.

Lemma init_takes_step2 (w : world) :
  credsFile w = None ->
  answer E (trace w ++ [ExistsSync]) (WriteFile s) = Resolves ->
  init cfg E w =
  start E (set_credsFile (Some s)
             (set_trace ((trace w ++ [ExistsSync]) ++ [WriteFile s]) w)).
Proof.
  intros Hnone Hwrite.
  unfold init, bind at 1. unfold existsSync. rewrite Hnone. cbv beta iota.
  rewrite session_id.
  unfold JsString.truthy_opt, JsString.or_else, giftedCredential, JsString.startsWith.
  change (JsString.truthy ("Buddy~" ++ Base64.encode (gzip (list_byte_of_string s)))%string)
    with true.
  cbv iota. rewrite prefix_append. cbv beta iota. unfold andb.
  unfold bind.
  rewrite loadGiftedSession_writes by exact Hwrite.
  reflexivity.
Qed.

End GiftedSession.

(** C6.  For every text [s], running the bootstrap on the credential
    ["Buddy~" + base64(gzip(s))] with no credential file on disk takes
    step 2: [loadGiftedSession] reports success and the credential file
    then holds exactly [s]; after [init] the file still holds [s] and the
    pairing fallback was not selected.  The collaborators are assumed to do
    their part: zlib inverts gzip, a gzip stream starts with the magic
    bytes, [s] survives UTF-8 decoding, and the file write succeeds. *)
Theorem bootstrap_gifted_credential
  (gzip : list byte -> list byte) (E : env) (cfg : config) (s : string) (w : world) :
  (forall b, gunzip E (gzip b) = Done b) ->
  (forall b, exists r, gzip b = x1f :: x8b :: r) ->
  toString_utf8 E (list_byte_of_string s) = s ->
  SESSION_ID cfg = Some (giftedCredential gzip s) ->
  credsFile w = None ->
  answer E (trace w ++ [ExistsSync]) (WriteFile s) = Resolves ->
  fst (loadGiftedSession cfg E (set_trace (trace w ++ [ExistsSync]) w)) = Ret true /\
  credsFile (snd (loadGiftedSession cfg E (set_trace (trace w ++ [ExistsSync]) w))) = Some s /\
  credsFile (snd (init cfg E w)) = Some s /\
  useQR (snd (init cfg E w)) = useQR w.
Proof.
  intros Hunzip Hmagic Htext Hsid Hnone Hwrite.
  rewrite (@loadGiftedSession_writes gzip E Hunzip Hmagic cfg s Hsid Htext
             (set_trace (trace w ++ [ExistsSync]) w) Hwrite).
  rewrite (@init_takes_step2 gzip E Hunzip Hmagic cfg s Hsid Htext w Hnone Hwrite).
  repeat split.
  - now destruct (start_cases E
      (set_credsFile (Some s) (set_trace ((trace w ++ [ExistsSync]) ++ [WriteFile s]) w)))
      as (_ & -> & _).
  - now destruct (start_cases E
      (set_credsFile (Some s) (set_trace ((trace w ++ [ExistsSync]) ++ [WriteFile s]) w)))
      as (_ & _ & -> & _).
Qed.

(** *** Concrete runs *)

Lemma bootstrap_gifted_credential_witness :
  let cfg := sampleConfig (Some (giftedCredential sampleGzip "SESSIONDATA")) "" in
  let w := initial_world None in
  fst (loadGiftedSession cfg sampleEnv (set_trace (trace w ++ [ExistsSync]) w)) = Ret true /\
  credsFile (snd (loadGiftedSession cfg sampleEnv (set_trace (trace w ++ [ExistsSync]) w)))
    = Some "SESSIONDATA" /\
  credsFile (snd (init cfg sampleEnv w)) = Some "SESSIONDATA" /\
  useQR (snd (init cfg sampleEnv w)) = useQR w.
Proof.
  intros cfg w.
  apply (@bootstrap_gifted_credential sampleGzip sampleEnv cfg "SESSIONDATA" w).
  - intros b. reflexivity.
  - intros b. exists b. reflexivity.
  - reflexivity.
  - reflexivity.
  - reflexivity.
  - reflexivity.
Defined.

Example init_gifted_run :
  let cfg := sampleConfig (Some (giftedCredential sampleGzip "SESSIONDATA")) "" in
  let w := snd (init cfg sampleEnv (initial_world None)) in
  credsFile w = Some "SESSIONDATA" /\ useQR w = false /\ sockets w = 1%nat /\
  intervals w = [0%nat] /\ exited w = false /\
  trace w = [ExistsSync; WriteFile "SESSIONDATA"; UseMultiFileAuthState;
             FetchLatestBaileysVersion; MakeWASocket false;
             SetInterval 0 600000].
Proof. vm_compute. repeat split. Qed.

(** A credential whose bytes are not a gzip stream: step 2 reports failure
    and the bootstrap falls back to pairing. *)
Example init_not_gzip_run :
  let cfg := sampleConfig (Some "Buddy~SGVsbG8=") "" in
  let w := snd (init cfg sampleEnv (initial_world None)) in
  credsFile w = None /\ useQR w = true /\
  trace w = [ExistsSync; UseMultiFileAuthState; FetchLatestBaileysVersion;
             MakeWASocket true; SetInterval 0 600000].
Proof. vm_compute. repeat split. Qed.

(** ** The retention cache *)

Module JsMapFacts.
Import JsMap.

Lemma get_set_same (k : string) (v : StoredMessage) (m : t) : get k (set k v m) = Some v.
Proof.
  induction m as [|[k' v'] m IH]; simpl.
  - now rewrite String.eqb_refl.
  - destruct (String.eqb k' k) eqn:Hk; simpl; rewrite Hk; [reflexivity | exact IH].
Qed.

Lemma get_set_other (k k' : string) (v : StoredMessage) (m : t) :
  k <> k' -> get k' (set k v m) = get k' m.
Proof.
  intros Hne. induction m as [|[k0 v0] m IH]; simpl.
  - destruct (String.eqb_spec k k'); [contradiction | reflexivity].
  - destruct (String.eqb_spec k0 k) as [->|Hk0]; simpl.
    + destruct (String.eqb_spec k k'); [contradiction | reflexivity].
    + now rewrite IH.
Qed.

Lemma keys_set (k : string) (v : StoredMessage) (m : t) :
  keys (set k v m) = if existsb (String.eqb k) (keys m) then keys m else keys m ++ [k].
Proof.
  unfold keys.
  induction m as [|[k' v'] m IH]; simpl; [reflexivity|].
  rewrite (String.eqb_sym k k').
  destruct (String.eqb k' k); simpl; [reflexivity|].
  rewrite IH.
  now destruct (existsb (String.eqb k) (map fst m)).
Qed.

Lemma existsb_eqb_In (k : string) (l : list string) :
  existsb (String.eqb k) l = true <-> In k l.
Proof.
  rewrite existsb_exists. split.
  - intros (x & Hx & He). apply String.eqb_eq in He. now subst.
  - intros H. exists k. split; [exact H | apply String.eqb_refl].
Qed.

Lemma In_keys_set (k k' : string) (v : StoredMessage) (m : t) :
  In k' (keys (set k v m)) <-> k' = k \/ In k' (keys m).
Proof.
  rewrite keys_set.
  destruct (existsb (String.eqb k) (keys m)) eqn:Hex.
  - apply existsb_eqb_In in Hex. split; [now right | intros [->|H]; assumption].
  - rewrite in_app_iff. simpl. split.
    + intros [H|[H|[]]]; [now right | now left].
    + intros [->|H]; [right; now left | now left].
Qed.

Lemma NoDup_keys_set (k : string) (v : StoredMessage) (m : t) :
  NoDup (keys m) -> NoDup (keys (set k v m)).
Proof.
  intros Hnd. rewrite keys_set.
  destruct (existsb (String.eqb k) (keys m)) eqn:Hex; [exact Hnd|].
  apply NoDup_app; [exact Hnd | constructor; [intros [] | constructor] |].
  intros x Hx [<-|[]].
  apply existsb_eqb_In in Hx. congruence.
Qed.

Lemma size_set (k : string) (v : StoredMessage) (m : t) :
  size (set k v m) = if existsb (String.eqb k) (keys m) then size m else S (size m).
Proof.
  unfold size. rewrite <- !(length_map fst). fold (keys (set k v m)). fold (keys m).
  rewrite keys_set.
  destruct (existsb (String.eqb k) (keys m)); [reflexivity|].
  rewrite length_app. simpl. lia.
Qed.

Lemma size_set_le (k : string) (v : StoredMessage) (m : t) :
  size (set k v m) <= S (size m).
Proof. rewrite size_set. destruct (existsb _ _); lia. Qed.

Lemma get_In (k : string) (v : StoredMessage) (m : t) :
  get k m = Some v -> In (k, v) m.
Proof.
  induction m as [|[k' v'] m IH]; simpl; [discriminate|].
  destruct (String.eqb_spec k' k) as [->|Hne].
  - intros [= ->]. now left.
  - intros H. right. now apply IH.
Qed.

Lemma In_get (k : string) (v : StoredMessage) (m : t) :
  NoDup (keys m) -> In (k, v) m -> get k m = Some v.
Proof.
  induction m as [|[k' v'] m IH]; simpl; [intros _ []|].
  intros Hnd [[= -> ->]|Hin].
  - now rewrite String.eqb_refl.
  - inversion Hnd as [|? ? Hnotin Hnd']; subst.
    destruct (String.eqb_spec k' k) as [->|Hne].
    + exfalso. apply Hnotin. change k with (fst (k, v)). now apply in_map.
    + now apply IH.
Qed.

Lemma get_Some_key (k : string) (v : StoredMessage) (m : t) :
  get k m = Some v -> In k (keys m).
Proof.
  intros H. apply get_In in H. change k with (fst (k, v)). now apply in_map.
Qed.

Lemma get_None_key (k : string) (m : t) : get k m = None <-> ~ In k (keys m).
Proof.
  induction m as [|[k' v'] m IH]; simpl.
  - split; [intros _ [] | reflexivity].
  - destruct (String.eqb_spec k' k) as [->|Hne].
    + split; [discriminate | intros H; elim H; now left].
    + rewrite IH. split.
      * intros H [Heq|Hin]; [contradiction | now apply H].
      * intros H Hin. apply H. now right.
Qed.

Lemma get_delete_same (k : string) (m : t) :
  NoDup (keys m) -> get k (delete k m) = None.
Proof.
  induction m as [|[k' v'] m IH]; simpl; [reflexivity|].
  intros Hnd. inversion Hnd as [|? ? Hnotin Hnd']; subst.
  destruct (String.eqb_spec k' k) as [->|Hne].
  - now apply get_None_key.
  - simpl. destruct (String.eqb_spec k' k); [contradiction | now apply IH].
Qed.

Lemma get_delete_other (k k' : string) (m : t) :
  k <> k' -> get k' (delete k m) = get k' m.
Proof.
  intros Hne. induction m as [|[k0 v0] m IH]; simpl; [reflexivity|].
  destruct (String.eqb_spec k0 k) as [->|Hk0]; simpl.
  - destruct (String.eqb_spec k k'); [contradiction | reflexivity].
  - now rewrite IH.
Qed.

Lemma In_keys_delete (k k' : string) (m : t) :
  In k' (keys (delete k m)) -> In k' (keys m).
Proof.
  induction m as [|[k0 v0] m IH]; simpl; [intros []|].
  destruct (String.eqb k0 k); simpl.
  - now right.
  - intros [H|H]; [now left | right; now apply IH].
Qed.

Lemma NoDup_keys_delete (k : string) (m : t) :
  NoDup (keys m) -> NoDup (keys (delete k m)).
Proof.
  induction m as [|[k0 v0] m IH]; simpl; [trivial|].
  intros Hnd. inversion Hnd as [|? ? Hnotin Hnd']; subst.
  destruct (String.eqb k0 k); simpl; [exact Hnd'|].
  constructor; [|now apply IH].
  intros Hin. apply Hnotin. now apply In_keys_delete in Hin.
Qed.

Lemma size_delete (k : string) (m : t) :
  In k (keys m) -> S (size (delete k m)) = size m.
Proof.
  induction m as [|[k0 v0] m IH]; simpl; [intros []|].
  destruct (String.eqb_spec k0 k) as [->|Hne]; simpl; [reflexivity|].
  intros [H|H]; [contradiction|]. unfold size in *. simpl. now rewrite IH.
Qed.

(** The head of the sorted entries is the first entry, in map order, among
    those with the smallest timestamp. *)
Lemma sort_head_first (l : t) (x : string * StoredMessage) (r : t) :
  sort l = x :: r ->
  exists l1 l2,
    l = l1 ++ x :: l2 /\
    (forall y, In y l1 -> (timestamp (snd x) < timestamp (snd y))%Z) /\
    (forall y, In y l2 -> (timestamp (snd x) <= timestamp (snd y))%Z).
Proof.
  revert x r. induction l as [|e l IH]; simpl; [discriminate|].
  intros x r Hs.
  destruct (sort l) as [|x' r'] eqn:Hsl.
  - simpl in Hs. injection Hs as <- <-.
    assert (l = []) as ->.
    { destruct l as [|a l]; [reflexivity|]. simpl in Hsl.
      destruct (sort l) as [|b s]; simpl in Hsl; [discriminate|].
      destruct (timestamp (snd a) - timestamp (snd b) <=? 0)%Z; discriminate. }
    exists [], []. repeat split; intros y [].
  - destruct (IH x' r' eq_refl) as (l1 & l2 & -> & Hlt & Hle).
    simpl in Hs.
    destruct (Z.leb_spec (timestamp (snd e) - timestamp (snd x')) 0) as [Hc|Hc].
    + injection Hs as <- <-.
      exists [], (l1 ++ x' :: l2). repeat split; [intros y [] |].
      intros y Hy. apply in_app_iff in Hy. destruct Hy as [Hy|[<-|Hy]].
      * specialize (Hlt y Hy). lia.
      * lia.
      * specialize (Hle y Hy). lia.
    + injection Hs as <- <-.
      exists (e :: l1), l2. repeat split; [| exact Hle].
      intros y [<-|Hy]; [lia | now apply Hlt].
Qed.

Lemma sort_nil (l : t) : sort l = [] -> l = [].
Proof.
  destruct l as [|a l]; [reflexivity|]. simpl.
  destruct (sort l) as [|b s]; simpl; [discriminate|].
  destruct (timestamp (snd a) - timestamp (snd b) <=? 0)%Z; discriminate.
Qed.

End JsMapFacts.

Section PutFacts.
Import JsMap JsMapFacts.

Lemma runPuts_snoc (ps : list Put) (p : Put) :
  runPuts (ps ++ [p]) = applyPut (runPuts ps) p.
Proof. unfold runPuts. now rewrite fold_left_app. Qed.

Lemma lastPut_snoc (k : string) (ps : list Put) (p : Put) :
  lastPut k (ps ++ [p]) = if String.eqb (put_id p) k then Some p else lastPut k ps.
Proof.
  induction ps as [|q ps IH]; simpl.
  - reflexivity.
  - rewrite IH. destruct (String.eqb (put_id p) k); [reflexivity|].
    reflexivity.
Qed.

Lemma lastPut_Some (k : string) (ps : list Put) (q : Put) :
  lastPut k ps = Some q -> put_id q = k /\ In q ps.
Proof.
  induction ps as [|p ps IH]; simpl; [discriminate|].
  destruct (lastPut k ps) as [q'|].
  - intros [= ->]. destruct (IH eq_refl) as [H1 H2]. split; [exact H1 | now right].
  - destruct (String.eqb_spec (put_id p) k) as [Hk|Hk]; [|discriminate].
    intros [= <-]. split; [exact Hk | now left].
Qed.

Lemma nondecreasing_snoc (l : list Z) (a : Z) :
  nondecreasing (l ++ [a]) = true ->
  nondecreasing l = true /\ Forall (fun y => (y <= a)%Z) l.
Proof.
  induction l as [|b l IH]; simpl; [intros _; split; [reflexivity | constructor]|].
  destruct l as [|c l].
  - simpl. intros H. apply andb_true_iff in H. destruct H as [H _].
    apply Z.leb_le in H. split; [reflexivity | repeat constructor; exact H].
  - simpl app in *. intros H. apply andb_true_iff in H. destruct H as [Hbc H].
    apply Z.leb_le in Hbc. destruct (IH H) as [Hnd Hall]. split.
    + apply andb_true_iff. split; [now apply Z.leb_le | exact Hnd].
    + constructor; [|exact Hall]. inversion Hall; subst. lia.
Qed.

(** One put on a well-formed map: nothing is evicted while the size stays
    within the bound, and otherwise exactly one entry goes, one with the
    smallest timestamp. *)
Lemma put_cases (m : t) (p : Put) :
  NoDup (keys m) ->
  let m1 := set (put_id p) (entryOf p) m in
  (size m1 <= 1000 /\ applyPut m p = m1)
  \/
  (1000 < size m1 /\
   exists k e,
     get k m1 = Some e /\ applyPut m p = delete k m1 /\
     S (size (applyPut m p)) = size m1 /\
     forall k' e', get k' m1 = Some e' -> (timestamp e <= timestamp e')%Z).
Proof.
  intros Hnd m1.
  assert (Hnd1 : NoDup (keys m1)) by now apply NoDup_keys_set.
  unfold applyPut, messageStore_put. fold (entryOf p). fold m1.
  destruct (Nat.ltb_spec 1000 (size m1)) as [Hbig|Hsmall]; [right | left; split; [lia | reflexivity]].
  split; [exact Hbig|].
  destruct (sort m1) as [|[k e] r] eqn:Hsort.
  - apply sort_nil in Hsort. rewrite Hsort in Hbig. simpl in Hbig. lia.
  - destruct (@sort_head_first _ _ _ Hsort) as (l1 & l2 & Hm1 & Hlt & Hle).
    assert (Hin : In (k, e) m1) by (rewrite Hm1; apply in_app_iff; right; now left).
    exists k, e. repeat split.
    + now apply In_get.
    + apply size_delete. change k with (fst (k, e)). now apply in_map.
    + intros k' e' Hget. apply get_In in Hget. rewrite Hm1 in Hget.
      apply in_app_iff in Hget. destruct Hget as [Hy|[Hy|Hy]].
      * specialize (Hlt _ Hy). simpl in Hlt. lia.
      * injection Hy as _ <-. lia.
      * specialize (Hle _ Hy). simpl in Hle. lia.
Qed.

Lemma get_applyPut (m : t) (p : Put) (k : string) (e : StoredMessage) :
  NoDup (keys m) ->
  get k (applyPut m p) = Some e ->
  (k = put_id p /\ e = entryOf p) \/ (k <> put_id p /\ get k m = Some e).
Proof.
  intros Hnd Hget.
  assert (Hget1 : get k (set (put_id p) (entryOf p) m) = Some e).
  { destruct (@put_cases _ p Hnd) as [[_ Heq]|(_ & k0 & e0 & _ & Heq & _)];
      rewrite Heq in Hget; [exact Hget|].
    destruct (String.eqb_spec k0 k) as [->|Hne].
    - rewrite get_delete_same in Hget by now apply NoDup_keys_set. discriminate.
    - now rewrite get_delete_other in Hget. }
  destruct (String.eqb_spec (put_id p) k) as [<-|Hne].
  - rewrite get_set_same in Hget1. injection Hget1 as <-. now left.
  - rewrite get_set_other in Hget1 by exact Hne. right. split; [congruence | exact Hget1].
Qed.

Lemma CacheInv_runPuts (ps : list Put) : CacheInv ps (runPuts ps).
Proof.
  induction ps as [|p ps IH] using rev_ind.
  - split; simpl; [constructor | lia | discriminate | intros k []].
  - rewrite runPuts_snoc. destruct IH as [Hnd Hb Hlatest Hfull].
    pose proof (@NoDup_keys_set (put_id p) (entryOf p) _ Hnd) as Hnd1.
    pose proof (size_set_le (put_id p) (entryOf p) (runPuts ps)) as Hle1.
    assert (Hnd2 : NoDup (keys (applyPut (runPuts ps) p))).
    { destruct (@put_cases _ p Hnd) as [[_ ->]|(_ & k0 & e0 & _ & -> & _)];
        [exact Hnd1 | now apply NoDup_keys_delete]. }
    split.
    + exact Hnd2.
    + destruct (@put_cases _ p Hnd) as [[Hs ->]|(_ & k0 & e0 & _ & _ & Hs & _)]; lia.
    + intros k e Hget. rewrite lastPut_snoc.
      destruct (@get_applyPut _ p _ _ Hnd Hget) as [[-> ->]|[Hne Hold]].
      * rewrite String.eqb_refl. now exists p.
      * destruct (String.eqb_spec (put_id p) k); [congruence|]. now apply Hlatest.
    + intros k Hin Hout.
      destruct (@put_cases _ p Hnd) as [[Hs Heq]|(Hs & k0 & e0 & _ & _ & Hsz & _)]; [|lia].
      rewrite Heq in *.
      assert (Hk : k <> put_id p /\ ~ In k (keys (runPuts ps))).
      { split; intros H; apply Hout; apply In_keys_set; [now left | now right]. }
      destruct Hk as [Hk1 Hk2].
      rewrite map_app, in_app_iff in Hin. simpl in Hin.
      destruct Hin as [Hin|[Hin|[]]]; [|congruence].
      specialize (Hfull k Hin Hk2).
      rewrite size_set in *. destruct (existsb _ _); lia.
Qed.

Lemma keys_within_ids (ps : list Put) (k : string) :
  In k (keys (runPuts ps)) -> In k (distinctIds ps).
Proof.
  intros Hin. apply nodup_In.
  destruct (get k (runPuts ps)) as [e|] eqn:Hget.
  - destruct (@inv_latest _ _ (CacheInv_runPuts ps) _ _ Hget) as (q & Hq & _).
    apply lastPut_Some in Hq. destruct Hq as [<- Hq]. now apply in_map.
  - apply get_None_key in Hget. contradiction.
Qed.

(** The cache holds as many entries as distinct identifiers were put, up
    to the bound. *)
Lemma size_runPuts (ps : list Put) :
  size (runPuts ps) = Nat.min 1000 (List.length (distinctIds ps)).
Proof.
  pose proof (CacheInv_runPuts ps) as [Hnd Hb _ Hfull].
  assert (Hlen : size (runPuts ps) = List.length (keys (runPuts ps)))
    by (unfold size, keys; now rewrite length_map).
  assert (Hincl : incl (keys (runPuts ps)) (distinctIds ps))
    by (intros k; apply keys_within_ids).
  pose proof (NoDup_incl_length Hnd Hincl) as Hle.
  destruct (forallb (fun k => existsb (String.eqb k) (keys (runPuts ps))) (distinctIds ps))
    eqn:Hall.
  - assert (Hincl' : incl (distinctIds ps) (keys (runPuts ps))).
    { intros k Hk. rewrite forallb_forall in Hall. now apply existsb_eqb_In, Hall. }
    pose proof (NoDup_incl_length (NoDup_nodup string_dec (map put_id ps)) Hincl').
    unfold distinctIds in *. lia.
  - assert (Hex : exists k, In k (distinctIds ps) /\ ~ In k (keys (runPuts ps))).
    { clear - Hall. induction (distinctIds ps) as [|a l IH]; simpl in Hall; [discriminate|].
      apply andb_false_iff in Hall. destruct Hall as [Ha|Hl].
      - exists a. split; [now left|]. intros Hin. apply existsb_eqb_In in Hin. congruence.
      - destruct (IH Hl) as (k & Hk & Hn). exists k. split; [now right | exact Hn]. }
    destruct Hex as (k & Hk & Hout).
    assert (Hsz : size (runPuts ps) = 1000).
    { apply (Hfull k); [|exact Hout]. unfold distinctIds in Hk. now apply nodup_In in Hk. }
    assert (Hnd' : NoDup (k :: keys (runPuts ps))) by now constructor.
    assert (Hincl2 : incl (k :: keys (runPuts ps)) (distinctIds ps)).
    { intros x [<-|Hx]; [exact Hk | now apply Hincl]. }
    pose proof (NoDup_incl_length Hnd' Hincl2) as Hlt. simpl in Hlt. lia.
Qed.

(** With a clock that never runs backwards, an identifier that was put
    and is no longer in the cache was last put no later than every entry
    the cache retains. *)
Lemma dropped_before_retained (ps : list Put) :
  nondecreasing (map put_now ps) = true ->
  forall k q k' e',
    lastPut k ps = Some q -> get k (runPuts ps) = None ->
    get k' (runPuts ps) = Some e' ->
    (put_now q <= timestamp e')%Z.
Proof.
  induction ps as [|p ps IH] using rev_ind; [intros _ k q k' e'; discriminate|].
  intros Hclock k q k' e' Hlast Hdropped Hkept.
  rewrite map_app in Hclock. apply nondecreasing_snoc in Hclock.
  destruct Hclock as [Hclock Hmax].
  specialize (IH Hclock).
  rewrite runPuts_snoc in *. rewrite lastPut_snoc in Hlast.
  pose proof (CacheInv_runPuts ps) as [Hnd Hb Hlatest _].
  pose proof (@NoDup_keys_set (put_id p) (entryOf p) _ Hnd) as Hnd1.
  set (m := runPuts ps) in *. set (m1 := set (put_id p) (entryOf p) m) in *.
  assert (Hkept1 : get k' m1 = Some e').
  { destruct (@get_applyPut _ p _ _ Hnd Hkept) as [[-> ->]|[Hne Hold]].
    - apply get_set_same.
    - unfold m1. now rewrite get_set_other by congruence. }
  assert (Hbound : forall x, In x ps -> (put_now x <= put_now p)%Z).
  { intros x Hx. rewrite Forall_forall in Hmax. apply Hmax. now apply in_map. }
  destruct (get k m1) as [e|] eqn:Hget1.
  - (* [k] was in the map after the set: it is the entry just evicted *)
    destruct (@put_cases _ p Hnd) as [[_ Heq]|(_ & k0 & e0 & Hget0 & Heq & _ & Hmin)];
      fold m m1 in Heq; rewrite Heq in Hdropped.
    + fold m1 in Hdropped. congruence.
    + fold m m1 in Hget0, Hmin.
      assert (k0 = k) as ->.
      { destruct (String.eqb_spec k0 k) as [->|Hne]; [reflexivity|].
        rewrite get_delete_other in Hdropped by exact Hne. congruence. }
      assert (e0 = e) as -> by congruence.
      assert (Hq : e = entryOf q).
      { destruct (String.eqb_spec (put_id p) k) as [Hk|Hk].
        - injection Hlast as <-. unfold m1 in Hget1. rewrite Hk, <- Hk in Hget1.
          rewrite get_set_same in Hget1. congruence.
        - unfold m1 in Hget1. rewrite get_set_other in Hget1 by exact Hk.
          destruct (Hlatest _ _ Hget1) as (q' & Hq' & ->). congruence. }
      specialize (Hmin _ _ Hkept1). rewrite Hq in Hmin. exact Hmin.
  - (* [k] was dropped before this put *)
    destruct (String.eqb_spec (put_id p) k) as [Hk|Hk].
    + unfold m1 in Hget1. rewrite Hk in Hget1. rewrite get_set_same in Hget1. discriminate.
    + unfold m1 in Hget1. rewrite get_set_other in Hget1 by exact Hk.
      destruct (String.eqb_spec (put_id p) k') as [Hk'|Hk'].
      * unfold m1 in Hkept1. rewrite Hk' in Hkept1. rewrite get_set_same in Hkept1.
        injection Hkept1 as <-. simpl.
        apply Hbound. now apply lastPut_Some in Hlast.
      * unfold m1 in Hkept1. rewrite get_set_other in Hkept1 by exact Hk'.
        now apply (IH k q k' e').
Qed.

End PutFacts.

(** C2, as the code has it.  After every put of every sequence of puts
    (from the empty cache): the cache holds at most 1000 entries; the put evicts nothing
    while the size stays within the bound and otherwise evicts exactly one
    entry, one whose timestamp is the smallest, which brings the size back
    to 1000; the cache holds as many entries as distinct identifiers were
    put, up to 1000, each with the message and timestamp of the latest put
    of its identifier; and, the clock never running backwards, every
    identifier that is no longer retained was last put no later than every
    retained entry, so the retained entries are the most recent ones by
    timestamp. *)
Theorem messageStore_bounded_recent (ps : list Put) (p : Put) :
  let m1 := JsMap.set (put_id p) (entryOf p) (runPuts ps) in
  let m2 := runPuts (ps ++ [p]) in
  JsMap.size m2 <= 1000 /\
  ((JsMap.size m1 <= 1000 /\ m2 = m1)
   \/
   (1000 < JsMap.size m1 /\
    exists k e,
      JsMap.get k m1 = Some e /\ m2 = JsMap.delete k m1 /\ JsMap.size m2 = 1000 /\
      forall k' e', JsMap.get k' m1 = Some e' -> (timestamp e <= timestamp e')%Z)) /\
  JsMap.size m2 = Nat.min 1000 (List.length (distinctIds (ps ++ [p]))) /\
  (forall k e, JsMap.get k m2 = Some e ->
     exists q, lastPut k (ps ++ [p]) = Some q /\ e = entryOf q) /\
  (nondecreasing (map put_now (ps ++ [p])) = true ->
   forall k q k' e',
     lastPut k (ps ++ [p]) = Some q -> JsMap.get k m2 = None ->
     JsMap.get k' m2 = Some e' ->
     (put_now q <= timestamp e')%Z).
Proof.
  intros m1 m2.
  pose proof (CacheInv_runPuts (ps ++ [p])) as [_ Hbound Hlatest _].
  pose proof (CacheInv_runPuts ps) as [Hnd Hb _ _].
  repeat split.
  - exact Hbound.
  - unfold m2. rewrite runPuts_snoc.
    pose proof (JsMapFacts.size_set_le (put_id p) (entryOf p) (runPuts ps)) as Hle.
    destruct (@put_cases _ p Hnd) as [[Hs Heq]|(Hs & k & e & Hget & Heq & Hsz & Hmin)].
    + left. split; assumption.
    + right. split; [exact Hs|]. exists k, e. repeat split; try assumption. lia.
  - apply size_runPuts.
  - exact Hlatest.
  - intros Hclock. now apply dropped_before_retained.
Qed.

(** *** Concrete runs of the cache *)

Lemma messageStore_bounded_recent_witness :
  nondecreasing (map put_now (samplePuts Z.of_nat 1001 ++ [samplePut Z.of_nat 1001])) = true /\
  let ps := samplePuts Z.of_nat 1001 in
  let p := samplePut Z.of_nat 1001 in
  let m1 := JsMap.set (put_id p) (entryOf p) (runPuts ps) in
  let m2 := runPuts (ps ++ [p]) in
  JsMap.size m2 <= 1000 /\
  ((JsMap.size m1 <= 1000 /\ m2 = m1)
   \/
   (1000 < JsMap.size m1 /\
    exists k e,
      JsMap.get k m1 = Some e /\ m2 = JsMap.delete k m1 /\ JsMap.size m2 = 1000 /\
      forall k' e', JsMap.get k' m1 = Some e' -> (timestamp e <= timestamp e')%Z)) /\
  JsMap.size m2 = Nat.min 1000 (List.length (distinctIds (ps ++ [p]))) /\
  (forall k e, JsMap.get k m2 = Some e ->
     exists q, lastPut k (ps ++ [p]) = Some q /\ e = entryOf q) /\
  (nondecreasing (map put_now (ps ++ [p])) = true ->
   forall k q k' e',
     lastPut k (ps ++ [p]) = Some q -> JsMap.get k m2 = None ->
     JsMap.get k' m2 = Some e' ->
     (put_now q <= timestamp e')%Z).
Proof.
  split.
  - vm_compute. reflexivity.
  - exact (messageStore_bounded_recent (samplePuts Z.of_nat 1001) (samplePut Z.of_nat 1001)).
Defined.

(** C2 as the specification states it, for every sequence of puts
    whatever their timestamps, fails when the clock steps back: [m0] to
    [m1000] are put one millisecond apart from 1000 on, which evicts
    [m0], and [m1] is then delivered again after the clock was set back
    to 999.  The retained [m1] is now older than the dropped [m0]. *)
Lemma reput_after_clock_step_back_keeps_older :
  ~ retainsMostRecent
      (samplePuts (fun i => Z.of_nat (1000 + i)) 1001 ++ [samplePut (fun _ => 999%Z) 1]).
Proof.
  intros Hrecent.
  specialize (Hrecent "m0" (samplePut (fun i => Z.of_nat (1000 + i)) 0)
                "m1" (entryOf (samplePut (fun _ => 999%Z) 1))).
  assert (Hlast : lastPut "m0"
                    (samplePuts (fun i => Z.of_nat (1000 + i)) 1001
                     ++ [samplePut (fun _ => 999%Z) 1])
                  = Some (samplePut (fun i => Z.of_nat (1000 + i)) 0))
    by (vm_compute; reflexivity).
  assert (Hdropped : JsMap.get "m0"
                       (runPuts (samplePuts (fun i => Z.of_nat (1000 + i)) 1001
                                 ++ [samplePut (fun _ => 999%Z) 1]))
                     = None)
    by (vm_compute; reflexivity).
  assert (Hkept : JsMap.get "m1"
                    (runPuts (samplePuts (fun i => Z.of_nat (1000 + i)) 1001
                              ++ [samplePut (fun _ => 999%Z) 1]))
                  = Some (entryOf (samplePut (fun _ => 999%Z) 1)))
    by (vm_compute; reflexivity).
  specialize (Hrecent Hlast Hdropped Hkept). vm_compute in Hrecent.
  now apply Hrecent.
Qed.

(** 1002 puts at increasing times: the two oldest are gone, the rest stay. *)
Example cache_run_increasing :
  let m := runPuts (samplePuts Z.of_nat 1002) in
  JsMap.size m = 1000 /\ JsMap.get "m0" m = None /\ JsMap.get "m1" m = None /\
  option_map timestamp (JsMap.get "m2" m) = Some 2%Z /\
  option_map timestamp (JsMap.get "m1001" m) = Some 1001%Z.
Proof. vm_compute. repeat split. Qed.

(** 1001 puts within one millisecond: the tie goes to the entry that
    entered the map first. *)
Example cache_run_tie :
  let m := runPuts (samplePuts (fun _ => 7%Z) 1001) in
  JsMap.size m = 1000 /\ JsMap.get "m0" m = None /\
  option_map timestamp (JsMap.get "m1" m) = Some 7%Z.
Proof. vm_compute. repeat split. Qed.

(** A clock that steps back: the entry put last carries the smallest
    timestamp and is the one evicted. *)
Example cache_run_clock_steps_back :
  let m := runPuts (samplePuts (fun i => if (i =? 1000)%nat then 0%Z else Z.of_nat (S i)) 1001) in
  JsMap.size m = 1000 /\ JsMap.get "m1000" m = None /\
  option_map timestamp (JsMap.get "m0" m) = Some 1%Z.
Proof. vm_compute. repeat split. Qed.

(** 1000 puts within one millisecond, then [m0] is put again and [m1000]
    is put, all in that millisecond: [m0] kept its place at the front of the
    map and is the entry the tie goes against. *)
Example cache_run_tie_after_reput :
  let m := runPuts (samplePuts (fun _ => 7%Z) 1000
                    ++ [samplePut (fun _ => 7%Z) 0; samplePut (fun _ => 7%Z) 1000]) in
  JsMap.size m = 1000 /\ JsMap.get "m0" m = None /\
  option_map timestamp (JsMap.get "m1" m) = Some 7%Z /\
  option_map timestamp (JsMap.get "m1000" m) = Some 7%Z.
Proof. vm_compute. repeat split. Qed.

(** The first [messages.upsert] handler is such a put, at the time the
    clock shows, when the first message of the batch has an identifier and a
    payload, was not sent by the agent, and the feature is on; otherwise
    the cache is left as it is. *)
Lemma upsertStore_is_put
  (cfg : config) (E : env) (w : world) (mek : WebMessage) (rest : list WebMessage) :
  messageStore (snd (upsertStore cfg (mek :: rest) E w))
  = match key mek, message mek with
    | Some k, Some _ =>
        match msgId k with
        | Some id =>
            if JsString.truthy id && negb (fromMe k) && ANTI_DELETE cfg
            then applyPut (messageStore w)
                   {| put_id := id; put_mek := mek; put_now := clock E (trace w) |}
            else messageStore w
        | None => messageStore w
        end
    | _, _ => messageStore w
    end.
Proof.
  unfold upsertStore, keyField. simpl.
  destruct (key mek) as [k|]; destruct (message mek); try reflexivity;
    destruct (msgId k) as [id|]; try reflexivity.
  destruct (JsString.truthy id && negb (fromMe k) && ANTI_DELETE cfg); reflexivity.
Qed.

(** ** What the handlers leave alone *)

#[local] Instance steady_Frame :
  Frame steady (fun c => negb (isConnectCall c) && negb (isBootstrapCall c)).
Proof.
  split.
  - intros w. repeat split.
  - unfold steady. intros a b c (A1 & A2 & A3 & A4 & A5 & A6 & A7)
      (B1 & B2 & B3 & B4 & B5 & B6 & B7).
    repeat split; congruence.
  - intros c w Hc. apply andb_true_iff in Hc. destruct Hc as [H1 H2].
    apply negb_true_iff in H1, H2.
    repeat split; simpl; unfold connects, bootstrapCalls;
      rewrite filter_app; simpl; rewrite ?H1, ?H2; apply app_nil_r.
Qed.

#[local] Instance calm_Frame : Frame calm (fun c => negb (isConnectCall c)).
Proof.
  split.
  - intros w. repeat split.
  - unfold calm. intros a b c (A1 & A2 & A3 & A4 & A5 & A6) (B1 & B2 & B3 & B4 & B5 & B6).
    repeat split; congruence.
  - intros c w Hc. apply negb_true_iff in Hc.
    repeat split; simpl; unfold connects; rewrite filter_app; simpl; rewrite Hc;
      apply app_nil_r.
Qed.

Section Frames.

Context {R : world -> world -> Prop} {allowed : call -> bool} `{Frame R allowed}.

Lemma Keeps_ret {A} (a : A) : Keeps R (ret a).
Proof. intros E w. apply frame_refl. Qed.

Lemma Keeps_throw {A} (e : exn) : Keeps R (@throw A e).
Proof. intros E w. apply frame_refl. Qed.

Lemma Keeps_bind {A B} (m : M A) (k : A -> M B) :
  Keeps R m -> (forall a, Keeps R (k a)) -> Keeps R (bind m k).
Proof.
  intros Hm Hk E w. unfold bind. specialize (Hm E w).
  destruct (m E w) as [[a|e] w1]; simpl in *; [|exact Hm].
  eapply frame_trans; [exact Hm | apply Hk].
Qed.

Lemma Keeps_try_catch {A} (m : M A) (h : exn -> M A) :
  Keeps R m -> (forall e, Keeps R (h e)) -> Keeps R (try_catch m h).
Proof.
  intros Hm Hh E w. unfold try_catch. specialize (Hm E w).
  destruct (m E w) as [[a|e] w1]; simpl in *; [exact Hm|].
  eapply frame_trans; [exact Hm | apply Hh].
Qed.

Lemma Keeps_gets {A} (f : world -> A) : Keeps R (gets f).
Proof. intros E w. apply frame_refl. Qed.

Lemma Keeps_asks {A} (f : env -> A) : Keeps R (asks f).
Proof. intros E w. apply frame_refl. Qed.

Lemma Keeps_perform (c : call) : allowed c = true -> Keeps R (perform c).
Proof. intros Hc E w. now apply frame_note. Qed.

Lemma Keeps_await (c : call) : allowed c = true -> Keeps R (await c).
Proof.
  intros Hc. apply Keeps_bind; [now apply Keeps_perform|].
  intros [| |]; [apply Keeps_ret | apply Keeps_throw | apply Keeps_throw].
Qed.

Lemma Keeps_await_catch (c : call) : allowed c = true -> Keeps R (await_catch c).
Proof.
  intros Hc. apply Keeps_bind; [now apply Keeps_perform|].
  intros [| |]; [apply Keeps_ret | apply Keeps_ret | apply Keeps_throw].
Qed.

Lemma Keeps_dateNow : allowed DateNow = true -> Keeps R dateNow.
Proof. intros Hc E w. now apply frame_note. Qed.

Lemma Keeps_randomBelow (n : Z) : allowed MathRandom = true -> Keeps R (randomBelow n).
Proof. intros Hc E w. now apply frame_note. Qed.

Lemma Keeps_sleep (ms : Z) : allowed (SetTimeout ms) = true -> Keeps R (sleep ms).
Proof. intros Hc E w. now apply frame_note. Qed.

Lemma Keeps_momentNow : allowed DateNow = true -> Keeps R momentNow.
Proof.
  intros Hc. apply Keeps_bind; [now apply Keeps_dateNow|]. intros t.
  apply Keeps_bind; [apply Keeps_asks|]. intros f. apply Keeps_ret.
Qed.

End Frames.

Lemma steady_set_messageStore (f : world -> JsMap.t) :
  Keeps steady (modify (fun w => set_messageStore (f w) w)).
Proof. intros E w. repeat split. Qed.

Lemma steady_set_initialConnection (b : bool) :
  Keeps steady (modify (set_initialConnection b)).
Proof. intros E w. repeat split. Qed.

Lemma calm_set_credsFile (v : option string) : Keeps calm (modify (set_credsFile v)).
Proof. intros E w. repeat split. Qed.

Lemma calm_set_useQR (b : bool) : Keeps calm (modify (set_useQR b)).
Proof. intros E w. repeat split. Qed.

Create HintDb keeps discriminated.

#[local] Hint Resolve steady_set_messageStore steady_set_initialConnection
  calm_set_credsFile calm_set_useQR : keeps.

(** Takes a computation apart along its binds, handlers and case analyses. *)
Ltac keeps_step :=
  match goal with
  | |- Keeps _ (bind _ _) => apply Keeps_bind; [|intros ?]
  | |- Keeps _ (try_catch _ _) => apply Keeps_try_catch; [|intros ?]
  | |- Keeps _ (ret _) => apply Keeps_ret
  | |- Keeps _ (throw _) => apply Keeps_throw
  | |- Keeps _ (gets _) => apply Keeps_gets
  | |- Keeps _ (asks _) => apply Keeps_asks
  | |- Keeps _ (await _) => apply Keeps_await; reflexivity
  | |- Keeps _ (await_catch _) => apply Keeps_await_catch; reflexivity
  | |- Keeps _ dateNow => apply Keeps_dateNow; reflexivity
  | |- Keeps _ momentNow => apply Keeps_momentNow; reflexivity
  | |- Keeps _ (randomBelow _) => apply Keeps_randomBelow; reflexivity
  | |- Keeps _ (sleep _) => apply Keeps_sleep; reflexivity
  | |- Keeps _ (modify _) => solve [auto with keeps]
  | |- Keeps _ (match ?x with _ => _ end) => destruct x
  | |- Keeps _ (if ?b then _ else _) => destruct b
  end.

Ltac keeps_all := cbv zeta; repeat keeps_step.

Section SteadyHandlers.

Variable cfg : config.

Lemma steady_classifyJoinError (e : exn) (g : string) :
  Keeps steady (classifyJoinError e g).
Proof. unfold classifyJoinError. keeps_all. Qed.

Lemma steady_joinGroupByInviteCode (Matrix : nat) (code g : string) :
  Keeps steady (joinGroupByInviteCode Matrix code g).
Proof.
  unfold joinGroupByInviteCode. keeps_all. apply steady_classifyJoinError.
Qed.

Lemma steady_joinTurn (Matrix n i : nat) (g : Group) (c : Counters) :
  Keeps steady (joinTurn Matrix n i g c).
Proof.
  unfold joinTurn. apply Keeps_try_catch; [|intros e; apply Keeps_ret].
  apply Keeps_bind; [apply steady_joinGroupByInviteCode|]. intros r.
  keeps_all.
Qed.

Lemma steady_joinLoop (Matrix n : nat) (gs : list Group) :
  forall i c, Keeps steady (joinLoop Matrix n i gs c).
Proof.
  induction gs as [|g gs IH]; intros i c; simpl.
  - apply Keeps_ret.
  - apply Keeps_bind; [apply steady_joinTurn | intros c'; apply IH].
Qed.

Lemma steady_handleAutoJoinGroups (groups : list Group) (Matrix : nat) :
  Keeps steady (handleAutoJoinGroups cfg groups Matrix).
Proof.
  unfold handleAutoJoinGroups.
  apply Keeps_try_catch.
  - cbv zeta. apply Keeps_bind; [apply steady_joinLoop|]. intros c. keeps_all.
  - intros e. keeps_all.
Qed.

Lemma steady_sendConnectMessage (groups : list Group) (Matrix : nat) :
  Keeps steady (sendConnectMessage cfg groups Matrix).
Proof. unfold sendConnectMessage. keeps_all. Qed.

Lemma steady_recover (Matrix : nat) (k : MessageKey) (id : string) (sm : StoredMessage) :
  Keeps steady (recover cfg Matrix k id sm).
Proof. unfold recover. keeps_all. Qed.

Lemma steady_handleAntiDelete (mek : WebMessage) (Matrix : nat) :
  Keeps steady (handleAntiDelete cfg mek Matrix).
Proof. unfold handleAntiDelete. keeps_all; apply steady_recover. Qed.

Lemma steady_handleAutoViewStatus (mek : WebMessage) (Matrix : nat) :
  Keeps steady (handleAutoViewStatus cfg mek Matrix).
Proof. unfold handleAutoViewStatus. keeps_all. Qed.

Lemma steady_handleAutoLikeStatus (mek : WebMessage) (Matrix : nat) :
  Keeps steady (handleAutoLikeStatus cfg mek Matrix).
Proof. unfold handleAutoLikeStatus. keeps_all. Qed.

Lemma steady_upsertStore (messages : list WebMessage) :
  Keeps steady (upsertStore cfg messages).
Proof. unfold upsertStore. keeps_all. Qed.

Lemma steady_upsertFeatures (Matrix : nat) (messages : list WebMessage) :
  Keeps steady (upsertFeatures cfg Matrix messages).
Proof.
  unfold upsertFeatures. apply Keeps_try_catch; [|intros e; apply Keeps_ret].
  destruct (nth_error messages 0) as [mek|]; [|apply Keeps_throw].
  destruct (key mek) as [k|]; [|apply Keeps_throw].
  cbv zeta. destruct (message mek) as [msg|]; [|apply Keeps_ret].
  destruct (fromMe k); [apply Keeps_ret|].
  destruct (protocolMessage msg); [apply Keeps_ret|].
  destruct (ephemeralMessage msg || reactionMessage msg); [apply Keeps_ret|].
  apply Keeps_bind; [apply steady_handleAntiDelete | intros _].
  apply Keeps_bind; [apply steady_handleAutoViewStatus | intros _].
  apply Keeps_bind; [apply steady_handleAutoLikeStatus | intros _].
  keeps_all.
Qed.

(** The bootstrap steps connect nothing and register nothing. *)
Lemma calm_loadGiftedSession : Keeps calm (loadGiftedSession cfg).
Proof. unfold loadGiftedSession, writeFile. keeps_all. Qed.

Lemma calm_downloadLegacySession : Keeps calm (downloadLegacySession cfg).
Proof.
  unfold downloadLegacySession, writeFile. keeps_all.
  intros E w. apply frame_refl.
Qed.

End SteadyHandlers.

(** ** Connection lifecycle *)

(** A [try] whose [catch] cannot throw always returns. *)
Lemma try_catch_returns {A} (body : M A) (h : exn -> M A) (E : env) (w : world) :
  (forall e w', exists a, fst (h e E w') = Ret a) ->
  exists a, fst (try_catch body h E w) = Ret a.
Proof.
  intros Hh. unfold try_catch.
  destruct (body E w) as [[a|e] w']; [now exists a | apply Hh].
Qed.

Section Lifecycle.

Variable cfg : config.
Variable E : env.

Lemma loadGiftedSession_returns (w : world) :
  exists b, fst (loadGiftedSession cfg E w) = Ret b.
Proof.
  unfold loadGiftedSession.
  destruct (SESSION_ID cfg) as [sid|]; [|now exists false].
  destruct (negb (JsString.truthy sid)); [now exists false|].
  destruct (JsString.startsWith sid "Buddy~"); [|now exists false].
  apply try_catch_returns. intros e w'. now exists false.
Qed.

Lemma downloadLegacySession_returns (w : world) :
  exists b, fst (downloadLegacySession cfg E w) = Ret b.
Proof.
  unfold downloadLegacySession.
  destruct (SESSION_ID cfg) as [sid|]; [|now exists false].
  destruct (negb (JsString.truthy sid)); [now exists false|].
  destruct (nth_error (JsString.split sid "Buddy~") 1) as [sessdata|]; [|now exists false].
  destruct (negb (JsString.truthy sessdata) || negb (JsString.includes sessdata "#"));
    [now exists false|].
  apply try_catch_returns. intros e w'. now exists false.
Qed.

(** [init] runs the bootstrap, which connects nothing, and then [start]. *)
Lemma init_start (w : world) :
  exists w1, init cfg E w = start E w1 /\ calm w w1.
Proof.
  unfold init, bind at 1. unfold existsSync.
  assert (Hprobe : calm w (set_trace (trace w ++ [ExistsSync]) w))
    by (now apply frame_note).
  set (w0 := set_trace (trace w ++ [ExistsSync]) w) in *.
  destruct (credsFile w); [now exists w0|].
  cbv beta iota.
  destruct (JsString.truthy_opt (SESSION_ID cfg)
            && JsString.startsWith (JsString.or_else (SESSION_ID cfg) "") "Buddy~").
  - unfold bind.
    pose proof (calm_loadGiftedSession cfg E w0) as Hcalm.
    destruct (loadGiftedSession_returns w0) as [b Hb].
    destruct (loadGiftedSession cfg E w0) as [r w1]. simpl in Hb, Hcalm. subst r.
    destruct b.
    + exists w1. split; [reflexivity | eapply frame_trans; eassumption].
    + exists (set_useQR true w1). split; [reflexivity|].
      eapply frame_trans; [exact Hprobe|]. eapply frame_trans; [exact Hcalm|].
      repeat split.
  - destruct (JsString.truthy_opt (SESSION_ID cfg)
              && JsString.includes (JsString.or_else (SESSION_ID cfg) "") "Buddy~").
    + unfold bind.
      pose proof (calm_downloadLegacySession cfg E w0) as Hcalm.
      destruct (downloadLegacySession_returns w0) as [b Hb].
      destruct (downloadLegacySession cfg E w0) as [r w1]. simpl in Hb, Hcalm. subst r.
      destruct b.
      * exists w1. split; [reflexivity | eapply frame_trans; eassumption].
      * exists (set_useQR true w1). split; [reflexivity|].
        eapply frame_trans; [exact Hprobe|]. eapply frame_trans; [exact Hcalm|].
        repeat split.
    + exists (set_useQR true w0). split; [reflexivity|].
      eapply frame_trans; [exact Hprobe|]. repeat split.
Qed.

(** The close branch of the handler. *)
Lemma connectionUpdate_close (Matrix : nat) (ld : LastDisconnect) (w : world) :
  connectionUpdate cfg Matrix (closeUpdate ld) E w =
  if isLoggedOut ld then (Ret tt, w) else start E w.
Proof. unfold connectionUpdate, closeUpdate. simpl. now destruct (isLoggedOut ld). Qed.

Lemma steady_connectionUpdate (Matrix : nat) (u : ConnectionUpdate) (w : world) :
  isRecoverableClose (ConnectionUpdateEvent Matrix u) = false ->
  steady w (snd (connectionUpdate cfg Matrix u E w)).
Proof.
  unfold isRecoverableClose, connectionUpdate.
  destruct (connection u) as [[| |]|]; intros Hrec; try apply frame_refl.
  - destruct (lastDisconnect u) as [ld|]; [|apply frame_refl].
    apply negb_false_iff in Hrec. rewrite Hrec. apply frame_refl.
  - revert E w.
    change (Keeps steady
      (first <- gets initialConnection ;;
       if first
       then sleep 3000 ;;
            handleAutoJoinGroups cfg (MANDATORY_GROUPS cfg) Matrix ;;
            sendConnectMessage cfg (MANDATORY_GROUPS cfg) Matrix ;;
            modify (set_initialConnection false)
       else handleAutoJoinGroups cfg (MANDATORY_GROUPS cfg) Matrix ;;
            sendConnectMessage cfg (MANDATORY_GROUPS cfg) Matrix)).
    apply Keeps_bind; [apply Keeps_gets|]. intros [|].
    + apply Keeps_bind; [apply Keeps_sleep; reflexivity | intros _].
      apply Keeps_bind; [apply steady_handleAutoJoinGroups | intros _].
      apply Keeps_bind; [apply steady_sendConnectMessage | intros _].
      apply steady_set_initialConnection.
    + apply Keeps_bind; [apply steady_handleAutoJoinGroups | intros _].
      apply steady_sendConnectMessage.
Qed.

End Lifecycle.

Section Runs.

Variable cfg : config.
Variable E : env.



Lemma snd_fireAndForget {A} (h : M A) (w : world) :
  snd (fireAndForget h E w) = snd (h E w).
Proof. unfold fireAndForget. now destruct (h E w) as [[a|e] w']. Qed.

(** An event that is not a recoverable closure connects nothing. *)
Lemma steady_dispatch (ev : event) (w : world) :
  isRecoverableClose ev = false -> steady w (snd (dispatch cfg ev E w)).
Proof.
  intros Hrec. unfold dispatch.
  destruct (exited w); [apply frame_refl|].
  destruct ev as [Matrix u|Matrix messages|timer].
  - pose proof (steady_connectionUpdate cfg E Matrix u w Hrec) as Hs.
    rewrite <- snd_fireAndForget in Hs.
    now destruct (fireAndForget (connectionUpdate cfg Matrix u) E w).
  - pose proof (steady_upsertStore cfg messages E w) as H1.
    rewrite <- snd_fireAndForget in H1.
    destruct (fireAndForget (upsertStore cfg messages) E w) as [c1 w1]. simpl in H1.
    pose proof (steady_upsertFeatures cfg Matrix messages E w1) as H2.
    rewrite <- snd_fireAndForget in H2.
    destruct (fireAndForget (upsertFeatures cfg Matrix messages) E w1) as [c2 w2].
    simpl in *. eapply frame_trans; eassumption.
  - destruct (nth_error (intervals w) timer) as [Matrix|]; [|apply frame_refl].
    unfold intervalCallback.
    pose proof (steady_handleAutoJoinGroups cfg (MANDATORY_GROUPS cfg) Matrix E w) as Hs.
    rewrite <- snd_fireAndForget in Hs.
    now destruct (fireAndForget (handleAutoJoinGroups cfg (MANDATORY_GROUPS cfg) Matrix) E w).
Qed.

Lemma steady_run (evs : list event) (w : world) :
  forallb (fun ev => negb (isRecoverableClose ev)) evs = true ->
  steady w (snd (run cfg evs E w)).
Proof.
  revert w. induction evs as [|ev evs IH]; intros w Hall; simpl in *; [apply frame_refl|].
  apply andb_true_iff in Hall. destruct Hall as [Hev Hevs].
  apply negb_true_iff in Hev.
  pose proof (steady_dispatch ev w Hev) as H1.
  destruct (dispatch cfg ev E w) as [cs w1]. simpl in H1.
  specialize (IH w1 Hevs).
  destruct (run cfg evs E w1) as [cs' w2]. simpl in *.
  eapply frame_trans; eassumption.
Qed.




End Runs.

Lemma start_trace_head (E : env) (w : world) :
  exists rest, trace (snd (start E w)) = trace w ++ UseMultiFileAuthState :: rest.
Proof.
  unfold start, try_catch, bind, await, makeWASocket, setInterval, processExit,
    perform, gets, modify, ret, throw, bind.
  cbn.
  destruct (answer E (trace w) UseMultiFileAuthState); cbn;
    try (eexists; rewrite <- app_assoc; reflexivity).
  destruct (answer E (trace w ++ [UseMultiFileAuthState]) FetchLatestBaileysVersion); cbn;
    try (eexists; rewrite <- !app_assoc; reflexivity).
  destruct (answer E ((trace w ++ [UseMultiFileAuthState]) ++ [FetchLatestBaileysVersion])
              (MakeWASocket (useQR w))); cbn;
    eexists; rewrite <- !app_assoc; reflexivity.
Qed.

Lemma isLoggedOut_true (ld : LastDisconnect) :
  isLoggedOut ld = true <-> statusCode ld = Some loggedOut.
Proof.
  unfold isLoggedOut. destruct (statusCode ld) as [c|]; [|split; discriminate].
  rewrite Z.eqb_eq. split; [now intros -> | now intros [= ->]].
Qed.

(** C3.  A closure whose cause is the logged-out reason starts nothing:
    the handler returns with the world untouched, and in whatever events
    follow, as long as none of them is a recoverable closure, no call
    reaches the protocol engine to connect, no socket is made and no timer
    is registered.  A closure with any other cause (a missing status code
    included) runs [start], whose first act is to load the auth state for
    a new connection. *)
Theorem close_restarts_unless_logged_out
  (cfg : config) (E : env) (Matrix : nat) (ld : LastDisconnect) (w : world) :
  (statusCode ld = Some loggedOut ->
   connectionUpdate cfg Matrix (closeUpdate ld) E w = (Ret tt, w) /\
   forall evs,
     forallb (fun ev => negb (isRecoverableClose ev)) evs = true ->
     connects (trace (snd (run cfg evs E w))) = connects (trace w) /\
     sockets (snd (run cfg evs E w)) = sockets w /\
     intervals (snd (run cfg evs E w)) = intervals w)
  /\
  (statusCode ld <> Some loggedOut ->
   connectionUpdate cfg Matrix (closeUpdate ld) E w = start E w /\
   exists rest,
     trace (snd (connectionUpdate cfg Matrix (closeUpdate ld) E w))
     = trace w ++ UseMultiFileAuthState :: rest).
Proof.
  split; intros Hcause.
  - apply isLoggedOut_true in Hcause. rewrite connectionUpdate_close, Hcause.
    split; [reflexivity|]. intros evs Hevs.
    destruct (steady_run cfg E evs w Hevs) as (_ & _ & Hs & Hi & _ & Hc & _).
    repeat split; assumption.
  - assert (Hout : isLoggedOut ld = false).
    { destruct (isLoggedOut ld) eqn:H; [|reflexivity].
      apply isLoggedOut_true in H. contradiction. }
    rewrite connectionUpdate_close, Hout. split; [reflexivity|].
    apply start_trace_head.
Qed.

Lemma close_restarts_unless_logged_out_witness :
  let cfg := sampleConfig None "" in
  let w := snd (init cfg sampleEnv (initial_world (Some "{}"))) in
  connectionUpdate cfg 0 (closeUpdate loggedOutClose) sampleEnv w = (Ret tt, w) /\
  connectionUpdate cfg 0 (closeUpdate connectionClosed) sampleEnv w = start sampleEnv w.
Proof.
  intros cfg w. split.
  - apply (proj1 (close_restarts_unless_logged_out cfg sampleEnv 0 loggedOutClose w)).
    reflexivity.
  - apply (proj2 (close_restarts_unless_logged_out cfg sampleEnv 0 connectionClosed w)).
    discriminate.
Defined.

(** A logged-out closure, then traffic and a timer: one socket, as before. *)
Example logged_out_run :
  let cfg := sampleConfig None "" in
  let w := snd (init cfg sampleEnv (initial_world (Some "{}"))) in
  let w' := snd (run cfg
                   [ConnectionUpdateEvent 0 (closeUpdate loggedOutClose);
                    MessagesUpsertEvent 0 [inbound "M1" "254711111111@s.whatsapp.net" "hi"];
                    IntervalElapsed 0]
                   sampleEnv w) in
  sockets w = 1 /\ sockets w' = 1 /\ intervals w' = [0] /\
  connects (trace w') = connects (trace w).
Proof. vm_compute. repeat split. Qed.

(** ** Restart after a recoverable closure *)

Lemma start_bootstrapCalls (E : env) (w : world) :
  bootstrapCalls (trace (snd (start E w))) = bootstrapCalls (trace w).
Proof.
  unfold start, try_catch, bind, await, makeWASocket, setInterval, processExit,
    perform, gets, modify, ret, throw, bind, bootstrapCalls.
  cbn.
  destruct (answer E (trace w) UseMultiFileAuthState); cbn;
    rewrite ?filter_app; cbn; rewrite ?app_nil_r; try reflexivity.
  destruct (answer E (trace w ++ [UseMultiFileAuthState]) FetchLatestBaileysVersion); cbn;
    rewrite ?filter_app; cbn; rewrite ?app_nil_r; try reflexivity.
  destruct (answer E ((trace w ++ [UseMultiFileAuthState]) ++ [FetchLatestBaileysVersion])
              (MakeWASocket (useQR w))); cbn;
    rewrite ?filter_app; cbn; rewrite ?app_nil_r; reflexivity.
Qed.

(** C5, as the code has it.  A closure with a recoverable cause is
    answered by [start] alone: the auth state is loaded from the session
    directory, a socket is made and a timer registered (or the process
    exits).  None of the bootstrap steps of [init] is run again: the
    credential file is neither probed nor written, nothing is downloaded,
    and the pairing flag stays as it was. *)
Theorem restart_runs_start_only
  (cfg : config) (E : env) (Matrix : nat) (ld : LastDisconnect) (w : world) :
  statusCode ld <> Some loggedOut ->
  connectionUpdate cfg Matrix (closeUpdate ld) E w = start E w /\
  bootstrapCalls (trace (snd (connectionUpdate cfg Matrix (closeUpdate ld) E w)))
  = bootstrapCalls (trace w) /\
  credsFile (snd (connectionUpdate cfg Matrix (closeUpdate ld) E w)) = credsFile w /\
  useQR (snd (connectionUpdate cfg Matrix (closeUpdate ld) E w)) = useQR w.
Proof.
  intros Hcause.
  assert (Hout : isLoggedOut ld = false).
  { destruct (isLoggedOut ld) eqn:H; [|reflexivity].
    apply isLoggedOut_true in H. contradiction. }
  rewrite connectionUpdate_close, Hout.
  destruct (start_cases E w) as (_ & Hfile & Hqr & _).
  repeat split; [apply start_bootstrapCalls | exact Hfile | exact Hqr].
Qed.

(** *** A restart that [init] would have answered differently *)

Example failed_legacy_bootstrap_run :
  credsFile afterFailedLegacyBootstrap = None /\
  useQR afterFailedLegacyBootstrap = true /\
  trace afterFailedLegacyBootstrap =
    [ExistsSync; MegaDownload "https://mega.nz/file/AbCdEfGh#Key123";
     UseMultiFileAuthState; FetchLatestBaileysVersion; MakeWASocket true;
     SetInterval 0 600000].
Proof. vm_compute. repeat split. Qed.

(** The closure does not retry the download: the credential file stays
    absent, where [init] would have fetched and written it. *)
Example restart_skips_bootstrap_run :
  let w := snd (connectionUpdate legacyConfig 0 (closeUpdate timedOut) archiveDownOnce
                  afterFailedLegacyBootstrap) in
  let w' := snd (init legacyConfig archiveDownOnce afterFailedLegacyBootstrap) in
  credsFile w = None /\ bootstrapCalls (trace w) = bootstrapCalls (trace afterFailedLegacyBootstrap) /\
  credsFile w' = Some "{}".
Proof. vm_compute. repeat split. Qed.

Lemma restart_does_not_rerun_bootstrap :
  ~ restartRerunsBootstrap legacyConfig archiveDownOnce 0 timedOut afterFailedLegacyBootstrap.
Proof.
  unfold restartRerunsBootstrap. intros H.
  apply (f_equal (fun r => credsFile (snd r))) in H.
  vm_compute in H. discriminate H.
Qed.

Lemma restart_runs_start_only_witness :
  connectionUpdate legacyConfig 0 (closeUpdate timedOut) archiveDownOnce
    afterFailedLegacyBootstrap
  = start archiveDownOnce afterFailedLegacyBootstrap /\
  credsFile (snd (connectionUpdate legacyConfig 0 (closeUpdate timedOut) archiveDownOnce
                    afterFailedLegacyBootstrap)) = credsFile afterFailedLegacyBootstrap.
Proof.
  assert (Hcause : statusCode timedOut <> Some loggedOut) by discriminate.
  destruct (restart_runs_start_only legacyConfig archiveDownOnce 0 timedOut
              afterFailedLegacyBootstrap Hcause) as (H1 & _ & H3 & _).
  split; [exact H1 | exact H3].
Defined.

(** ** Delete recovery *)

(** The third handler returns at its guard for every message that carries
    a [protocolMessage]: a deletion notice never reaches
    [handleAntiDelete]. *)
Lemma upsertFeatures_protocol_guard
  (cfg : config) (E : env) (Matrix : nat) (w : world)
  (mek : WebMessage) (rest : list WebMessage)
  (k : MessageKey) (msg : Message) (pm : ProtocolMessage) :
  key mek = Some k -> message mek = Some msg -> protocolMessage msg = Some pm ->
  upsertFeatures cfg Matrix (mek :: rest) E w = (Ret tt, w).
Proof.
  intros Hk Hm Hp. unfold upsertFeatures, try_catch. simpl.
  rewrite Hk, Hm, Hp. now destruct (fromMe k).
Qed.

(** C1, on the code.  With "Hello world" retained under [M1] and the
    feature enabled, the inbound deletion notice for [M1] is stored like
    any message and then dropped at the guard of the third handler: nothing
    is sent and [M1] stays in the cache. *)
Theorem deletion_notice_not_recovered :
  let w1 := retaining sampleEnv in
  let w2 := snd (dispatch ownerConfig (MessagesUpsertEvent 0 [deletionNotice]) sampleEnv w1) in
  option_map (fun e => message (stored e)) (JsMap.get "M1" (messageStore w1))
    = Some (Some (textMessage "Hello world")) /\
  fst (dispatch ownerConfig (MessagesUpsertEvent 0 [deletionNotice]) sampleEnv w1)
    = [Settled; Settled] /\
  sends (trace w2) = [] /\
  JsMap.get "M1" (messageStore w2) = JsMap.get "M1" (messageStore w1) /\
  JsMap.keys (messageStore w2) = ["M1"; "D1"].
Proof. vm_compute. repeat split. Qed.

(** Called on the notice directly, [handleAntiDelete] does what the
    specification describes: report, resend of the original text to the
    chat, supplementary notice, removal. *)
Example handleAntiDelete_recovers_run :
  let w1 := retaining sampleEnv in
  let w2 := snd (handleAntiDelete ownerConfig deletionNotice 0 sampleEnv w1) in
  map fst (sends (trace w2)) = [ownerJid; chatJid; chatJid] /\
  nth_error (sends (trace w2)) 1 = Some (chatJid, Forward (textMessage "Hello world")) /\
  JsMap.get "M1" (messageStore w2) = None.
Proof. vm_compute. repeat split. Qed.

(** The report send of line 285 is awaited outside the inner [try]: with
    the owner out of reach, control goes to the outer [catch], the
    original is not resent to the chat, no fallback is sent, and the entry
    stays in the cache. *)
Example report_failure_run :
  let w1 := retaining ownerUnreachable in
  let r := handleAntiDelete ownerConfig deletionNotice 0 ownerUnreachable w1 in
  fst r = Ret tt /\
  map fst (sends (trace (snd r))) = [ownerJid] /\
  JsMap.get "M1" (messageStore (snd r)) = JsMap.get "M1" (messageStore w1) /\
  option_map (fun e => message (stored e)) (JsMap.get "M1" (messageStore (snd r)))
    = Some (Some (textMessage "Hello world")).
Proof. vm_compute. repeat split. Qed.




(** The same failure, for every matched notice: whenever a report
    recipient is configured and the report send fails, [recover] ends
    there, with no send to the chat and the cache as it was. *)
Lemma recover_aborts_on_report_failure
  (cfg : config) (E : env) (Matrix : nat) (deletedMsgKey : MessageKey) (id : string)
  (storedMessage : StoredMessage) (w : world) (e : exn) :
  ownerConfigured cfg = true ->
  (forall body', answer E (trace w ++ [DateNow]) (SendMessage Matrix (BOT_OWNER cfg) body' None)
                 = Rejects e) ->
  fst (recover cfg Matrix deletedMsgKey id storedMessage E w) = Throw e /\
  messageStore (snd (recover cfg Matrix deletedMsgKey id storedMessage E w)) = messageStore w /\
  List.length (sends (trace (snd (recover cfg Matrix deletedMsgKey id storedMessage E w))))
  = S (List.length (sends (trace w))).
Proof.
  intros Howner Hfail.
  unfold recover. rewrite Howner.
  cbv [bind asks momentNow dateNow ret await perform throw].
  cbn [trace set_trace]. rewrite Hfail. cbn [fst snd messageStore set_trace trace].
  repeat split.
  unfold sends. rewrite !flat_map_app. cbn [flat_map]. rewrite !length_app. simpl. lia.
Qed.

(** ** Callers of the reconciler *)

(** Neither caller catches what the reconciler throws. *)
Lemma callers_do_not_catch
  (cfg : config) (E : env) (Matrix : nat) (w : world) (e : exn) :
  fst (handleAutoJoinGroups cfg (MANDATORY_GROUPS cfg) Matrix E w) = Throw e ->
  fst (intervalCallback cfg Matrix E w) = UnhandledRejection e /\
  (initialConnection w = false ->
   fst (fireAndForget (connectionUpdate cfg Matrix openUpdate) E w) = UnhandledRejection e).
Proof.
  intros Hthrow. split.
  - unfold intervalCallback, fireAndForget.
    destruct (handleAutoJoinGroups cfg (MANDATORY_GROUPS cfg) Matrix E w) as [[s|e'] w'];
      simpl in *; congruence.
  - intros Hfirst. unfold fireAndForget, connectionUpdate, openUpdate. simpl.
    unfold bind at 1. unfold gets. rewrite Hfirst. unfold bind at 1.
    destruct (handleAutoJoinGroups cfg (MANDATORY_GROUPS cfg) Matrix E w) as [[s|e'] w'];
      simpl in *; congruence.
Qed.

(** C8, on the code.  With a report recipient configured and a socket
    whose send throws at the summary stage, the run rethrows (line 564);
    the timer callback and the connection-open handler both leave the
    rejection unhandled, and the open handler neither sends the connect
    notice nor clears the first-connection flag. *)
Theorem reconciler_error_is_unhandled :
  let w := snd (init ownerConfig sendThrows (initial_world (Some "{}"))) in
  let e := {| exn_message := Some "Connection Closed" |} in
  fst (handleAutoJoinGroups ownerConfig (MANDATORY_GROUPS ownerConfig) 0 sendThrows w)
    = Throw e /\
  fst (dispatch ownerConfig (IntervalElapsed 0) sendThrows w) = [UnhandledRejection e] /\
  fst (dispatch ownerConfig (ConnectionUpdateEvent 0 openUpdate) sendThrows w)
    = [UnhandledRejection e] /\
  initialConnection
    (snd (dispatch ownerConfig (ConnectionUpdateEvent 0 openUpdate) sendThrows w)) = true.
Proof. vm_compute. repeat split. Qed.

(** ** Batches of inbound messages *)

#[local] Instance within_Frame (ids : list string) : Frame (within ids) (fun _ => true).
Proof.
  split.
  - intros w k Hk. apply in_app_iff. now right.
  - intros a b c Hab Hbc k Hk. specialize (Hbc k Hk). apply in_app_iff in Hbc.
    destruct Hbc as [Hbc|Hbc]; [apply in_app_iff; now left | now apply Hab].
  - intros c w _ k Hk. apply in_app_iff. now right.
Qed.

Lemma In_keys_put (id k : string) (mek : WebMessage) (now : Z) (m : JsMap.t) :
  In k (JsMap.keys (messageStore_put id mek now m)) -> k = id \/ In k (JsMap.keys m).
Proof.
  unfold messageStore_put.
  destruct (1000 <? JsMap.size _)%nat.
  - destruct (JsMap.sort _) as [|[oldestKey v] r].
    + apply JsMapFacts.In_keys_set.
    + intros Hk. apply JsMapFacts.In_keys_delete in Hk.
      now apply JsMapFacts.In_keys_set in Hk.
  - apply JsMapFacts.In_keys_set.
Qed.

Lemma within_put (id : string) (mek : WebMessage) (now : Z) :
  Keeps (within [id])
    (modify (fun w => set_messageStore (messageStore_put id mek now (messageStore w)) w)).
Proof.
  intros E w k Hk. simpl in Hk. apply In_keys_put in Hk.
  destruct Hk as [->|Hk]; [now left | now right].
Qed.

Lemma within_set (id : string) (f : world -> StoredMessage) :
  Keeps (within [id])
    (modify (fun w => set_messageStore (JsMap.set id (f w) (messageStore w)) w)).
Proof.
  intros E w k Hk. simpl in Hk. apply JsMapFacts.In_keys_set in Hk.
  destruct Hk as [->|Hk]; [now left | now right].
Qed.

Lemma within_delete (ids : list string) (id : string) :
  Keeps (within ids)
    (modify (fun w => set_messageStore (JsMap.delete id (messageStore w)) w)).
Proof.
  intros E w k Hk. simpl in Hk. apply JsMapFacts.In_keys_delete in Hk.
  apply in_app_iff. now right.
Qed.

#[local] Hint Resolve within_put within_set within_delete : keeps.

Section Batches.

Variable cfg : config.

Lemma within_recover (Matrix : nat) (k : MessageKey) (id : string) (sm : StoredMessage) :
  Keeps (within [id]) (recover cfg Matrix k id sm).
Proof. unfold recover. keeps_all. Qed.

Lemma within_handleAntiDelete (mek : WebMessage) (Matrix : nat) :
  Keeps (within []) (handleAntiDelete cfg mek Matrix).
Proof.
  unfold handleAntiDelete.
  apply Keeps_try_catch; [|intros e; apply Keeps_ret].
  destruct (negb (ANTI_DELETE cfg)); [apply Keeps_ret|].
  destruct (message mek) as [msg|]; [|apply Keeps_ret].
  destruct (protocolMessage msg) as [pm|]; [|apply Keeps_ret].
  destruct (protoType pm) as [[| |]|]; try apply Keeps_ret.
  destruct (protoKey pm) as [deletedMsgKey|]; [|apply Keeps_throw].
  destruct (msgId deletedMsgKey) as [id|]; [|apply Keeps_ret].
  intros E w. unfold bind, gets.
  destruct (JsMap.get id (messageStore w)) as [sm|] eqn:Hget; [|apply frame_refl].
  intros k Hk. apply (within_recover Matrix deletedMsgKey id sm E w) in Hk.
  destruct Hk as [<-|Hk]; [|exact Hk].
  simpl. now apply JsMapFacts.get_Some_key in Hget.
Qed.

Lemma within_handleAutoViewStatus (mek : WebMessage) (Matrix : nat) :
  Keeps (within []) (handleAutoViewStatus cfg mek Matrix).
Proof. unfold handleAutoViewStatus. keeps_all. Qed.

Lemma within_handleAutoLikeStatus (mek : WebMessage) (Matrix : nat) :
  Keeps (within []) (handleAutoLikeStatus cfg mek Matrix).
Proof. unfold handleAutoLikeStatus. keeps_all. Qed.

Lemma within_upsertFeatures (Matrix : nat) (messages : list WebMessage) :
  Keeps (within []) (upsertFeatures cfg Matrix messages).
Proof.
  unfold upsertFeatures. apply Keeps_try_catch; [|intros e; apply Keeps_ret].
  destruct (nth_error messages 0) as [mek|]; [|apply Keeps_throw].
  destruct (key mek) as [k|]; [|apply Keeps_throw].
  cbv zeta. destruct (message mek) as [msg|]; [|apply Keeps_ret].
  destruct (fromMe k); [apply Keeps_ret|].
  destruct (protocolMessage msg); [apply Keeps_ret|].
  destruct (ephemeralMessage msg || reactionMessage msg); [apply Keeps_ret|].
  apply Keeps_bind; [apply within_handleAntiDelete | intros _].
  apply Keeps_bind; [apply within_handleAutoViewStatus | intros _].
  apply Keeps_bind; [apply within_handleAutoLikeStatus | intros _].
  keeps_all.
Qed.

Lemma within_upsertStore (mek : WebMessage) (rest : list WebMessage) (E : env) (w : world)
  (k : string) :
  In k (JsMap.keys (messageStore (snd (upsertStore cfg (mek :: rest) E w)))) ->
  In k (JsMap.keys (messageStore w)) \/ keyField msgId mek = Some k.
Proof.
  unfold upsertStore. simpl.
  destruct (keyField msgId mek) as [id|]; [|now left].
  destruct (message mek); [|now left].
  destruct (key mek) as [k0|]; [|now left].
  destruct (JsString.truthy id && negb (fromMe k0) && ANTI_DELETE cfg); [|now left].
  intros Hk.
  assert (Hkeeps : Keeps (within [id])
            (now <- dateNow ;;
             modify (fun w => set_messageStore (messageStore_put id mek now (messageStore w)) w)))
    by keeps_all.
  apply (Hkeeps E w) in Hk. destruct Hk as [<-|Hk]; [now right | now left].
Qed.

End Batches.

(** C9.  Every [messages.upsert] handler reads [messages[0]] and nothing
    else: the retention step, the feature handler and the whole dispatch
    give the same result and the same world whatever follows the first
    message in the batch, and after the event the cache holds no
    identifier beyond those it held before and that of the first
    message. *)
Theorem upsert_reads_first_only
  (cfg : config) (E : env) (Matrix : nat) (w : world)
  (mek : WebMessage) (rest rest' : list WebMessage) :
  upsertStore cfg (mek :: rest) E w = upsertStore cfg (mek :: rest') E w /\
  upsertFeatures cfg Matrix (mek :: rest) E w = upsertFeatures cfg Matrix (mek :: rest') E w /\
  dispatch cfg (MessagesUpsertEvent Matrix (mek :: rest)) E w
  = dispatch cfg (MessagesUpsertEvent Matrix (mek :: rest')) E w /\
  (forall k,
     In k (JsMap.keys (messageStore
            (snd (dispatch cfg (MessagesUpsertEvent Matrix (mek :: rest)) E w)))) ->
     In k (JsMap.keys (messageStore w)) \/ keyField msgId mek = Some k).
Proof.
  repeat split.
  intros k. unfold dispatch.
  destruct (exited w); [now left|].
  pose proof (@within_upsertStore cfg mek rest E w) as H1.
  rewrite <- snd_fireAndForget in H1.
  destruct (fireAndForget (upsertStore cfg (mek :: rest)) E w) as [c1 w1]. simpl in H1.
  pose proof (within_upsertFeatures cfg Matrix (mek :: rest) E w1) as H2.
  rewrite <- snd_fireAndForget in H2.
  destruct (fireAndForget (upsertFeatures cfg Matrix (mek :: rest)) E w1) as [c2 w2].
  simpl in *. intros Hk. apply H2 in Hk. now apply H1.
Qed.

(** A batch of three: a text, a second text and a status update.  Only
    the first is retained; the status at index 2 is neither marked read nor
    reacted to. *)
Example batch_run :
  let status :=
    {| key := Some {| msgId := Some "S1"; remoteJid := Some "status@broadcast";
                      participant := Some chatJid; fromMe := false |};
       message := Some (textMessage "my status"); pushName := Some "Bob" |} in
  let w0 := snd (init ownerConfig sampleEnv (initial_world (Some "{}"))) in
  let w := snd (dispatch ownerConfig
                  (MessagesUpsertEvent 0 [helloWorld; inbound "M2" chatJid "second"; status])
                  sampleEnv w0) in
  JsMap.keys (messageStore w) = ["M1"] /\
  filter (fun c => match c with ReadMessages _ _ => true | _ => false end) (trace w) = [] /\
  sends (trace w) = [].
Proof. vm_compute. repeat split. Qed.

(** The same status update alone in its batch is viewed and liked. *)
Example status_run :
  let status :=
    {| key := Some {| msgId := Some "S1"; remoteJid := Some "status@broadcast";
                      participant := Some chatJid; fromMe := false |};
       message := Some (textMessage "my status"); pushName := Some "Bob" |} in
  let w0 := snd (init ownerConfig sampleEnv (initial_world (Some "{}"))) in
  let w := snd (dispatch ownerConfig (MessagesUpsertEvent 0 [status]) sampleEnv w0) in
  JsMap.keys (messageStore w) = ["S1"] /\
  List.length (filter (fun c => match c with ReadMessages _ _ => true | _ => false end)
                 (trace w)) = 1 /\
  map fst (sends (trace w)) = ["status@broadcast"].
Proof. vm_compute. repeat split. Qed.

(** ** Group reconciliation *)

Lemma invites_app (t1 t2 : list call) : invites (t1 ++ t2) = invites t1 ++ invites t2.
Proof. unfold invites. apply flat_map_app. Qed.

Section Reconcile.

Variable Matrix : nat.
Variable E : env.

(** One turn never throws: it appends one entry, decided by how the
    invitation for the target ended, and invites exactly once. *)
Lemma joinTurn_spec (n i : nat) (g : Group) (c : Counters) (w : world) :
  exists w',
    joinTurn Matrix n i g c E w
    = (Ret (addOutcome c
              (turnOutcome g (answer E (trace w) (GroupAcceptInvite Matrix (acceptCode g))))),
       w') /\
    invites (trace w') = invites (trace w) ++ [(Matrix, acceptCode g)] /\
    messageStore w' = messageStore w.
Proof.
  unfold joinTurn, joinGroupByInviteCode, classifyJoinError.
  fold (acceptCode g).
  generalize (i <? n - 1)%nat. intros pause.
  cbv [try_catch bind await perform sleep modify ret throw].
  cbn [trace set_trace].
  unfold turnOutcome, addOutcome.
  destruct (answer E (trace w) (GroupAcceptInvite Matrix (acceptCode g))) as [|e|e];
    [ | destruct (exn_message e) as [message|];
        [ destruct (JsString.includes message "already");
          [ | destruct (JsString.includes message "invite"
                        || JsString.includes message "invalid");
              [ | destruct (JsString.includes message "rate"
                            || JsString.includes message "limit") ] ] | ]
      | destruct (exn_message e) as [message|];
        [ destruct (JsString.includes message "already");
          [ | destruct (JsString.includes message "invite"
                        || JsString.includes message "invalid");
              [ | destruct (JsString.includes message "rate"
                            || JsString.includes message "limit") ] ] | ] ];
    destruct pause; cbn; eexists; (split; [reflexivity|]); cbn;
      rewrite !invites_app; cbn; rewrite ?app_nil_r; split; reflexivity.
Qed.

Lemma joinLoop_spec (n : nat) (gs : list Group) :
  forall (i : nat) (c : Counters) (w : world),
  exists os w',
    joinLoop Matrix n i gs c E w = (Ret (fold_left addOutcome os c), w') /\
    Forall2 (outcomeOf Matrix E) gs os /\
    invites (trace w') = invites (trace w) ++ map (fun g => (Matrix, acceptCode g)) gs /\
    messageStore w' = messageStore w.
Proof.
  induction gs as [|g gs IH]; intros i c w.
  - exists [], w. simpl. repeat split; [constructor | now rewrite app_nil_r].
  - destruct (joinTurn_spec n i g c w) as (w1 & Hturn & Hinv1 & Hstore1).
    destruct (IH (S i)
                (addOutcome c
                   (turnOutcome g (answer E (trace w) (GroupAcceptInvite Matrix (acceptCode g)))))
                w1)
      as (os & w2 & Hloop & Hall & Hinv2 & Hstore2).
    exists (turnOutcome g (answer E (trace w) (GroupAcceptInvite Matrix (acceptCode g))) :: os), w2.
    repeat split.
    + simpl. unfold bind. rewrite Hturn. exact Hloop.
    + constructor; [now exists (trace w) | exact Hall].
    + rewrite Hinv2, Hinv1. simpl. now rewrite <- app_assoc.
    + congruence.
Qed.

Lemma fold_addOutcome (os : list Outcome) :
  forall c,
    joinedCount (fold_left addOutcome os c) = joinedCount c + countJoined os /\
    alreadyInCount (fold_left addOutcome os c) = alreadyInCount c + countAlready os /\
    failedCount (fold_left addOutcome os c) = failedCount c + countFailed os /\
    c_results (fold_left addOutcome os c) = c_results c ++ os.
Proof.
  unfold countJoined, countAlready, countFailed.
  induction os as [|o os IH]; intros c; simpl.
  - rewrite app_nil_r. repeat split; lia.
  - destruct (IH (addOutcome c o)) as (H1 & H2 & H3 & H4).
    rewrite H1, H2, H3, H4. unfold addOutcome. simpl.
    destruct (o_success o), (isAlready o); simpl; rewrite <- app_assoc; repeat split; lia.
Qed.

Lemma handleAutoJoinGroups_spec (cfg : config) (groups : list Group) (w : world) :
  (forall history jid body quoted x,
     answer E history (SendMessage Matrix jid body quoted) <> ThrowsSync x) ->
  exists os w',
    handleAutoJoinGroups cfg groups Matrix E w
    = (Ret {| total := List.length groups; joined := countJoined os;
              alreadyIn := countAlready os; failed := countFailed os; results := os |},
       w') /\
    Forall2 (outcomeOf Matrix E) groups os /\
    invites (trace w') = invites (trace w) ++ map (fun g => (Matrix, acceptCode g)) groups.
Proof.
  intros Hsend.
  destruct (joinLoop_spec (List.length groups) groups 0
              {| joinedCount := 0; alreadyInCount := 0; failedCount := 0; c_results := [] |} w)
    as (os & w1 & Hloop & Hall & Hinv & _).
  destruct (fold_addOutcome os
              {| joinedCount := 0; alreadyInCount := 0; failedCount := 0; c_results := [] |})
    as (H1 & H2 & H3 & H4).
  simpl in H1, H2, H3, H4.
  exists os.
  unfold handleAutoJoinGroups. cbv zeta.
  unfold try_catch, bind at 1. rewrite Hloop. rewrite H1, H2, H3, H4.
  destruct (ownerConfigured cfg).
  - cbv [bind momentNow dateNow asks ret await_catch perform throw].
    cbn [trace set_trace].
    match goal with
    | |- context [answer E ?h (SendMessage Matrix ?j ?b ?q)] =>
        pose proof (Hsend h j b q) as Hns;
        destruct (answer E h (SendMessage Matrix j b q)) as [|x|x]
    end.
    + eexists. split; [reflexivity|]. split; [exact Hall|].
      cbn. rewrite !invites_app. cbn. rewrite !app_nil_r. exact Hinv.
    + eexists. split; [reflexivity|]. split; [exact Hall|].
      cbn. rewrite !invites_app. cbn. rewrite !app_nil_r. exact Hinv.
    + now elim (Hns x).
  - cbv [bind ret]. exists w1. repeat split; assumption.
Qed.

Lemma turnOutcome_already_is_success (g : Group) (a : outcome) :
  isAlready (turnOutcome g a) = true -> o_success (turnOutcome g a) = true.
Proof.
  unfold turnOutcome.
  destruct a as [|e|e]; try reflexivity;
    (destruct (exn_message e) as [message|]; [|discriminate];
     destruct (JsString.includes message "already"); [reflexivity|];
     destruct (JsString.includes message "invite" || JsString.includes message "invalid");
       [discriminate|];
     destruct (JsString.includes message "rate" || JsString.includes message "limit");
       discriminate).
Qed.

Lemma counts_partition (gs : list Group) (os : list Outcome) :
  Forall2 (outcomeOf Matrix E) gs os ->
  countJoined os + countAlready os + countFailed os = List.length os /\
  (forall o, In o os -> isAlready o = true -> o_success o = true).
Proof.
  unfold countJoined, countAlready, countFailed.
  induction 1 as [|g o gs os Ho Hall IH]; simpl; [split; [reflexivity | intros o []]|].
  destruct IH as [IH1 IH2].
  destruct Ho as [history ->].
  pose proof (@turnOutcome_already_is_success g
                (answer E history (GroupAcceptInvite Matrix (acceptCode g)))) as Hcons.
  split.
  - destruct (o_success (turnOutcome g _)), (isAlready (turnOutcome g _)); simpl;
      try lia; specialize (Hcons eq_refl); discriminate.
  - intros o [<-|Hin]; [exact Hcons | now apply IH2].
Qed.

End Reconcile.

Lemma turnOutcome_group (g : Group) (a : outcome) : group (turnOutcome g a) = name g.
Proof.
  unfold turnOutcome.
  destruct a as [|e|e]; try reflexivity;
    (destruct (exn_message e) as [message|]; [|reflexivity];
     destruct (JsString.includes message "already"); [reflexivity|];
     destruct (JsString.includes message "invite" || JsString.includes message "invalid");
       [reflexivity|];
     destruct (JsString.includes message "rate" || JsString.includes message "limit");
       reflexivity).
Qed.

Lemma outcomes_in_target_order (Matrix : nat) (E : env) (gs : list Group) (os : list Outcome) :
  Forall2 (outcomeOf Matrix E) gs os -> map group os = map name gs.
Proof.
  induction 1 as [|g o gs os [history ->] _ IH]; simpl; [reflexivity|].
  now rewrite turnOutcome_group, IH.
Qed.

(** [joinGroupByInviteCode] throws only when what the invitation threw
    carries no message text. *)
Lemma join_throws_only_without_message
  (Matrix : nat) (code g : string) (E : env) (w w' : world) (e : exn) :
  joinGroupByInviteCode Matrix code g E w = (Throw e, w') ->
  exists x,
    (answer E (trace w) (GroupAcceptInvite Matrix (codeOf code)) = Rejects x \/
     answer E (trace w) (GroupAcceptInvite Matrix (codeOf code)) = ThrowsSync x) /\
    exn_message x = None.
Proof.
  unfold joinGroupByInviteCode, classifyJoinError. fold (codeOf code).
  cbv [try_catch bind await perform sleep modify ret throw].
  cbn [trace set_trace].
  destruct (answer E (trace w) (GroupAcceptInvite Matrix (codeOf code))) as [|x|x];
    [discriminate | |];
    (destruct (exn_message x) as [message|] eqn:Hmessage;
     [ destruct (JsString.includes message "already"); [discriminate|];
       destruct (JsString.includes message "invite" || JsString.includes message "invalid");
         [discriminate|];
       destruct (JsString.includes message "rate" || JsString.includes message "limit");
         discriminate
     | intros _; exists x; split; [auto | exact Hmessage] ]).
Qed.


(** *** Runs over five targets *)

Example five_targets : map name (MANDATORY_GROUPS fiveConfig)
  = ["Group 1"; "Group 2"; "Group 3"; "Config Group 1"; "Config Group 2"].
Proof. reflexivity. Qed.

(** A throw of the invitation with a message is classified by the
    function itself and never reaches the catch of the loop: "already"
    makes it a success. *)
Example already_at_three_run :
  let r := handleAutoJoinGroups fiveConfig (MANDATORY_GROUPS fiveConfig) 0 alreadyAtThree
             (connected fiveConfig alreadyAtThree) in
  exists summary,
    fst r = Ret summary /\
    joined summary = 4 /\ alreadyIn summary = 1 /\ failed summary = 0 /\
    nth_error (results summary) 2
    = Some {| group := "Group 3"; o_success := true; o_error := None;
              o_alreadyInGroup := Some true |}.
Proof. vm_compute. eexists. repeat split. Qed.

Example mixed_answers_run :
  let r := handleAutoJoinGroups fiveConfig (MANDATORY_GROUPS fiveConfig) 0 mixedAnswers
             (connected fiveConfig mixedAnswers) in
  exists summary,
    fst r = Ret summary /\
    joined summary = 2 /\ alreadyIn summary = 1 /\ failed summary = 2 /\
    map o_error (results summary)
    = [None; None; Some "bad-request"; Some "Rate limit"; None] /\
    map classOf (results summary) = [None; None; Some other; Some rateLimited; None] /\
    invites (skipn (List.length (trace (connected fiveConfig mixedAnswers))) (trace (snd r)))
    = map (fun g => (0, acceptCode g)) (MANDATORY_GROUPS fiveConfig).
Proof. vm_compute. eexists. repeat split. Qed.

(** The join attempt for the third target throws, the second target is
    already joined: the third entry is the one the catch of the loop
    writes, without an already-member field. *)
Example third_throws_run :
  let r := handleAutoJoinGroups fiveConfig (MANDATORY_GROUPS fiveConfig) 0 thirdThrows
             (connected fiveConfig thirdThrows) in
  exists summary,
    fst r = Ret summary /\
    joined summary = 3 /\ alreadyIn summary = 1 /\ failed summary = 1 /\
    map o_success (results summary) = [true; true; false; true; true] /\
    map o_alreadyInGroup (results summary)
    = [Some false; Some true; None; Some false; Some false] /\
    map classOf (results summary) = [None; None; Some other; None; None] /\
    invites (skipn (List.length (trace (connected fiveConfig thirdThrows))) (trace (snd r)))
    = map (fun g => (0, acceptCode g)) (MANDATORY_GROUPS fiveConfig).
Proof. vm_compute. eexists. repeat split. Qed.


(** ** Invitations of a run *)

#[local] Instance noInvite_Frame : Frame noInvite (fun c => negb (isInviteCall c)).
Proof.
  split.
  - intros w. reflexivity.
  - unfold noInvite. intros a b c Hab Hbc. congruence.
  - intros c w Hc. apply negb_true_iff in Hc. unfold noInvite. simpl.
    rewrite invites_app. destruct c; try discriminate; apply app_nil_r.
Qed.

#[local] Instance sameFlag_Frame : Frame sameFlag (fun _ => true).
Proof.
  split.
  - intros w. reflexivity.
  - unfold sameFlag. intros a b c Hab Hbc. congruence.
  - intros c w _. reflexivity.
Qed.

(** [try { x = await m; k(x) }] once [m] has returned. *)
Lemma try_catch_bind_ret {A B} (m : M A) (k : A -> M B) (h : exn -> M B)
    (E : env) (w w1 : world) (a : A) :
  m E w = (Ret a, w1) -> try_catch (bind m k) h E w = try_catch (k a) h E w1.
Proof. intros Hm. unfold try_catch, bind. now rewrite Hm. Qed.

(** Whatever happens to the report, the loop has invited every target. *)
Lemma handleAutoJoinGroups_invites
  (cfg : config) (groups : list Group) (Matrix : nat) (E : env) (w : world) :
  invites (trace (snd (handleAutoJoinGroups cfg groups Matrix E w)))
  = invites (trace w) ++ map (fun g => (Matrix, acceptCode g)) groups.
Proof.
  destruct (@joinLoop_spec Matrix E (List.length groups) groups 0
              {| joinedCount := 0; alreadyInCount := 0; failedCount := 0; c_results := [] |} w)
    as (os & w1 & Hloop & _ & Hinv & _).
  unfold handleAutoJoinGroups. cbv zeta.
  rewrite (@try_catch_bind_ret _ _ _ _ _ _ _ _ _ Hloop). rewrite <- Hinv.
  revert E w1 Hloop Hinv. intros E w1 _ _. revert E w1.
  match goal with
  | |- forall E w1, invites (trace (snd (?m E w1))) = _ =>
      change (Keeps noInvite m)
  end.
  keeps_all.
Qed.

(** ** Timers across reconnects *)

Section Periods.

Variable cfg : config.
Variable E : env.





End Periods.



(** Three reconnects: each of the four timers runs the reconciler against
    its own socket, twelve invitations in one period. *)
Example period_after_three_reconnects :
  let cfg := sampleConfig None "" in
  let evs := [ConnectionUpdateEvent 0 (closeUpdate connectionClosed);
              ConnectionUpdateEvent 1 (closeUpdate connectionClosed);
              ConnectionUpdateEvent 2 (closeUpdate connectionClosed)] in
  let w := snd (run cfg evs sampleEnv (snd (init cfg sampleEnv (initial_world (Some "{}"))))) in
  let w' := snd (period cfg sampleEnv w) in
  intervals w = [0; 1; 2; 3] /\
  filter (fun c => match c with GroupAcceptInvite _ _ => true | _ => false end) (trace w')
  = flat_map (fun sock => map (fun g => GroupAcceptInvite sock (inviteCode g)) builtin_groups)
      [0; 1; 2; 3].
Proof. vm_compute. repeat split. Qed.

(* ================================================================== *)
(** * Further properties of the script *)
(* ================================================================== *)

(** ** Connecting *)

(** X1.  [start] never raises.  When the three engine steps succeed it
    registers exactly one socket, created with the pairing flag as it
    stands, and one timer for it; when any of them fails, the process
    exits with code 1, nothing is registered, and the calls made are
    engine steps only. *)
Theorem start_connects_or_exits (E : env) (w : world) :
  fst (start E w) = Ret tt /\
  if engineUp E w
  then snd (start E w)
       = set_intervals (intervals w ++ [sockets w])
           (set_trace (trace w ++ engineTrace w) (set_sockets (S (sockets w)) w))
  else exited (snd (start E w)) = true /\
       sockets (snd (start E w)) = sockets w /\
       intervals (snd (start E w)) = intervals w /\
       exists calls,
         trace (snd (start E w)) = trace w ++ calls ++ [ProcessExit 1] /\
         forallb isConnectCall calls = true.
Proof.
  unfold engineUp, start, try_catch, bind, makeWASocket, setInterval, processExit,
    await, bind, perform, gets, modify, ret, throw.
  cbn.
  destruct (answer E (trace w) UseMultiFileAuthState); cbn;
    try (repeat split; exists [UseMultiFileAuthState]; split;
         [now rewrite <- app_assoc | reflexivity]).
  destruct (answer E (trace w ++ [UseMultiFileAuthState]) FetchLatestBaileysVersion); cbn;
    try (repeat split; exists [UseMultiFileAuthState; FetchLatestBaileysVersion]; split;
         [now rewrite <- !app_assoc | reflexivity]).
  destruct (answer E ((trace w ++ [UseMultiFileAuthState]) ++ [FetchLatestBaileysVersion])
              (MakeWASocket (useQR w))); cbn;
    try (repeat split;
         exists [UseMultiFileAuthState; FetchLatestBaileysVersion; MakeWASocket (useQR w)];
         split; [now rewrite <- !app_assoc | reflexivity]).
  split; [reflexivity|].
  unfold set_intervals, set_trace, set_sockets, engineTrace. cbn.
  now rewrite <- !app_assoc.
Qed.

(** ** The credential bootstrap *)

(** A buffer either starts with the gzip magic bytes, and the test of line
    139 takes the first branch, or it does not, and the test takes the
    other one. *)
Lemma magic_cases (l : list byte) :
  ((exists r, l = x1f :: x8b :: r) /\
   (forall (A : Type) (f g : A),
      match l with
      | x1f :: x8b :: _ => f
      | _ => g
      end = f))
  \/
  (forall (A : Type) (f g : A),
     match l with
     | x1f :: x8b :: _ => f
     | _ => g
     end = g).
Proof.
  destruct l as [|b1 [|b2 r]];
    [right; intros A f g; reflexivity | right; intros A f g; now destruct b1 |].
  destruct b1; try (right; intros A f g; reflexivity).
  destruct b2; try (right; intros A f g; reflexivity).
  left. split; [now exists r | reflexivity].
Qed.

(** The three ways [loadGiftedSession] can end. *)
Lemma loadGiftedSession_cases (cfg : config) (E : env) (w : world) :
  loadGiftedSession cfg E w = (Ret false, w) \/
  exists sid d,
    SESSION_ID cfg = Some sid /\ JsString.startsWith sid "Buddy~" = true /\
    (exists r, giftedBytes sid = x1f :: x8b :: r) /\
    gunzip E (giftedBytes sid) = Done d /\
    ((answer E (trace w) (WriteFile (toString_utf8 E d)) <> Resolves /\
      loadGiftedSession cfg E w
      = (Ret false, set_trace (trace w ++ [WriteFile (toString_utf8 E d)]) w))
     \/
     (answer E (trace w) (WriteFile (toString_utf8 E d)) = Resolves /\
      loadGiftedSession cfg E w
      = (Ret true,
         set_credsFile (Some (toString_utf8 E d))
           (set_trace (trace w ++ [WriteFile (toString_utf8 E d)]) w)))).
Proof.
  remember (loadGiftedSession cfg E w) as res eqn:Hres.
  unfold loadGiftedSession in Hres.
  destruct (SESSION_ID cfg) as [sid|]; [|now left].
  destruct (negb (JsString.truthy sid)); [now left|].
  destruct (JsString.startsWith sid "Buddy~") eqn:Hstart; [|now left].
  cbv zeta in Hres. fold (giftedBytes sid) in Hres.
  destruct (magic_cases (giftedBytes sid)) as [[Hr Hyes]|Hno].
  - rewrite Hyes in Hres.
    cbv [try_catch bind asks writeFile await perform modify ret throw] in Hres.
    cbn [trace set_trace] in Hres.
    destruct (gunzip E (giftedBytes sid)) as [d|e] eqn:Hunzip; [|now left].
    right. exists sid, d. split; [reflexivity|]. split; [exact Hstart|].
    split; [exact Hr|]. split; [exact Hunzip|].
    destruct (answer E (trace w) (WriteFile (toString_utf8 E d))) eqn:Hwrite.
    + right. split; [reflexivity | exact Hres].
    + left. split; [discriminate | exact Hres].
    + left. split; [discriminate | exact Hres].
  - left. rewrite Hno in Hres. exact Hres.
Qed.

(** X2.  [loadGiftedSession] never raises, and it reports success exactly
    when it has written the credential file: the file then holds the text
    of the decompressed bytes of the session identifier.  When it reports
    failure the credential file is as it was. *)
Theorem loadGiftedSession_true_iff_written (cfg : config) (E : env) (w : world) :
  exists b,
    fst (loadGiftedSession cfg E w) = Ret b /\
    if b
    then exists sid d,
           SESSION_ID cfg = Some sid /\
           gunzip E (giftedBytes sid) = Done d /\
           credsFile (snd (loadGiftedSession cfg E w)) = Some (toString_utf8 E d) /\
           trace (snd (loadGiftedSession cfg E w))
           = trace w ++ [WriteFile (toString_utf8 E d)]
    else credsFile (snd (loadGiftedSession cfg E w)) = credsFile w.
Proof.
  destruct (loadGiftedSession_cases cfg E w)
    as [->|(sid & d & Hsid & _ & _ & Hunzip & [[_ ->]|[_ ->]])].
  - now exists false.
  - now exists false.
  - exists true. split; [reflexivity|]. now exists sid, d.
Qed.

(** X3.  A session identifier whose decoded bytes do not start with the
    gzip magic bytes is refused before anything happens: no decompression
    is attempted, no file is written, nothing is raised. *)
Theorem loadGiftedSession_rejects_non_gzip
  (cfg : config) (E : env) (w : world) (sid : string) :
  SESSION_ID cfg = Some sid ->
  (forall r, giftedBytes sid <> x1f :: x8b :: r) ->
  loadGiftedSession cfg E w = (Ret false, w).
Proof.
  intros Hsid Hmagic.
  destruct (loadGiftedSession_cases cfg E w)
    as [H|(sid' & d & Hsid' & _ & [r Hr] & _)]; [exact H|].
  rewrite Hsid in Hsid'. injection Hsid' as <-. now elim (Hmagic r).
Qed.

Lemma loadGiftedSession_rejects_non_gzip_witness :
  loadGiftedSession (sampleConfig (Some "Buddy~SGVsbG8gd29ybGQ=") "") sampleEnv
    (initial_world None)
  = (Ret false, initial_world None).
Proof.
  apply (@loadGiftedSession_rejects_non_gzip _ _ _ "Buddy~SGVsbG8gd29ybGQ=").
  - reflexivity.
  - intros r. vm_compute. discriminate.
Defined.

(** The ways [downloadLegacySession] can end. *)
Lemma downloadLegacySession_cases (cfg : config) (E : env) (w : world) :
  downloadLegacySession cfg E w = (Ret false, w) \/
  exists sid sessdata,
    SESSION_ID cfg = Some sid /\
    nth_error (JsString.split sid "Buddy~") 1 = Some sessdata /\
    JsString.includes sessdata "#" = true /\
    let w1 := set_trace (trace w ++ [MegaDownload (legacyUrl sessdata)]) w in
    let data := downloaded E (trace w1) in
    (answer E (trace w) (MegaDownload (legacyUrl sessdata)) <> Resolves /\
     downloadLegacySession cfg E w = (Ret false, w1))
    \/
    (answer E (trace w) (MegaDownload (legacyUrl sessdata)) = Resolves /\
     answer E (trace w1) (WriteFile data) <> Resolves /\
     downloadLegacySession cfg E w = (Ret false, set_trace (trace w1 ++ [WriteFile data]) w1))
    \/
    (answer E (trace w) (MegaDownload (legacyUrl sessdata)) = Resolves /\
     answer E (trace w1) (WriteFile data) = Resolves /\
     downloadLegacySession cfg E w
     = (Ret true, set_credsFile (Some data) (set_trace (trace w1 ++ [WriteFile data]) w1))).
Proof.
  remember (downloadLegacySession cfg E w) as res eqn:Hres.
  unfold downloadLegacySession in Hres.
  destruct (SESSION_ID cfg) as [sid|]; [|now left].
  destruct (negb (JsString.truthy sid)); [now left|].
  destruct (nth_error (JsString.split sid "Buddy~") 1) as [sessdata|] eqn:Hnth; [|now left].
  destruct (negb (JsString.truthy sessdata)); [now left|].
  destruct (JsString.includes sessdata "#") eqn:Hhash; [|now left].
  cbv zeta in Hres. fold (legacyUrl sessdata) in Hres.
  cbv [negb orb try_catch bind writeFile await perform modify ret throw] in Hres.
  cbn [trace set_trace] in Hres.
  right. exists sid, sessdata. split; [reflexivity|]. split; [exact Hnth|].
  split; [exact Hhash|]. cbv zeta. cbn [trace set_trace].
  destruct (answer E (trace w) (MegaDownload (legacyUrl sessdata))) eqn:Hload;
    [ | left; split; [discriminate | exact Hres] | left; split; [discriminate | exact Hres] ].
  right. cbn [trace set_trace] in Hres.
  destruct (answer E (trace w ++ [MegaDownload (legacyUrl sessdata)])
              (WriteFile (downloaded E (trace w ++ [MegaDownload (legacyUrl sessdata)]))))
    eqn:Hwrite.
  - right. repeat split; exact Hres.
  - left. repeat split; [discriminate | exact Hres].
  - left. repeat split; [discriminate | exact Hres].
Qed.

(** X4.  [downloadLegacySession] never raises, and it reports success
    exactly when it has downloaded the archive named by the session
    identifier and written what it received to the credential file, in
    that order and with no other call.  When it reports failure the
    credential file is as it was. *)
Theorem downloadLegacySession_true_iff_written (cfg : config) (E : env) (w : world) :
  exists b,
    fst (downloadLegacySession cfg E w) = Ret b /\
    if b
    then exists sid sessdata,
           SESSION_ID cfg = Some sid /\
           nth_error (JsString.split sid "Buddy~") 1 = Some sessdata /\
           let data := downloaded E (trace w ++ [MegaDownload (legacyUrl sessdata)]) in
           credsFile (snd (downloadLegacySession cfg E w)) = Some data /\
           trace (snd (downloadLegacySession cfg E w))
           = trace w ++ [MegaDownload (legacyUrl sessdata); WriteFile data]
    else credsFile (snd (downloadLegacySession cfg E w)) = credsFile w.
Proof.
  destruct (downloadLegacySession_cases cfg E w)
    as [->|(sid & sessdata & Hsid & Hnth & _ & [[_ ->]|[(_ & _ & ->)|(_ & _ & ->)]])].
  - now exists false.
  - now exists false.
  - now exists false.
  - exists true. split; [reflexivity|]. exists sid, sessdata.
    repeat split; try assumption. cbn. now rewrite <- app_assoc.
Qed.

(** X5.  Without a [#] between a file identifier and a key after the
    marker, [downloadLegacySession] gives up before any download: it
    returns false and makes no call. *)
Theorem downloadLegacySession_needs_key
  (cfg : config) (E : env) (w : world) (sid : string) :
  SESSION_ID cfg = Some sid ->
  (forall sessdata,
     nth_error (JsString.split sid "Buddy~") 1 = Some sessdata ->
     JsString.includes sessdata "#" = false) ->
  downloadLegacySession cfg E w = (Ret false, w).
Proof.
  intros Hsid Hkey.
  destruct (downloadLegacySession_cases cfg E w)
    as [H|(sid' & sessdata & Hsid' & Hnth & Hhash & _)]; [exact H|].
  rewrite Hsid in Hsid'. injection Hsid' as <-.
  rewrite (Hkey _ Hnth) in Hhash. discriminate.
Qed.

Lemma downloadLegacySession_needs_key_witness :
  downloadLegacySession (sampleConfig (Some "XTR;Buddy~AbCdEfGh") "") sampleEnv
    (initial_world None)
  = (Ret false, initial_world None).
Proof.
  apply (@downloadLegacySession_needs_key _ _ _ "XTR;Buddy~AbCdEfGh").
  - reflexivity.
  - intros sessdata Hnth. vm_compute in Hnth. injection Hnth as <-. reflexivity.
Defined.

(** What a bootstrap step leaves of the credential file and of the
    pairing flag, by its result. *)
Lemma loadGiftedSession_file (cfg : config) (E : env) (w : world) :
  exists b w1,
    loadGiftedSession cfg E w = (Ret b, w1) /\ useQR w1 = useQR w /\
    if b then credsFile w1 <> None else credsFile w1 = credsFile w.
Proof.
  destruct (loadGiftedSession_cases cfg E w)
    as [->|(sid & d & _ & _ & _ & _ & [[_ ->]|[_ ->]])];
    eexists _, _; (split; [reflexivity|]); split; try reflexivity; discriminate.
Qed.

Lemma downloadLegacySession_file (cfg : config) (E : env) (w : world) :
  exists b w1,
    downloadLegacySession cfg E w = (Ret b, w1) /\ useQR w1 = useQR w /\
    if b then credsFile w1 <> None else credsFile w1 = credsFile w.
Proof.
  destruct (downloadLegacySession_cases cfg E w)
    as [->|(sid & sessdata & _ & _ & _ & [[_ ->]|[(_ & _ & ->)|(_ & _ & ->)]])];
    eexists _, _; (split; [reflexivity|]); split; try reflexivity; discriminate.
Qed.

(** X6.  After [init], the pairing display is requested exactly when no
    credential file is on disk: whichever bootstrap step ran and however
    it ended, [useQR] is set if and only if the file is still missing. *)
Theorem init_pairs_iff_no_credential (cfg : config) (E : env) (w : world) :
  useQR w = false ->
  useQR (snd (init cfg E w))
  = match credsFile (snd (init cfg E w)) with
    | Some _ => false
    | None => true
    end.
Proof.
  intros Hqr.
  assert (Hinit : exists w1,
            init cfg E w = start E w1 /\
            useQR w1 = match credsFile w1 with Some _ => false | None => true end).
  { unfold init, bind at 1. unfold existsSync.
    destruct (credsFile w) as [file|] eqn:Hfile.
    - eexists. split; [reflexivity|]. cbn. now rewrite Hfile.
    - cbv beta iota.
      destruct (JsString.truthy_opt (SESSION_ID cfg)
                && JsString.startsWith (JsString.or_else (SESSION_ID cfg) "") "Buddy~").
      + unfold bind at 1.
        destruct (loadGiftedSession_file cfg E (set_trace (trace w ++ [ExistsSync]) w))
          as (b & w1 & -> & Hflag & Hb).
        destruct b.
        * exists w1. split; [reflexivity|]. rewrite Hflag. cbn. rewrite Hqr.
          now destruct (credsFile w1).
        * eexists. split; [reflexivity|]. cbn. rewrite Hb. cbn. now rewrite Hfile.
      + destruct (JsString.truthy_opt (SESSION_ID cfg)
                  && JsString.includes (JsString.or_else (SESSION_ID cfg) "") "Buddy~").
        * unfold bind at 1.
          destruct (downloadLegacySession_file cfg E (set_trace (trace w ++ [ExistsSync]) w))
            as (b & w1 & -> & Hflag & Hb).
          destruct b.
          -- exists w1. split; [reflexivity|]. rewrite Hflag. cbn. rewrite Hqr.
             now destruct (credsFile w1).
          -- eexists. split; [reflexivity|]. cbn. rewrite Hb. cbn. now rewrite Hfile.
        * eexists. split; [reflexivity|]. cbn. now rewrite Hfile. }
  destruct Hinit as (w1 & -> & H1).
  destruct (start_cases E w1) as (_ & Hfile & Hflag & _).
  now rewrite Hfile, Hflag.
Qed.

Lemma init_pairs_iff_no_credential_witness :
  useQR (snd (init legacyConfig archiveDownOnce (initial_world None)))
  = match credsFile (snd (init legacyConfig archiveDownOnce (initial_world None))) with
    | Some _ => false
    | None => true
    end.
Proof. apply init_pairs_iff_no_credential. reflexivity. Defined.

(** X7.  A credential file on disk takes precedence over the session
    identifier: [init] then only probes the file and connects, whatever
    the configuration says, and leaves the file and the pairing flag as
    they are. *)
Theorem init_prefers_existing_file
  (cfg cfg' : config) (E : env) (w : world) (file : string) :
  credsFile w = Some file ->
  init cfg E w = init cfg' E w /\
  init cfg E w = start E (set_trace (trace w ++ [ExistsSync]) w) /\
  credsFile (snd (init cfg E w)) = Some file /\
  useQR (snd (init cfg E w)) = useQR w.
Proof.
  intros Hfile.
  assert (Hinit : forall c, init c E w = start E (set_trace (trace w ++ [ExistsSync]) w)).
  { intros c. unfold init, bind at 1. unfold existsSync. now rewrite Hfile. }
  split; [now rewrite !Hinit|]. split; [apply Hinit|].
  rewrite Hinit.
  destruct (start_cases E (set_trace (trace w ++ [ExistsSync]) w)) as (_ & H1 & H2 & _).
  rewrite H1, H2. now split.
Qed.

Lemma init_prefers_existing_file_witness :
  init legacyConfig sampleEnv (initial_world (Some "{}"))
  = init (sampleConfig None "") sampleEnv (initial_world (Some "{}")).
Proof.
  apply (@init_prefers_existing_file legacyConfig (sampleConfig None "") sampleEnv
           (initial_world (Some "{}")) "{}").
  reflexivity.
Defined.

(** ** The retention cache, one put at a time *)

Lemma applyPut_is_put (id : string) (mek : WebMessage) (now : Z) (m : JsMap.t) :
  applyPut m {| put_id := id; put_mek := mek; put_now := now |}
  = messageStore_put id mek now m.
Proof. reflexivity. Qed.

Lemma bounded_put (id : string) (mek : WebMessage) (now : Z) (m : JsMap.t) :
  bounded m -> bounded (messageStore_put id mek now m).
Proof.
  intros [Hnd Hsize]. rewrite <- applyPut_is_put.
  destruct (@put_cases m {| put_id := id; put_mek := mek; put_now := now |} Hnd)
    as [[Hle ->]|(Hbig & k & e & _ & -> & Hless & _)]; cbn [put_id entryOf put_mek put_now].
  - split; [now apply JsMapFacts.NoDup_keys_set | exact Hle].
  - split; [apply JsMapFacts.NoDup_keys_delete; now apply JsMapFacts.NoDup_keys_set|].
    pose proof (JsMapFacts.size_set_le id (entryAt mek now) m) as Hset.
    unfold entryAt in Hset. unfold entryOf in Hless. cbn [put_id put_mek put_now] in Hless.
    unfold entryOf. cbn [put_id put_mek put_now]. lia.
Qed.

(** X8.  A message just stored can be looked up, unless it is itself the
    oldest: when the cache holds another entry with a strictly smaller
    timestamp, the put keeps the new entry under its identifier, whether
    or not the put had to evict. *)
Theorem put_then_get
  (id : string) (mek : WebMessage) (now : Z) (m : JsMap.t)
  (k' : string) (e' : StoredMessage) :
  NoDup (JsMap.keys m) ->
  JsMap.get k' m = Some e' -> k' <> id -> (timestamp e' < now)%Z ->
  JsMap.get id (messageStore_put id mek now m) = Some (entryAt mek now).
Proof.
  intros Hnd Hget Hne Hold. rewrite <- applyPut_is_put.
  destruct (@put_cases m {| put_id := id; put_mek := mek; put_now := now |} Hnd)
    as [[_ ->]|(_ & k & e & Hk & -> & _ & Hmin)];
    cbn [put_id entryOf put_mek put_now] in *.
  - apply JsMapFacts.get_set_same.
  - assert (Hother : JsMap.get k' (JsMap.set id {| stored := mek; timestamp := now |} m)
                     = Some e').
    { rewrite JsMapFacts.get_set_other; [exact Hget | congruence]. }
    specialize (Hmin _ _ Hother).
    destruct (String.eqb_spec k id) as [->|Hkid].
    + rewrite JsMapFacts.get_set_same in Hk. injection Hk as <-. simpl in Hmin. lia.
    + rewrite JsMapFacts.get_delete_other by exact Hkid.
      apply JsMapFacts.get_set_same.
Qed.

Lemma put_then_get_witness :
  JsMap.get "M2"
    (messageStore_put "M2" (inbound "M2" chatJid "second") 20
       [("M1", entryAt helloWorld 10)])
  = Some (entryAt (inbound "M2" chatJid "second") 20).
Proof.
  apply (@put_then_get "M2" (inbound "M2" chatJid "second") 20
           [("M1", entryAt helloWorld 10)] "M1" (entryAt helloWorld 10)).
  - repeat constructor. intros [].
  - reflexivity.
  - discriminate.
  - simpl. lia.
Defined.

(** X9.  Storing a message whose identifier is already in a well-formed
    cache evicts nothing: the entry is replaced where it stands, and the
    identifiers of the cache and their order are as they were. *)
Theorem put_present_id_never_evicts
  (id : string) (mek : WebMessage) (now : Z) (m : JsMap.t) :
  bounded m -> In id (JsMap.keys m) ->
  messageStore_put id mek now m = JsMap.set id (entryAt mek now) m /\
  JsMap.keys (messageStore_put id mek now m) = JsMap.keys m.
Proof.
  intros [Hnd Hsize] Hin.
  apply JsMapFacts.existsb_eqb_In in Hin.
  assert (Hput : messageStore_put id mek now m = JsMap.set id (entryAt mek now) m).
  { unfold messageStore_put, entryAt.
    rewrite JsMapFacts.size_set, Hin.
    destruct (Nat.ltb_spec 1000 (JsMap.size m)); [lia | reflexivity]. }
  split; [exact Hput|].
  now rewrite Hput, JsMapFacts.keys_set, Hin.
Qed.

Lemma put_present_id_never_evicts_witness :
  messageStore_put "M1" (inbound "M1" chatJid "edited") 20
    [("M1", entryAt helloWorld 10); ("M2", entryAt (inbound "M2" chatJid "second") 12)]
  = JsMap.set "M1" (entryAt (inbound "M1" chatJid "edited") 20)
      [("M1", entryAt helloWorld 10); ("M2", entryAt (inbound "M2" chatJid "second") 12)]
  /\
  JsMap.keys
    (messageStore_put "M1" (inbound "M1" chatJid "edited") 20
       [("M1", entryAt helloWorld 10); ("M2", entryAt (inbound "M2" chatJid "second") 12)])
  = ["M1"; "M2"].
Proof.
  apply (@put_present_id_never_evicts "M1" (inbound "M1" chatJid "edited") 20
           [("M1", entryAt helloWorld 10); ("M2", entryAt (inbound "M2" chatJid "second") 12)]).
  - split; [|simpl; lia].
    repeat constructor; simpl; intuition discriminate.
  - simpl. now left.
Defined.

(** ** The cache across events *)

#[local] Instance sameStore_Frame : Frame sameStore (fun _ => true).
Proof.
  split.
  - intros w. reflexivity.
  - unfold sameStore. intros a b c Hab Hbc. congruence.
  - intros c w _. reflexivity.
Qed.

#[local] Instance nodupKept_Frame : Frame nodupKept (fun _ => true).
Proof.
  split.
  - intros w H. exact H.
  - intros a b c Hab Hbc Ha. apply Hbc, Hab, Ha.
  - intros c w _ H. exact H.
Qed.

Lemma sameStore_set_initialConnection (b : bool) :
  Keeps sameStore (modify (set_initialConnection b)).
Proof. intros E w. reflexivity. Qed.

Lemma nodupKept_put (id : string) (mek : WebMessage) (now : Z) :
  Keeps nodupKept
    (modify (fun w => set_messageStore (messageStore_put id mek now (messageStore w)) w)).
Proof.
  intros E w Hnd. simpl. unfold messageStore_put.
  destruct (1000 <? JsMap.size _)%nat; [|now apply JsMapFacts.NoDup_keys_set].
  destruct (JsMap.sort _) as [|[oldestKey v] r]; [now apply JsMapFacts.NoDup_keys_set|].
  apply JsMapFacts.NoDup_keys_delete. now apply JsMapFacts.NoDup_keys_set.
Qed.

Lemma nodupKept_set (id : string) (f : world -> StoredMessage) :
  Keeps nodupKept
    (modify (fun w => set_messageStore (JsMap.set id (f w) (messageStore w)) w)).
Proof. intros E w Hnd. simpl. now apply JsMapFacts.NoDup_keys_set. Qed.

Lemma nodupKept_delete (id : string) :
  Keeps nodupKept
    (modify (fun w => set_messageStore (JsMap.delete id (messageStore w)) w)).
Proof. intros E w Hnd. simpl. now apply JsMapFacts.NoDup_keys_delete. Qed.

#[local] Hint Resolve sameStore_set_initialConnection nodupKept_put nodupKept_set
  nodupKept_delete : keeps.

(** The reconciler, the connect notice and the status handlers only make
    calls: they keep whatever the calls keep. *)
Section CallsOnly.

Context {R : world -> world -> Prop} `{Frame R (fun _ => true)}.

Variable cfg : config.

Lemma calls_classifyJoinError (e : exn) (g : string) : Keeps R (classifyJoinError e g).
Proof. unfold classifyJoinError. keeps_all. Qed.

Lemma calls_joinGroupByInviteCode (Matrix : nat) (code g : string) :
  Keeps R (joinGroupByInviteCode Matrix code g).
Proof. unfold joinGroupByInviteCode. keeps_all. apply calls_classifyJoinError. Qed.

Lemma calls_joinTurn (Matrix n i : nat) (g : Group) (c : Counters) :
  Keeps R (joinTurn Matrix n i g c).
Proof.
  unfold joinTurn. apply Keeps_try_catch; [|intros e; apply Keeps_ret].
  apply Keeps_bind; [apply calls_joinGroupByInviteCode|]. intros r.
  keeps_all.
Qed.

Lemma calls_joinLoop (Matrix n : nat) (gs : list Group) :
  forall i c, Keeps R (joinLoop Matrix n i gs c).
Proof.
  induction gs as [|g gs IH]; intros i c; simpl.
  - apply Keeps_ret.
  - apply Keeps_bind; [apply calls_joinTurn | intros c'; apply IH].
Qed.

Lemma calls_handleAutoJoinGroups (groups : list Group) (Matrix : nat) :
  Keeps R (handleAutoJoinGroups cfg groups Matrix).
Proof.
  unfold handleAutoJoinGroups.
  apply Keeps_try_catch.
  - cbv zeta. apply Keeps_bind; [apply calls_joinLoop|]. intros c. keeps_all.
  - intros e. keeps_all.
Qed.

Lemma calls_sendConnectMessage (groups : list Group) (Matrix : nat) :
  Keeps R (sendConnectMessage cfg groups Matrix).
Proof. unfold sendConnectMessage. keeps_all. Qed.

Lemma calls_handleAutoViewStatus (mek : WebMessage) (Matrix : nat) :
  Keeps R (handleAutoViewStatus cfg mek Matrix).
Proof. unfold handleAutoViewStatus. keeps_all. Qed.

Lemma calls_handleAutoLikeStatus (mek : WebMessage) (Matrix : nat) :
  Keeps R (handleAutoLikeStatus cfg mek Matrix).
Proof. unfold handleAutoLikeStatus. keeps_all. Qed.

End CallsOnly.

Section StoreAcrossEvents.

Variable cfg : config.
Variable E : env.

Lemma nodupKept_recover (Matrix : nat) (k : MessageKey) (id : string) (sm : StoredMessage) :
  Keeps nodupKept (recover cfg Matrix k id sm).
Proof. unfold recover. keeps_all. Qed.

Lemma nodupKept_handleAntiDelete (mek : WebMessage) (Matrix : nat) :
  Keeps nodupKept (handleAntiDelete cfg mek Matrix).
Proof. unfold handleAntiDelete. keeps_all; apply nodupKept_recover. Qed.

Lemma nodupKept_upsertFeatures (Matrix : nat) (messages : list WebMessage) :
  Keeps nodupKept (upsertFeatures cfg Matrix messages).
Proof.
  unfold upsertFeatures. apply Keeps_try_catch; [|intros e; apply Keeps_ret].
  destruct (nth_error messages 0) as [mek|]; [|apply Keeps_throw].
  destruct (key mek) as [k|]; [|apply Keeps_throw].
  cbv zeta. destruct (message mek) as [msg|]; [|apply Keeps_ret].
  destruct (fromMe k); [apply Keeps_ret|].
  destruct (protocolMessage msg); [apply Keeps_ret|].
  destruct (ephemeralMessage msg || reactionMessage msg); [apply Keeps_ret|].
  apply Keeps_bind; [apply nodupKept_handleAntiDelete | intros _].
  apply Keeps_bind; [apply calls_handleAutoViewStatus | intros _].
  apply Keeps_bind; [apply calls_handleAutoLikeStatus | intros _].
  keeps_all.
Qed.

(** The feature handler can only shrink a well-formed cache. *)
Lemma bounded_upsertFeatures (Matrix : nat) (messages : list WebMessage) (w : world) :
  bounded (messageStore w) ->
  bounded (messageStore (snd (upsertFeatures cfg Matrix messages E w))).
Proof.
  intros [Hnd Hsize].
  pose proof (nodupKept_upsertFeatures Matrix messages E w Hnd) as Hnd'.
  pose proof (within_upsertFeatures cfg Matrix messages E w) as Hin.
  split; [exact Hnd'|].
  unfold within in Hin. simpl in Hin.
  apply (NoDup_incl_length Hnd') in Hin.
  unfold JsMap.size, JsMap.keys in *. rewrite !length_map in Hin. lia.
Qed.

Lemma bounded_upsertStore (messages : list WebMessage) (w : world) :
  bounded (messageStore w) ->
  bounded (messageStore (snd (upsertStore cfg messages E w))).
Proof.
  intros Hb. destruct messages as [|mek rest]; [exact Hb|].
  rewrite upsertStore_is_put.
  destruct (key mek) as [k|]; [|exact Hb].
  destruct (message mek); [|exact Hb].
  destruct (msgId k) as [id|]; [|exact Hb].
  destruct (JsString.truthy id && negb (fromMe k) && ANTI_DELETE cfg); [|exact Hb].
  rewrite applyPut_is_put. now apply bounded_put.
Qed.

Lemma sameStore_connectionUpdate (Matrix : nat) (u : ConnectionUpdate) (w : world) :
  messageStore (snd (connectionUpdate cfg Matrix u E w)) = messageStore w.
Proof.
  unfold connectionUpdate.
  destruct (connection u) as [[| |]|]; try reflexivity.
  - destruct (lastDisconnect u) as [ld|]; [|reflexivity].
    destruct (negb (isLoggedOut ld)); [|reflexivity].
    now destruct (start_cases E w) as (_ & _ & _ & _ & Hstore & _).
  - revert E w.
    change (Keeps sameStore
      (first <- gets initialConnection ;;
       if first
       then sleep 3000 ;;
            handleAutoJoinGroups cfg (MANDATORY_GROUPS cfg) Matrix ;;
            sendConnectMessage cfg (MANDATORY_GROUPS cfg) Matrix ;;
            modify (set_initialConnection false)
       else handleAutoJoinGroups cfg (MANDATORY_GROUPS cfg) Matrix ;;
            sendConnectMessage cfg (MANDATORY_GROUPS cfg) Matrix)).
    apply Keeps_bind; [apply Keeps_gets|]. intros [|].
    + apply Keeps_bind; [apply Keeps_sleep; reflexivity | intros _].
      apply Keeps_bind; [apply calls_handleAutoJoinGroups | intros _].
      apply Keeps_bind; [apply calls_sendConnectMessage | intros _].
      apply sameStore_set_initialConnection.
    + apply Keeps_bind; [apply calls_handleAutoJoinGroups | intros _].
      apply calls_sendConnectMessage.
Qed.

Lemma bounded_dispatch (ev : event) (w : world) :
  bounded (messageStore w) -> bounded (messageStore (snd (dispatch cfg ev E w))).
Proof.
  intros Hb. unfold dispatch.
  destruct (exited w); [exact Hb|].
  destruct ev as [Matrix u|Matrix messages|timer].
  - pose proof (sameStore_connectionUpdate Matrix u w) as Hs.
    rewrite <- snd_fireAndForget in Hs.
    destruct (fireAndForget (connectionUpdate cfg Matrix u) E w). simpl in *.
    now rewrite Hs.
  - pose proof (bounded_upsertStore messages w Hb) as H1.
    rewrite <- snd_fireAndForget in H1.
    destruct (fireAndForget (upsertStore cfg messages) E w) as [c1 w1]. simpl in H1.
    pose proof (bounded_upsertFeatures Matrix messages w1 H1) as H2.
    rewrite <- snd_fireAndForget in H2.
    now destruct (fireAndForget (upsertFeatures cfg Matrix messages) E w1).
  - destruct (nth_error (intervals w) timer) as [Matrix|]; [|exact Hb].
    unfold intervalCallback.
    pose proof (calls_handleAutoJoinGroups (R := sameStore) cfg (MANDATORY_GROUPS cfg)
                  Matrix E w) as Hs.
    rewrite <- snd_fireAndForget in Hs.
    destruct (fireAndForget (handleAutoJoinGroups cfg (MANDATORY_GROUPS cfg) Matrix) E w).
    simpl in *. unfold sameStore in Hs. now rewrite Hs.
Qed.

Lemma bounded_run (evs : list event) (w : world) :
  bounded (messageStore w) -> bounded (messageStore (snd (run cfg evs E w))).
Proof.
  revert w. induction evs as [|ev evs IH]; intros w Hb; simpl; [exact Hb|].
  pose proof (bounded_dispatch ev w Hb) as H1.
  destruct (dispatch cfg ev E w) as [cs w1]. simpl in H1.
  specialize (IH w1 H1).
  now destruct (run cfg evs E w1).
Qed.

End StoreAcrossEvents.

(** X10.  Over the whole life of the process the cache stays well formed:
    whatever the configuration, the collaborators and the events that
    arrive after [init], no identifier is stored twice and the cache
    never holds more than 1000 entries. *)
Theorem events_keep_store_bounded
  (cfg : config) (E : env) (file : option string) (evs : list event) :
  let w := snd (run cfg evs E (snd (init cfg E (initial_world file)))) in
  NoDup (JsMap.keys (messageStore w)) /\ JsMap.size (messageStore w) <= 1000.
Proof.
  intros w. subst w. apply bounded_run.
  destruct (init_start cfg E (initial_world file)) as (w1 & -> & Hcalm).
  destruct (start_cases E w1) as (_ & _ & _ & _ & -> & _).
  destruct Hcalm as (_ & _ & _ & -> & _).
  split; [constructor | simpl; lia].
Qed.

(** ** Delete recovery *)

Lemma sends_app (t1 t2 : list call) : sends (t1 ++ t2) = sends t1 ++ sends t2.
Proof. unfold sends. apply flat_map_app. Qed.

(** X11.  [handleAntiDelete] acts on nothing but a deletion notice for a
    retained message: with the feature off, for any other message, or
    for a notice whose identifier the cache does not hold, it makes no
    call, changes nothing and raises nothing. *)
Theorem handleAntiDelete_acts_only_on_retained
  (cfg : config) (mek : WebMessage) (Matrix : nat) (E : env) (w : world) :
  (ANTI_DELETE cfg = true ->
   forall id, referencedId mek = Some id -> JsMap.get id (messageStore w) = None) ->
  handleAntiDelete cfg mek Matrix E w = (Ret tt, w).
Proof.
  unfold handleAntiDelete, referencedId. intros Hnone.
  destruct (ANTI_DELETE cfg); [|reflexivity]. specialize (Hnone eq_refl).
  cbn [negb].
  destruct (message mek) as [msg|]; [|reflexivity].
  destruct (protocolMessage msg) as [pm|]; [|reflexivity].
  destruct (protoType pm) as [[|p|p]|]; try reflexivity.
  destruct (protoKey pm) as [deletedMsgKey|]; [|reflexivity].
  destruct (msgId deletedMsgKey) as [id|]; [|reflexivity].
  unfold try_catch, bind, gets. now rewrite (Hnone id eq_refl).
Qed.

Lemma handleAntiDelete_acts_only_on_retained_witness :
  handleAntiDelete ownerConfig deletionNotice 0 sampleEnv (initial_world None)
  = (Ret tt, initial_world None).
Proof.
  apply handleAntiDelete_acts_only_on_retained.
  intros _ id Hid. vm_compute in Hid. injection Hid as <-. reflexivity.
Defined.

(** Takes [recover] apart, one collaborator answer at a time. *)
Ltac recover_cases :=
  repeat first
    [ progress cbn [fst snd trace set_trace messageStore set_messageStore]
    | match goal with
      | |- context [match answer ?E' ?h ?c with _ => _ end] => destruct (answer E' h c)
      | |- context [if ownerConfigured ?c then _ else _] => destruct (ownerConfigured c)
      | |- context [if (String.eqb ?a ?b || String.eqb ?c ?d)%bool then _ else _] =>
          destruct (String.eqb a b || String.eqb c d)%bool
      | |- context [match message ?m with _ => _ end] => destruct (message m)
      end ].

(** X12.  [recover] drops the retained entry exactly when it completes:
    if it returns, the identifier is no longer in the cache; if it raises
    (the report or the fallback could not be sent), the entry is still
    there. *)
Theorem recover_removes_iff_completes
  (cfg : config) (E : env) (Matrix : nat) (deletedMsgKey : MessageKey) (id : string)
  (sm : StoredMessage) (w : world) :
  NoDup (JsMap.keys (messageStore w)) ->
  JsMap.get id (messageStore w) = Some sm ->
  match fst (recover cfg Matrix deletedMsgKey id sm E w) with
  | Ret _ =>
      JsMap.get id (messageStore (snd (recover cfg Matrix deletedMsgKey id sm E w))) = None
  | Throw _ =>
      JsMap.get id (messageStore (snd (recover cfg Matrix deletedMsgKey id sm E w))) <> None
  end.
Proof.
  intros Hnd Hget.
  unfold recover.
  cbv [bind asks momentNow dateNow ret await perform throw try_catch modify].
  recover_cases;
    first [ apply JsMapFacts.get_delete_same;
            first [exact Hnd | now apply JsMapFacts.NoDup_keys_set]
          | rewrite JsMapFacts.get_set_same; discriminate
          | rewrite Hget; discriminate ].
Qed.

Lemma recover_removes_iff_completes_witness :
  JsMap.get "M1"
    (messageStore (snd (recover ownerConfig 0
                          {| msgId := Some "M1"; remoteJid := Some chatJid;
                             participant := None; fromMe := false |}
                          "M1" (entryAt helloWorld 10) sampleEnv
                          (holding [("M1", entryAt helloWorld 10)]))))
  = None.
Proof.
  apply (@recover_removes_iff_completes ownerConfig sampleEnv 0
           {| msgId := Some "M1"; remoteJid := Some chatJid;
              participant := None; fromMe := false |}
           "M1" (entryAt helloWorld 10) (holding [("M1", entryAt helloWorld 10)])).
  - vm_compute. repeat constructor. intros [].
  - vm_compute. reflexivity.
Defined.

(** X13.  When the chat refuses the forwarded copy, [recover] falls back
    to a text: after the report (if a recipient is configured) the chat
    is sent the tagged copy, which fails, and then the fallback text with
    the sender, the time, the kind and the content of the message; the
    recovery completes and the entry is dropped. *)
Theorem recover_falls_back_to_text
  (cfg : config) (E : env) (Matrix : nat) (deletedMsgKey : MessageKey) (id : string)
  (sm : StoredMessage) (msg : Message) (w : world) :
  NoDup (JsMap.keys (messageStore w)) ->
  message (stored sm) = Some msg ->
  (forall h body,
     answer E h (SendMessage Matrix (BOT_OWNER cfg) (Text body) None) = Resolves) ->
  (forall h,
     answer E h (SendMessage Matrix (recoveryTarget deletedMsgKey sm)
                   (Forward (tagRecovered msg)) None) <> Resolves) ->
  (forall h body,
     answer E h (SendMessage Matrix (recoveryTarget deletedMsgKey sm) (Text body) None)
     = Resolves) ->
  fst (recover cfg Matrix deletedMsgKey id sm E w) = Ret tt /\
  (exists report,
     sends (trace (snd (recover cfg Matrix deletedMsgKey id sm E w)))
     = sends (trace w)
       ++ (if ownerConfigured cfg then [(BOT_OWNER cfg, Text report)] else [])
       ++ [(recoveryTarget deletedMsgKey sm, Forward (tagRecovered msg));
           (recoveryTarget deletedMsgKey sm, Text (fallbackText E sm))]) /\
  JsMap.get id (messageStore (snd (recover cfg Matrix deletedMsgKey id sm E w))) = None.
Proof.
  intros Hnd Hmsg Howner Hforward Htext.
  unfold recover, fallbackText. fold (recoveryTarget deletedMsgKey sm). rewrite Hmsg.
  cbv [bind asks momentNow dateNow ret await perform throw try_catch modify].
  cbn [trace set_trace].
  destruct (ownerConfigured cfg).
  - rewrite Howner. cbn [trace set_trace].
    match goal with
    | |- context [answer E ?h (SendMessage Matrix ?j (Forward ?m) None)] =>
        pose proof (Hforward h) as Hno;
        destruct (answer E h (SendMessage Matrix j (Forward m) None)) as [|x|x]
    end; [now elim Hno | |];
      cbn [trace set_trace]; rewrite Htext;
      cbn [fst snd trace set_trace messageStore set_messageStore];
      (split; [reflexivity|]); (split; [eexists|]);
      try (rewrite !sends_app; cbn [sends flat_map app];
           rewrite ?app_nil_r, <- ?app_assoc; reflexivity);
      apply JsMapFacts.get_delete_same; now apply JsMapFacts.NoDup_keys_set.
  - cbn [trace set_trace].
    match goal with
    | |- context [answer E ?h (SendMessage Matrix ?j (Forward ?m) None)] =>
        pose proof (Hforward h) as Hno;
        destruct (answer E h (SendMessage Matrix j (Forward m) None)) as [|x|x]
    end; [now elim Hno | |];
      cbn [trace set_trace]; rewrite Htext;
      cbn [fst snd trace set_trace messageStore set_messageStore];
      (split; [reflexivity|]); (split; [exists EmptyString|]);
      try (rewrite !sends_app; cbn [sends flat_map app];
           rewrite ?app_nil_r, <- ?app_assoc; reflexivity);
      apply JsMapFacts.get_delete_same; now apply JsMapFacts.NoDup_keys_set.
Qed.

Lemma recover_falls_back_to_text_witness :
  fst (recover ownerConfig 0 pictureKey "P1" (entryAt picture 10) forwardRefused
         (holding [("P1", entryAt picture 10)])) = Ret tt /\
  JsMap.get "P1"
    (messageStore (snd (recover ownerConfig 0 pictureKey "P1" (entryAt picture 10)
                          forwardRefused (holding [("P1", entryAt picture 10)])))) = None.
Proof.
  destruct (@recover_falls_back_to_text ownerConfig forwardRefused 0 pictureKey "P1"
              (entryAt picture 10)
              {| conversation := None; extendedTextMessage := None;
                 imageMessage := Some (Some "holiday"); videoMessage := None;
                 audioMessage := false; documentMessage := None; stickerMessage := false;
                 protocolMessage := None; ephemeralMessage := false;
                 reactionMessage := false |}
              (holding [("P1", entryAt picture 10)]))
    as (Hret & _ & Hgone).
  - repeat constructor. intros [].
  - reflexivity.
  - intros h body. reflexivity.
  - intros h. simpl. discriminate.
  - intros h body. reflexivity.
  - split; [exact Hret | exact Hgone].
Defined.

(** X14.  When every send succeeds, [recover] resends the message to the
    chat it was deleted from: after the report (if a recipient is
    configured) the chat receives the stored payload, tagged as
    recovered, and, for a text, the notice naming the sender and the
    time; nothing else is sent and the entry is dropped. *)
Theorem recover_resends_to_chat
  (cfg : config) (E : env) (Matrix : nat) (deletedMsgKey : MessageKey) (id : string)
  (sm : StoredMessage) (msg : Message) (w : world) :
  NoDup (JsMap.keys (messageStore w)) ->
  message (stored sm) = Some msg ->
  (forall h jid body quoted, answer E h (SendMessage Matrix jid body quoted) = Resolves) ->
  fst (recover cfg Matrix deletedMsgKey id sm E w) = Ret tt /\
  (exists report,
     sends (trace (snd (recover cfg Matrix deletedMsgKey id sm E w)))
     = sends (trace w)
       ++ (if ownerConfigured cfg then [(BOT_OWNER cfg, Text report)] else [])
       ++ [(recoveryTarget deletedMsgKey sm, Forward (tagRecovered msg))]
       ++ (if isTextKind (Some msg)
           then [(recoveryTarget deletedMsgKey sm, Text (recoveryNotice E sm))]
           else [])) /\
  JsMap.get id (messageStore (snd (recover cfg Matrix deletedMsgKey id sm E w))) = None.
Proof.
  intros Hnd Hmsg Hsend.
  unfold recover, recoveryNotice, isTextKind. fold (recoveryTarget deletedMsgKey sm).
  rewrite Hmsg.
  cbv [bind asks momentNow dateNow ret await perform throw try_catch modify].
  cbn [trace set_trace].
  destruct (ownerConfigured cfg);
    destruct (String.eqb (snd (describe (Some msg))) "Text"
              || String.eqb (snd (describe (Some msg))) "Extended Text");
    rewrite ?Hsend; cbn [trace set_trace]; rewrite ?Hsend;
    cbn [fst snd trace set_trace messageStore set_messageStore]; rewrite ?Hsend;
    cbn [fst snd trace set_trace messageStore set_messageStore];
    (split; [reflexivity|]);
    (split;
     [ first [ exists EmptyString; rewrite !sends_app; cbn [sends flat_map app];
               rewrite ?app_nil_r, <- ?app_assoc; reflexivity
             | eexists; rewrite !sends_app; cbn [sends flat_map app];
               rewrite ?app_nil_r, <- ?app_assoc; reflexivity ]
     | apply JsMapFacts.get_delete_same; now apply JsMapFacts.NoDup_keys_set ]).
Qed.

Lemma recover_resends_to_chat_witness :
  fst (recover ownerConfig 0 pictureKey "P1" (entryAt picture 10) sampleEnv
         (holding [("P1", entryAt picture 10)])) = Ret tt /\
  JsMap.get "P1"
    (messageStore (snd (recover ownerConfig 0 pictureKey "P1" (entryAt picture 10)
                          sampleEnv (holding [("P1", entryAt picture 10)])))) = None.
Proof.
  destruct (@recover_resends_to_chat ownerConfig sampleEnv 0 pictureKey "P1"
              (entryAt picture 10)
              {| conversation := None; extendedTextMessage := None;
                 imageMessage := Some (Some "holiday"); videoMessage := None;
                 audioMessage := false; documentMessage := None; stickerMessage := false;
                 protocolMessage := None; ephemeralMessage := false;
                 reactionMessage := false |}
              (holding [("P1", entryAt picture 10)]))
    as (Hret & _ & Hgone).
  - repeat constructor. intros [].
  - reflexivity.
  - intros h jid body quoted. reflexivity.
  - split; [exact Hret | exact Hgone].
Defined.

(** X15.  [handleAntiDelete] never raises, whatever the notice holds and
    whatever the sends do, and it never adds to the cache: every
    identifier the cache holds afterwards it held before. *)
Theorem handleAntiDelete_never_throws_nor_adds
  (cfg : config) (mek : WebMessage) (Matrix : nat) (E : env) (w : world) :
  fst (handleAntiDelete cfg mek Matrix E w) = Ret tt /\
  incl (JsMap.keys (messageStore (snd (handleAntiDelete cfg mek Matrix E w))))
       (JsMap.keys (messageStore w)).
Proof.
  split.
  - unfold handleAntiDelete, try_catch.
    now destruct (_ E w) as [[[]|e] w1].
  - apply (within_handleAntiDelete cfg mek Matrix E w).
Qed.

(** A text occurs in whatever is wrapped around it. *)
Lemma includes_here (c q : string) : JsString.includes (c ++ q)%string c = true.
Proof.
  assert (Hstep : forall s p,
            JsString.includes s p
            = String.prefix p s
              || match s with
                 | EmptyString => false
                 | String _ r => JsString.includes r p
                 end) by (intros [|a s] p; reflexivity).
  now rewrite Hstep, prefix_append.
Qed.

Lemma includes_later (p t c : string) :
  JsString.includes t c = true -> JsString.includes (p ++ t)%string c = true.
Proof.
  intros Ht. induction p as [|a p IH]; [exact Ht|].
  simpl. rewrite IH. apply orb_true_r.
Qed.

Lemma includes_self (c : string) : JsString.includes c c = true.
Proof.
  pose proof (includes_here c "") as H.
  assert (Hnil : forall s : string, (s ++ "")%string = s)
    by (induction s as [|a s IH]; simpl; [reflexivity | now rewrite IH]).
  now rewrite Hnil in H.
Qed.

(** The report and the fallback text contain the content they are given. *)
Lemma report_quotes_content
  (time deleteTimestamp senderName senderJid targetJid chatType messageType : string)
  (deletedByMe : bool) (messageContent : string) :
  JsString.includes
    (Templates.reportMessage time deleteTimestamp senderName senderJid targetJid chatType
       messageType deletedByMe messageContent) messageContent = true.
Proof.
  unfold Templates.reportMessage.
  repeat first [apply includes_here | apply includes_later].
Qed.

Lemma fallback_quotes_content (senderName time messageType messageContent : string) :
  JsString.includes
    (Templates.fallbackMessage senderName time messageType messageContent) messageContent
  = true.
Proof.
  unfold Templates.fallbackMessage.
  repeat first [apply includes_self | apply includes_later].
Qed.

(** X16.  The texts [recover] sends quote the deleted message.  The
    content it quotes is the one it read off the stored payload: for a
    plain text message, the text itself.  Every text it sends, other than
    the notice that follows a resent text, contains that content; and
    when a report recipient is configured the first thing it sends is the
    report to that recipient, which contains it. *)
Theorem recovery_texts_quote_content
  (cfg : config) (E : env) (Matrix : nat) (deletedMsgKey : MessageKey) (id : string)
  (sm : StoredMessage) (w : world) :
  let content := fst (describe (message (stored sm))) in
  (forall msg body,
     message (stored sm) = Some msg -> conversation msg = Some body ->
     JsString.truthy body = true -> content = body) /\
  (forall jid text,
     In (jid, Text text) (sends (trace (snd (recover cfg Matrix deletedMsgKey id sm E w)))) ->
     In (jid, Text text) (sends (trace w)) \/
     text = recoveryNotice E sm \/
     JsString.includes text content = true) /\
  (ownerConfigured cfg = true ->
   exists report rest,
     sends (trace (snd (recover cfg Matrix deletedMsgKey id sm E w)))
     = sends (trace w) ++ (BOT_OWNER cfg, Text report) :: rest /\
     JsString.includes report content = true).
Proof.
  intros content. subst content.
  split; [|split].
  - intros msg body Hmsg Hbody Htruthy. rewrite Hmsg. unfold describe.
    rewrite Hbody. cbn [JsString.truthy_opt JsString.or_else]. now rewrite Htruthy.
  - unfold recover, recoveryNotice.
    cbv [bind asks momentNow dateNow ret await perform throw try_catch modify].
    recover_cases;
      intros jid text; rewrite !sends_app; cbn [sends flat_map app];
      rewrite ?app_nil_r, ?in_app_iff; cbn [In];
      intros Hin;
      repeat match goal with
             | H : _ \/ _ |- _ => destruct H as [H|H]
             | H : False |- _ => destruct H
             | H : (_, Forward _) = (_, Text _) |- _ => discriminate H
             | H : (_, Text _) = (_, Text _) |- _ => injection H as <- <-
             end;
      first [ now left
            | right; left; reflexivity
            | right; right; apply report_quotes_content
            | right; right; apply fallback_quotes_content ].
  - intros Howner. unfold recover. rewrite Howner.
    cbv [bind asks momentNow dateNow ret await perform throw try_catch modify].
    recover_cases;
      eexists _, _;
      (split; [rewrite !sends_app; cbn [sends flat_map app];
               rewrite <- ?app_assoc; cbn [app]; reflexivity
              | apply report_quotes_content]).
Qed.

(** X17.  Tagging a payload as recovered never changes its kind, so the
    follow-up notice for texts is decided by the original message; a
    payload without picture, video or document is resent as it is. *)
Theorem tagRecovered_keeps_kind (msg : Message) :
  snd (describe (Some (tagRecovered msg))) = snd (describe (Some msg)) /\
  (imageMessage msg = None -> videoMessage msg = None -> documentMessage msg = None ->
   tagRecovered msg = msg).
Proof.
  split.
  - unfold tagRecovered, describe.
    destruct (imageMessage msg) as [c1|] eqn:H1;
      [|destruct (videoMessage msg) as [c2|] eqn:H2;
        [|destruct (documentMessage msg) as [f|] eqn:H3]];
      cbn [conversation extendedTextMessage imageMessage videoMessage audioMessage
           documentMessage stickerMessage];
      rewrite ?H1, ?H2, ?H3;
      destruct (JsString.truthy_opt (conversation msg)); try reflexivity;
      destruct (JsString.truthy_opt (field (extendedTextMessage msg))); try reflexivity;
      destruct (audioMessage msg); reflexivity.
  - intros H1 H2 H3. unfold tagRecovered. now rewrite H1, H2, H3.
Qed.

(** ** Status engagement *)

(** X18.  [handleAutoViewStatus] never raises, and it marks as read
    exactly the status update it was given: one [readMessages] call with
    the key of the message when the feature is on and the chat is the
    status broadcast, no call at all otherwise; nothing else changes,
    whether or not the call succeeds. *)
Theorem view_status_marks_only_status
  (cfg : config) (mek : WebMessage) (Matrix : nat) (E : env) (w : world) :
  handleAutoViewStatus cfg mek Matrix E w
  = (Ret tt,
     if AUTO_VIEW_STATUS cfg && isStatus mek
     then set_trace (trace w ++ [ReadMessages Matrix (keysOf mek)]) w
     else w).
Proof.
  unfold handleAutoViewStatus.
  destruct (AUTO_VIEW_STATUS cfg); [|reflexivity].
  destruct (isStatus mek); [|reflexivity].
  cbv [negb andb try_catch await bind perform ret throw].
  now destruct (answer E (trace w) (ReadMessages Matrix (keysOf mek))).
Qed.

(** X19.  [handleAutoLikeStatus] never raises and reacts to status
    updates only.  When it reacts, it first waits between 1000 and 3999
    milliseconds, and the reaction it then sends to the status broadcast,
    for the key of the update, is one of the ten emojis of [LIKE_EMOJIS];
    for any other chat, or with the feature off, nothing happens. *)
Theorem like_status_delay_and_emoji
  (cfg : config) (mek : WebMessage) (Matrix : nat) (E : env) (w : world) :
  fst (handleAutoLikeStatus cfg mek Matrix E w) = Ret tt /\
  if AUTO_LIKE_STATUS cfg && isStatus mek
  then exists k delay emoji,
         key mek = Some k /\
         (1000 <= delay < 4000)%Z /\ In emoji Templates.LIKE_EMOJIS /\
         snd (handleAutoLikeStatus cfg mek Matrix E w)
         = set_trace
             (trace w ++ [MathRandom; SetTimeout delay; MathRandom;
                          SendMessage Matrix "status@broadcast" (React emoji k) None]) w
  else snd (handleAutoLikeStatus cfg mek Matrix E w) = w.
Proof.
  unfold handleAutoLikeStatus.
  destruct (AUTO_LIKE_STATUS cfg); [|now split].
  cbn [negb andb].
  destruct (isStatus mek) eqn:Hstatus.
  - destruct (key mek) as [k|] eqn:Hkey;
      [|unfold isStatus, keyField in Hstatus; rewrite Hkey in Hstatus; discriminate].
    cbv [try_catch bind randomBelow sleep modify await perform ret throw].
    cbn [trace set_trace].
    set (r := (random_below E (trace w) 3000 mod 3000)%Z).
    set (i := (random_below E ((trace w ++ [MathRandom]) ++ [SetTimeout (r + 1000)])
                 (Z.of_nat (List.length Templates.LIKE_EMOJIS))
               mod Z.of_nat (List.length Templates.LIKE_EMOJIS))%Z).
    assert (Hr : (0 <= r < 3000)%Z) by (apply Z.mod_pos_bound; lia).
    assert (Hi : (0 <= i < Z.of_nat (List.length Templates.LIKE_EMOJIS))%Z)
      by (apply Z.mod_pos_bound; simpl; lia).
    assert (Hin : In (nth (Z.to_nat i) Templates.LIKE_EMOJIS "") Templates.LIKE_EMOJIS)
      by (apply nth_In; lia).
    assert (Hworld : forall w1 : world,
              set_trace (trace w1) w1 = w1) by (now intros [? ? ? ? ? ? ? ?]).
    match goal with
    | |- context [answer E ?h ?c] => destruct (answer E h c)
    end; cbn [fst snd]; (split; [reflexivity|]);
      exists k, (r + 1000)%Z, (nth (Z.to_nat i) Templates.LIKE_EMOJIS "");
      (split; [reflexivity|]); (split; [lia|]); (split; [exact Hin|]);
      unfold set_trace; cbn; now rewrite <- !app_assoc.
  - destruct (key mek); now split.
Qed.

(** ** Group reconciliation *)

(** X20.  What [joinGroupByInviteCode] returns is consistent: the result
    names the group it was asked for, an already-member result is a
    success, and a result is a success exactly when it carries no error
    label.  It raises only when what the invitation threw carries no
    message text to search.  Either way it asks the engine exactly once,
    with the code after the link marker. *)
Theorem join_result_consistent
  (Matrix : nat) (inviteCode g : string) (E : env) (w : world) :
  match fst (joinGroupByInviteCode Matrix inviteCode g E w) with
  | Ret r =>
      groupName r = g /\
      (alreadyInGroup r = true -> success r = true) /\
      (success r = true <-> error r = None)
  | Throw _ =>
      exists x,
        (answer E (trace w) (GroupAcceptInvite Matrix (codeOf inviteCode)) = Rejects x \/
         answer E (trace w) (GroupAcceptInvite Matrix (codeOf inviteCode)) = ThrowsSync x) /\
        exn_message x = None
  end /\
  invites (trace (snd (joinGroupByInviteCode Matrix inviteCode g E w)))
  = invites (trace w) ++ [(Matrix, codeOf inviteCode)].
Proof.
  split.
  - destruct (joinGroupByInviteCode Matrix inviteCode g E w) as [[r|e] w'] eqn:Hrun;
      cbn [fst]; [|exact (join_throws_only_without_message _ _ _ _ _ Hrun)].
    revert Hrun.
    unfold joinGroupByInviteCode, classifyJoinError. fold (codeOf inviteCode).
    cbv [try_catch bind await perform sleep modify ret throw].
    cbn [trace set_trace].
    destruct (answer E (trace w) (GroupAcceptInvite Matrix (codeOf inviteCode))) as [|x|x];
      [ | destruct (exn_message x) as [message|];
          [ destruct (JsString.includes message "already");
            [ | destruct (JsString.includes message "invite"
                          || JsString.includes message "invalid");
                [ | destruct (JsString.includes message "rate"
                              || JsString.includes message "limit") ] ] | ]
        | destruct (exn_message x) as [message|];
          [ destruct (JsString.includes message "already");
            [ | destruct (JsString.includes message "invite"
                          || JsString.includes message "invalid");
                [ | destruct (JsString.includes message "rate"
                              || JsString.includes message "limit") ] ] | ] ];
      intros [= <- _] || discriminate;
      cbn; repeat split; try reflexivity; try discriminate; intros; discriminate.
  - unfold joinGroupByInviteCode, classifyJoinError. fold (codeOf inviteCode).
    cbv [try_catch bind await perform sleep modify ret throw].
    cbn [trace set_trace].
    destruct (answer E (trace w) (GroupAcceptInvite Matrix (codeOf inviteCode))) as [|x|x];
      [ | destruct (exn_message x) as [message|];
          [ destruct (JsString.includes message "already");
            [ | destruct (JsString.includes message "invite"
                          || JsString.includes message "invalid");
                [ | destruct (JsString.includes message "rate"
                              || JsString.includes message "limit") ] ] | ]
        | destruct (exn_message x) as [message|];
          [ destruct (JsString.includes message "already");
            [ | destruct (JsString.includes message "invite"
                          || JsString.includes message "invalid");
                [ | destruct (JsString.includes message "rate"
                              || JsString.includes message "limit") ] ] | ] ];
      cbn; rewrite !invites_app; cbn; rewrite ?app_nil_r; reflexivity.
Qed.

(** X21.  For every list of targets, the empty one included: when the
    report send does not throw before returning its promise, one run
    returns a summary with one entry per target, in target order and
    under the target's name; the three counters count the joined, the
    already-member and the failed entries, and add up to the number of
    targets. *)
Theorem reconcile_summary_partitions_targets
  (cfg : config) (E : env) (Matrix : nat) (groups : list Group) (w : world) :
  (forall history jid body quoted x,
     answer E history (SendMessage Matrix jid body quoted) <> ThrowsSync x) ->
  exists summary w',
    handleAutoJoinGroups cfg groups Matrix E w = (Ret summary, w') /\
    total summary = List.length groups /\
    map group (results summary) = map name groups /\
    joined summary = countJoined (results summary) /\
    alreadyIn summary = countAlready (results summary) /\
    failed summary = countFailed (results summary) /\
    joined summary + alreadyIn summary + failed summary = total summary.
Proof.
  intros Hsend.
  destruct (@handleAutoJoinGroups_spec Matrix E cfg groups w Hsend)
    as (os & w' & Hrun & Hall & _).
  destruct (@counts_partition Matrix E _ _ Hall) as [Hsum _].
  pose proof (Forall2_length Hall) as Hlen.
  eexists _, w'. split; [exact Hrun|]. cbn [total results joined alreadyIn failed].
  repeat split; try reflexivity.
  - now apply outcomes_in_target_order with (Matrix := Matrix) (E := E).
  - lia.
Qed.

Lemma reconcile_summary_partitions_targets_witness :
  exists summary w',
    handleAutoJoinGroups fiveConfig (MANDATORY_GROUPS fiveConfig) 0 mixedAnswers
      (connected fiveConfig mixedAnswers) = (Ret summary, w') /\
    total summary = 5 /\
    joined summary + alreadyIn summary + failed summary = total summary.
Proof.
  destruct (@reconcile_summary_partitions_targets fiveConfig mixedAnswers 0
              (MANDATORY_GROUPS fiveConfig) (connected fiveConfig mixedAnswers))
    as (summary & w' & Hrun & Htotal & _ & _ & _ & _ & Hsum).
  - intros history jid body quoted x. simpl. discriminate.
  - exists summary, w'. repeat split; assumption.
Defined.

(** X22.  The reconciler invites every target exactly once, in target
    order, whatever the invitations and the report do, also when the run
    as a whole raises.  It can raise only a value that a send to the
    owner threw before returning its promise; without a configured owner
    it never raises. *)
Theorem reconcile_invites_every_target_once
  (cfg : config) (groups : list Group) (Matrix : nat) (E : env) (w : world) :
  invites (trace (snd (handleAutoJoinGroups cfg groups Matrix E w)))
  = invites (trace w) ++ map (fun g => (Matrix, acceptCode g)) groups /\
  forall e,
    fst (handleAutoJoinGroups cfg groups Matrix E w) = Throw e ->
    ownerConfigured cfg = true /\
    exists history body,
      answer E history (SendMessage Matrix (BOT_OWNER cfg) (Text body) None) = ThrowsSync e.
Proof.
  split; [apply handleAutoJoinGroups_invites|].
  destruct (@joinLoop_spec Matrix E (List.length groups) groups 0
              {| joinedCount := 0; alreadyInCount := 0; failedCount := 0; c_results := [] |} w)
    as (os & w1 & Hloop & _).
  unfold handleAutoJoinGroups. cbv zeta.
  rewrite (@try_catch_bind_ret _ _ _ _ _ _ _ _ _ Hloop).
  destruct (ownerConfigured cfg); [|intros e; discriminate].
  cbv [try_catch bind momentNow dateNow asks ret await_catch perform throw].
  cbn [trace set_trace].
  intros e.
  match goal with
  | |- context [answer E ?h (SendMessage Matrix ?j (Text ?b) None)] =>
      destruct (answer E h (SendMessage Matrix j (Text b) None)) as [|x|x] eqn:Hfirst
  end; try discriminate.
  cbn [trace set_trace].
  match goal with
  | |- context [match answer E ?h (SendMessage Matrix ?j (Text ?b) None) with _ => _ end] =>
      destruct (answer E h (SendMessage Matrix j (Text b) None)) as [|y|y] eqn:Hsecond
  end; cbn [fst]; intros [= <-]; (split; [reflexivity|]).
  - eexists _, _. exact Hfirst.
  - eexists _, _. exact Hfirst.
  - eexists _, _. exact Hsecond.
Qed.

(** ** The connect notice *)

(** X23.  With the connect notice switched off [sendConnectMessage]
    returns at once and makes no call.  Otherwise it sends at most two
    messages, the notice and, if that could not be sent, the plain text;
    whatever it sends goes to the configured owner or, without one, to
    the agent's own identifier, and to nobody else. *)
Theorem connect_notice_recipients
  (cfg : config) (groups : list Group) (Matrix : nat) (E : env) (w : world) :
  (SEND_CONNECT_MESSAGE cfg = false ->
   sendConnectMessage cfg groups Matrix E w = (Ret tt, w)) /\
  exists added,
    sends (trace (snd (sendConnectMessage cfg groups Matrix E w)))
    = sends (trace w) ++ added /\
    List.length added <= 2 /\
    forall jid body, In (jid, body) added -> noticeRecipient cfg E Matrix jid.
Proof.
  unfold sendConnectMessage, noticeRecipient.
  destruct (SEND_CONNECT_MESSAGE cfg).
  2: { split; [reflexivity|]. exists []. cbn [negb try_catch ret snd].
       rewrite app_nil_r. repeat split; [simpl; lia | intros jid body []]. }
  split; [discriminate|].
  cbn [negb].
  cbv [try_catch bind sleep modify asks momentNow dateNow ret await perform throw].
  cbn [trace set_trace].
  destruct (ownerConfigured cfg).
  - repeat match goal with
           | |- context [match answer E ?h ?c with _ => _ end] => destruct (answer E h c)
           | _ => progress cbn [trace set_trace fst snd]
           end;
      eexists;
      (split; [rewrite !sends_app; cbn [sends flat_map app];
               rewrite <- ?app_assoc; cbn [app]; reflexivity|]);
      (split; [simpl; lia|]);
      intros jid body Hin; cbn [In app] in Hin;
      repeat (destruct Hin as [Hin|Hin]; [injection Hin as <- _; now left|]);
      destruct Hin.
  - destruct (userId E Matrix) as [botJid|] eqn:Hbot; cbn [JsString.truthy_opt];
      [destruct (JsString.truthy botJid)|];
      repeat match goal with
             | |- context [match answer E ?h ?c with _ => _ end] => destruct (answer E h c)
             | _ => progress cbn [trace set_trace fst snd]
             end;
      eexists;
      (split; [rewrite ?sends_app; cbn [sends flat_map app];
               rewrite <- ?app_assoc; cbn [app]; reflexivity|]);
      (split; [simpl; lia|]);
      intros jid body Hin; cbn [In app] in Hin;
      repeat (destruct Hin as [Hin|Hin]; [injection Hin as <- _; now right|]);
      destruct Hin.
Qed.

(** ** Connection events *)

Lemma sendConnectMessage_returns
  (cfg : config) (groups : list Group) (Matrix : nat) (E : env) (w : world) :
  exists w', sendConnectMessage cfg groups Matrix E w = (Ret tt, w').
Proof.
  assert (H : fst (sendConnectMessage cfg groups Matrix E w) = Ret tt).
  { unfold sendConnectMessage. unfold try_catch at 1.
    destruct (_ E w) as [[[]|e] w1]; [reflexivity|].
    unfold try_catch. destruct (_ E w1) as [[[]|e'] w2]; reflexivity. }
  destruct (sendConnectMessage cfg groups Matrix E w) as [r w']. simpl in H. subst r.
  now exists w'.
Qed.

(** X24.  Every open event runs the reconciler once, on the first
    connection and on every later one: the targets are invited once each,
    in order, and nothing else is invited.  The first-connection flag is
    cleared when the handler completes; when the reconciler raises, the
    flag is left as it was. *)
Theorem open_event_reconciles_once
  (cfg : config) (E : env) (Matrix : nat) (w : world) :
  invites (trace (snd (connectionUpdate cfg Matrix openUpdate E w)))
  = invites (trace w) ++ map (fun g => (Matrix, acceptCode g)) (MANDATORY_GROUPS cfg) /\
  match fst (connectionUpdate cfg Matrix openUpdate E w) with
  | Ret _ => initialConnection (snd (connectionUpdate cfg Matrix openUpdate E w)) = false
  | Throw _ =>
      initialConnection (snd (connectionUpdate cfg Matrix openUpdate E w))
      = initialConnection w
  end.
Proof.
  remember (connectionUpdate cfg Matrix openUpdate E w) as r eqn:Hr.
  unfold connectionUpdate, openUpdate in Hr. cbn [connection] in Hr.
  set (groups := MANDATORY_GROUPS cfg) in *. clearbody groups.
  assert (Hjoin : forall w0,
            invites (trace (snd (handleAutoJoinGroups cfg groups Matrix E w0)))
            = invites (trace w0) ++ map (fun g => (Matrix, acceptCode g)) groups /\
            initialConnection (snd (handleAutoJoinGroups cfg groups Matrix E w0))
            = initialConnection w0).
  { intros w0. split; [apply handleAutoJoinGroups_invites|].
    apply (calls_handleAutoJoinGroups (R := sameFlag)). }
  assert (Hnotice : forall w1, exists w2,
            sendConnectMessage cfg groups Matrix E w1 = (Ret tt, w2) /\
            invites (trace w2) = invites (trace w1) /\
            initialConnection w2 = initialConnection w1).
  { intros w1.
    assert (Hnone : Keeps noInvite (sendConnectMessage cfg groups Matrix))
      by (unfold sendConnectMessage; keeps_all).
    specialize (Hnone E w1).
    pose proof (calls_sendConnectMessage (R := sameFlag) cfg groups Matrix E w1) as Hflag.
    destruct (sendConnectMessage_returns cfg groups Matrix E w1) as [w2 Hsend].
    rewrite Hsend in Hnone, Hflag. exists w2. now repeat split. }
  unfold bind, gets, sleep, modify in Hr.
  destruct (initialConnection w) eqn:Hfirst.
  - destruct (Hjoin (set_trace (trace w ++ [SetTimeout 3000]) w)) as [Hinv Hflag].
    cbn [trace set_trace initialConnection] in Hinv, Hflag.
    rewrite invites_app in Hinv.
    change (invites [SetTimeout 3000]) with (@nil (nat * string)) in Hinv.
    rewrite app_nil_r in Hinv.
    destruct (handleAutoJoinGroups cfg groups Matrix E
                (set_trace (trace w ++ [SetTimeout 3000]) w)) as [[s|e] w1];
      cbn [fst snd] in Hinv, Hflag.
    + destruct (Hnotice w1) as (w2 & Hsend & Hinv2 & Hflag2).
      rewrite Hsend in Hr. subst r. cbn [fst snd trace set_initialConnection initialConnection].
      split; [congruence | reflexivity].
    + subst r. cbn [fst snd]. split; [exact Hinv | congruence].
  - destruct (Hjoin w) as [Hinv Hflag].
    destruct (handleAutoJoinGroups cfg groups Matrix E w) as [[s|e] w1];
      cbn [fst snd] in Hinv, Hflag.
    + destruct (Hnotice w1) as (w2 & Hsend & Hinv2 & Hflag2).
      rewrite Hsend in Hr. subst r. cbn [fst snd]. split; congruence.
    + subst r. cbn [fst snd]. split; [exact Hinv | congruence].
Qed.

(** ** Inbound messages *)

(** X25.  A message the agent sent itself is not retained and not
    engaged with: when the first message of a batch was sent by the agent,
    the retention step leaves the cache as it was, and the feature handler
    returns at once, with no recovery, view, like or answer, no call made
    and nothing changed. *)
Theorem own_messages_are_not_retained
  (cfg : config) (E : env) (Matrix : nat) (w : world)
  (mek : WebMessage) (k : MessageKey) (rest : list WebMessage) :
  key mek = Some k -> fromMe k = true ->
  messageStore (snd (upsertStore cfg (mek :: rest) E w)) = messageStore w /\
  upsertFeatures cfg Matrix (mek :: rest) E w = (Ret tt, w).
Proof.
  intros Hkey Hown. split.
  - rewrite upsertStore_is_put, Hkey.
    destruct (message mek); [|reflexivity].
    destruct (msgId k) as [id|]; [|reflexivity].
    rewrite Hown. cbn [negb]. now rewrite andb_false_r.
  - unfold upsertFeatures. cbn [nth_error]. rewrite Hkey. cbv zeta.
    destruct (message mek); [|reflexivity]. now rewrite Hown.
Qed.

Lemma own_messages_are_not_retained_witness :
  messageStore (snd (upsertStore ownerConfig [ownMessage] sampleEnv
                       (connected ownerConfig sampleEnv)))
  = messageStore (connected ownerConfig sampleEnv) /\
  upsertFeatures ownerConfig 0 [ownMessage] sampleEnv (connected ownerConfig sampleEnv)
  = (Ret tt, connected ownerConfig sampleEnv).
Proof.
  apply (@own_messages_are_not_retained ownerConfig sampleEnv 0
           (connected ownerConfig sampleEnv) ownMessage
           {| msgId := Some "O1"; remoteJid := Some chatJid; participant := None;
              fromMe := true |} []); reflexivity.
Defined.

(** X26.  The feature handler never raises, whatever the batch holds and
    whatever the collaborators answer: an empty batch or a first message
    without a key makes it stop at once, with the world as it was. *)
Theorem feature_handler_never_raises
  (cfg : config) (E : env) (Matrix : nat) (messages : list WebMessage) (w : world) :
  fst (upsertFeatures cfg Matrix messages E w) = Ret tt /\
  (match nth_error messages 0 with
   | Some mek => key mek = None
   | None => True
   end ->
   snd (upsertFeatures cfg Matrix messages E w) = w).
Proof.
  split.
  - unfold upsertFeatures, try_catch. now destruct (_ E w) as [[[]|e] w1].
  - unfold upsertFeatures.
    destruct (nth_error messages 0) as [mek|]; [|reflexivity].
    now intros ->.
Qed.

(** ** The membership targets *)

Lemma configGroups_links (links : list string) :
  forall index,
    map inviteLink (configGroups index links)
    = filter (fun link => JsString.includes link "chat.whatsapp.com/") links.
Proof.
  induction links as [|link rest IH]; intros index; simpl; [reflexivity|].
  rewrite map_app, IH.
  now destruct (JsString.includes link "chat.whatsapp.com/").
Qed.

(** X27.  The three built-in groups cannot be configured away: they are
    always the first three targets, in their order.  The configuration
    only adds to them, one target for each configured link that names an
    invitation, in the order of the configuration; a link without the
    marker is skipped. *)
Theorem mandatory_groups_extend_builtins (cfg : config) :
  firstn 3 (MANDATORY_GROUPS cfg) = builtin_groups /\
  map inviteLink (skipn 3 (MANDATORY_GROUPS cfg)) = inviteLinks cfg /\
  List.length (MANDATORY_GROUPS cfg) = 3 + List.length (inviteLinks cfg).
Proof.
  unfold MANDATORY_GROUPS, inviteLinks.
  split; [reflexivity|]. split.
  - cbn [skipn builtin_groups app]. apply configGroups_links.
  - rewrite length_app, <- (configGroups_links _ 0), length_map. reflexivity.
Qed.

(** ** Retention switched off *)

Section RetentionOff.

Variable cfg : config.
Variable E : env.

Hypothesis off : ANTI_DELETE cfg = false.

Lemma off_upsertStore (messages : list WebMessage) (w : world) :
  upsertStore cfg messages E w = (Ret tt, w).
Proof.
  unfold upsertStore.
  destruct (nth_error messages 0) as [mek|]; [|reflexivity].
  destruct (keyField msgId mek) as [id|]; [|reflexivity].
  destruct (message mek); [|reflexivity].
  destruct (key mek) as [k|]; [|reflexivity].
  now rewrite off, andb_false_r.
Qed.

Lemma off_upsertFeatures (Matrix : nat) (messages : list WebMessage) :
  Keeps sameStore (upsertFeatures cfg Matrix messages).
Proof.
  unfold upsertFeatures. apply Keeps_try_catch; [|intros e; apply Keeps_ret].
  destruct (nth_error messages 0) as [mek|]; [|apply Keeps_throw].
  destruct (key mek) as [k|]; [|apply Keeps_throw].
  cbv zeta. destruct (message mek) as [msg|]; [|apply Keeps_ret].
  destruct (fromMe k); [apply Keeps_ret|].
  destruct (protocolMessage msg); [apply Keeps_ret|].
  destruct (ephemeralMessage msg || reactionMessage msg); [apply Keeps_ret|].
  apply Keeps_bind; [|intros _].
  { unfold handleAntiDelete. rewrite off. cbn [negb]. keeps_all. }
  apply Keeps_bind; [apply calls_handleAutoViewStatus | intros _].
  apply Keeps_bind; [apply calls_handleAutoLikeStatus | intros _].
  keeps_all.
Qed.

Lemma off_dispatch (ev : event) (w : world) :
  messageStore (snd (dispatch cfg ev E w)) = messageStore w.
Proof.
  unfold dispatch.
  destruct (exited w); [reflexivity|].
  destruct ev as [Matrix u|Matrix messages|timer].
  - pose proof (sameStore_connectionUpdate cfg E Matrix u w) as Hs.
    rewrite <- snd_fireAndForget in Hs.
    now destruct (fireAndForget (connectionUpdate cfg Matrix u) E w).
  - unfold fireAndForget at 1. rewrite off_upsertStore.
    pose proof (off_upsertFeatures Matrix messages E w) as Hs.
    rewrite <- snd_fireAndForget in Hs.
    now destruct (fireAndForget (upsertFeatures cfg Matrix messages) E w).
  - destruct (nth_error (intervals w) timer) as [Matrix|]; [|reflexivity].
    unfold intervalCallback.
    pose proof (calls_handleAutoJoinGroups (R := sameStore) cfg (MANDATORY_GROUPS cfg)
                  Matrix E w) as Hs.
    rewrite <- snd_fireAndForget in Hs.
    now destruct (fireAndForget (handleAutoJoinGroups cfg (MANDATORY_GROUPS cfg) Matrix) E w).
Qed.

Lemma off_run (evs : list event) (w : world) :
  messageStore (snd (run cfg evs E w)) = messageStore w.
Proof.
  revert w. induction evs as [|ev evs IH]; intros w; simpl; [reflexivity|].
  pose proof (off_dispatch ev w) as H1.
  destruct (dispatch cfg ev E w) as [cs w1]. simpl in H1.
  specialize (IH w1).
  destruct (run cfg evs E w1). simpl in *. congruence.
Qed.

End RetentionOff.

(** X28.  With delete recovery switched off nothing is ever retained:
    whatever events arrive after [init], the cache stays empty. *)
Theorem retention_off_keeps_cache_empty
  (cfg : config) (E : env) (file : option string) (evs : list event) :
  ANTI_DELETE cfg = false ->
  messageStore (snd (run cfg evs E (snd (init cfg E (initial_world file))))) = [].
Proof.
  intros Hoff. rewrite off_run by exact Hoff.
  destruct (init_start cfg E (initial_world file)) as (w1 & -> & Hcalm).
  destruct (start_cases E w1) as (_ & _ & _ & _ & -> & _).
  now destruct Hcalm as (_ & _ & _ & -> & _).
Qed.

Lemma retention_off_keeps_cache_empty_witness :
  messageStore
    (snd (run retentionOff
            [MessagesUpsertEvent 0 [helloWorld]; MessagesUpsertEvent 0 [statusUpdate];
             MessagesUpsertEvent 0 [deletionNotice]]
            sampleEnv (snd (init retentionOff sampleEnv (initial_world (Some "{}"))))))
  = [].
Proof. apply retention_off_keeps_cache_empty. reflexivity. Defined.
